(** * ECHR-OD_process: the filter step ([echr/steps/filter.py])

    A shallow embedding of the text normalisation, conclusion parsing,
    filtering and dataset partitioning code of [filter.py], with the
    properties of its specification stated and settled against it.

    Conventions of the embedding.
    - A Python [str] is a Rocq [string]; a character is an 8-bit code point
      (Latin-1), and [str.lower], [str.isspace] and the regular expression
      class [\W] are given on that range.
    - A Python exception is a value [Raise e] of the [result] type; the
      statements of a function are sequenced with the bind of that monad.
    - A dictionary whose keys are fixed by the code (a conclusion element) is
      a record of optional fields; a dictionary with arbitrary keys (a case
      as read from the JSON export) is a [gmap string value]; a dictionary
      whose iteration order is observed ([outcomes], [final_elements]) is an
      association list in insertion order.
    - Objects that are mutated while they are shared are kept in an explicit
      store and referred to by their index in it. *)

From Stdlib Require Import Ascii String PrimInt63 PrimFloat.
From stdpp Require Import base option list gmap strings sorting.

Local Open Scope string_scope.
Local Open Scope list_scope.
Local Open Scope stdpp_scope.

(** ** Exceptions and the result monad *)

Inductive exn : Type :=
  | IndexError
  | KeyError
  | AttributeError
  | TypeError
  | ValueError
  | UnboundLocalError
  | SystemExit (code : nat).

Inductive result (A : Type) : Type :=
  | Ok (a : A)
  | Raise (e : exn).

Arguments Ok {A} a.
Arguments Raise {A} e.

Definition rbind {A B : Type} (m : result A) (k : A -> result B) : result B :=
  match m with
  | Ok a => k a
  | Raise e => Raise e
  end.

Notation "x <- m ;; k" := (rbind m (fun x => k))
  (at level 100, m at next level, right associativity).

Definition is_ok {A : Type} (m : result A) : bool :=
  match m with Ok _ => true | Raise _ => false end.

(** [for x in l: acc = f acc x], stopping at the first exception. *)
Fixpoint foldM {A S : Type} (f : S -> A -> result S) (l : list A) (s : S) : result S :=
  match l with
  | [] => Ok s
  | x :: l' => s' <- f s x ;; foldM f l' s'
  end.

(** [[f x for x in l]] where [f] may raise. *)
Fixpoint mapM_r {A B : Type} (f : A -> result B) (l : list A) : result (list B) :=
  match l with
  | [] => Ok []
  | x :: l' => y <- f x ;; ys <- mapM_r f l' ;; Ok (y :: ys)
  end.

(** [[x for x in l if p x]] where [p] may raise. *)
Fixpoint filterM_r {A : Type} (p : A -> result bool) (l : list A) : result (list A) :=
  match l with
  | [] => Ok []
  | x :: l' =>
      b <- p x ;; ys <- filterM_r p l' ;; Ok (if b then x :: ys else ys)
  end.

(** ** Python string primitives *)

Module Py.

(** Code points. *)
Definition code (c : ascii) : nat := nat_of_ascii c.

Definition in_range (lo hi n : nat) : bool := Nat.leb lo n && Nat.leb n hi.

(** [c.isspace()] on Latin-1. *)
Definition isspace (c : ascii) : bool :=
  let n := code c in
  in_range 9 13 n || in_range 28 32 n || Nat.eqb n 133 || Nat.eqb n 160.

(** The class [\w] of [re] on [str] patterns, on Latin-1. *)
Definition isword (c : ascii) : bool :=
  let n := code c in
  in_range 48 57 n || in_range 65 90 n || Nat.eqb n 95 || in_range 97 122 n
  || Nat.eqb n 170 || in_range 178 179 n || Nat.eqb n 181 || in_range 185 186 n
  || in_range 188 190 n || in_range 192 214 n || in_range 216 246 n
  || in_range 248 255 n.

Definition lower_char (c : ascii) : ascii :=
  let n := code c in
  if in_range 65 90 n || in_range 192 214 n || in_range 216 222 n
  then ascii_of_nat (n + 32) else c.

(** [s.lower()] *)
Fixpoint lower (s : string) : string :=
  match s with
  | EmptyString => EmptyString
  | String c s' => String (lower_char c) (lower s')
  end.

(** [s.startswith(p)] *)
Definition startswith (s p : string) : bool := String.prefix p s.

(** [sub in s] for strings. *)
Fixpoint contains (sub s : string) : bool :=
  match s with
  | EmptyString => startswith s sub
  | String _ s' => startswith s sub || contains sub s'
  end.

(** [s[n:]] *)
Fixpoint drop (n : nat) (s : string) : string :=
  match n, s with
  | S k, String _ s' => drop k s'
  | _, _ => s
  end.

(** [s[-1]] *)
Fixpoint last_char (s : string) : result ascii :=
  match s with
  | EmptyString => Raise IndexError
  | String c EmptyString => Ok c
  | String _ s' => last_char s'
  end.

(** Put a character in front of the first piece of a split. *)
Definition cons_head (c : ascii) (l : list string) : list string :=
  match l with
  | [] => [String c EmptyString]
  | h :: t => String c h :: t
  end.

(** [s.split(sep)] for a non-empty separator: the occurrences of [sep] are
    found from the left and do not overlap. [skip] counts the characters
    of a separator that are still to be passed over. *)
Fixpoint split_go (sep : string) (skip : nat) (s : string) : list string :=
  match s with
  | EmptyString => [EmptyString]
  | String c s' =>
      match skip with
      | S k => split_go sep k s'
      | O =>
          if startswith s sep
          then EmptyString :: split_go sep (String.length sep - 1) s'
          else cons_head c (split_go sep 0 s')
      end
  end.

Definition split (sep s : string) : list string := split_go sep 0 s.

(** [s.split(sep, 1)] for a one-character separator. *)
Fixpoint split1 (sep : ascii) (s : string) : list string :=
  match s with
  | EmptyString => [EmptyString]
  | String c s' =>
      if Ascii.eqb c sep then [EmptyString; s']
      else cons_head c (split1 sep s')
  end.

(** [s.replace(old, new)] for a non-empty [old]. *)
Fixpoint replace_go (old new : string) (skip : nat) (s : string) : string :=
  match s with
  | EmptyString => EmptyString
  | String c s' =>
      match skip with
      | S k => replace_go old new k s'
      | O =>
          if startswith s old
          then new +:+ replace_go old new (String.length old - 1) s'
          else String c (replace_go old new 0 s')
      end
  end.

Definition replace (old new s : string) : string := replace_go old new 0 s.

(** [s.split()]: the maximal runs of non-whitespace characters. *)
Fixpoint words (s : string) : list string :=
  match s with
  | EmptyString => []
  | String c s' =>
      if isspace c then words s'
      else match s' with
           | EmptyString => [String c EmptyString]
           | String c' _ =>
               if isspace c' then String c EmptyString :: words s'
               else cons_head c (words s')
           end
  end.

Fixpoint lstrip (s : string) : string :=
  match s with
  | EmptyString => EmptyString
  | String c s' => if isspace c then lstrip s' else s
  end.

Fixpoint rstrip (s : string) : string :=
  match s with
  | EmptyString => EmptyString
  | String c s' =>
      match rstrip s' with
      | EmptyString => if isspace c then EmptyString else String c EmptyString
      | r => String c r
      end
  end.

(** [s.strip()] *)
Definition strip (s : string) : string := rstrip (lstrip s).

(** [sep.join(l)] *)
Fixpoint join (sep : string) (l : list string) : string :=
  match l with
  | [] => EmptyString
  | [x] => x
  | x :: l' => x +:+ sep +:+ join sep l'
  end.

(** [l[-1]] and [l[-2]] *)
Definition last_item {A : Type} (l : list A) : result A :=
  match last l with Some x => Ok x | None => Raise IndexError end.

Definition item_m2 {A : Type} (l : list A) : result A :=
  match rev l with
  | _ :: x :: _ => Ok x
  | _ => Raise IndexError
  end.

(** [l[i]] for [i >= 0] *)
Definition item {A : Type} (l : list A) (i : nat) : result A :=
  match l !! i with Some x => Ok x | None => Raise IndexError end.

(** [l[:-1]] *)
Definition but_last {A : Type} (l : list A) : list A := removelast l.

(** [len(s) > 0] *)
Definition nonempty (s : string) : bool :=
  match s with EmptyString => false | _ => true end.

End Py.

(** ** Party names, article tokens and base articles *)

(** [format_parties]: the list of parties from the case title. *)
Definition format_parties (parties : string) : result (list string) :=
  let parties :=
    if Py.startswith parties "CASE OF "
    then Py.drop (String.length "CASE OF ") parties else parties in
  c <- Py.last_char parties ;;
  parties <- (if Ascii.eqb c ")" then Py.item (Py.split "(" parties) 0
              else Ok parties) ;;
  let parties := Py.split " v. " parties in
  Ok (map Py.strip parties).

(** [re.match("^\W", art)]: one leading non-word character is dropped. *)
Definition remove_incorrect_prefixes (art : string) : string :=
  match art with
  | String c art' => if negb (Py.isword c) then art' else art
  | EmptyString => art
  end.

(** [enumerate(l)] *)
Definition enumerate {A : Type} (l : list A) : list (nat * A) :=
  zip (seq 0 (length l)) l.

(** [split_and_format_article]: the article tokens of a compound string. *)
Definition split_and_format_article (article : string) : result (list string) :=
  let parts := Py.split "+" article in
  lst <- Py.last_item parts ;;
  foldM (fun articles '(k, e) =>
           nxt <- Py.item parts (k + 1) ;;
           if negb (Py.startswith nxt e)
           then Ok (articles ++ [remove_incorrect_prefixes e])
           else Ok articles)
        (enumerate (Py.but_last parts))
        [remove_incorrect_prefixes lst].

(** The body of the loop of [find_base_articles], for one article. *)
Definition find_base_article (a : string) : result string :=
  a <- Py.item (Py.split "+" a) 0 ;;
  if negb (Py.contains "p" (Py.lower a))
  then Py.item (Py.split1 "-" a) 0
  else Ok (Py.join "-" (take 2 (Py.split "-" a))).

Definition find_base_articles (articles : list string) : result (list string) :=
  mapM_r find_base_article articles.

(** ** Conclusion elements *)

Inductive ElemType : Type := violation | no_violation | other.

#[export] Instance ElemType_eq_dec : EqDecision ElemType.
Proof. solve_decision. Defined.

(** A conclusion element: the dictionary with the keys ['element'], ['type'],
    ['article'], ['base_article'], ['details'] and ['mentions'], of which
    only ['element'] is always present. *)
Record Element : Type := mkElement {
  element : string;
  type : option ElemType;
  article : option string;
  base_article : option string;
  details : option (list string);
  mentions : option (list string)
}.

#[export] Instance Element_eq_dec : EqDecision Element.
Proof. solve_decision. Defined.

(** [{'element': s}] *)
Definition new_element (s : string) : Element :=
  mkElement s None None None None None.

Definition set_type (t : ElemType) (d : Element) : Element :=
  mkElement (element d) (Some t) (article d) (base_article d) (details d) (mentions d).

Definition set_article (a : string) (d : Element) : Element :=
  mkElement (element d) (type d) (Some a) (base_article d) (details d) (mentions d).

Definition set_base_article (a : string) (d : Element) : Element :=
  mkElement (element d) (type d) (article d) (Some a) (details d) (mentions d).

Definition set_details (l : list string) (d : Element) : Element :=
  mkElement (element d) (type d) (article d) (base_article d) (Some l) (mentions d).

Definition set_mentions (l : list string) (d : Element) : Element :=
  mkElement (element d) (type d) (article d) (base_article d) (details d) (Some l).

(** [d.update(e)]: every key of [e] overwrites the one of [d]. *)
Definition update (d e : Element) : Element :=
  let pick {A} (x y : option A) := match y with Some _ => y | None => x end in
  mkElement (element e) (pick (type d) (type e)) (pick (article d) (article e))
    (pick (base_article d) (base_article e)) (pick (details d) (details e))
    (pick (mentions d) (mentions e)).

(** The key under which [merge_conclusion_elements] files an element. *)
Definition merge_key (e : Element) : string :=
  match article e, base_article e with
  | Some a, Some b => a +:+ "_" +:+ b +:+ "_" +:+ element e
  | _, _ => element e
  end.

(** An insertion-ordered dictionary with string keys. *)
Fixpoint dict_get {V : Type} (k : string) (d : list (string * V)) : option V :=
  match d with
  | [] => None
  | (k', v) :: d' => if String.eqb k' k then Some v else dict_get k d'
  end.

Fixpoint dict_alter {V : Type} (f : V -> V) (k : string) (d : list (string * V))
  : list (string * V) :=
  match d with
  | [] => []
  | (k', v) :: d' =>
      if String.eqb k' k then (k', f v) :: d' else (k', v) :: dict_alter f k d'
  end.

(** [d[k] = v] *)
Definition dict_set {V : Type} (k : string) (v : V) (d : list (string * V))
  : list (string * V) :=
  match dict_get k d with
  | Some _ => dict_alter (fun _ => v) k d
  | None => d ++ [(k, v)]
  end.

(** [merge_conclusion_elements]: elements with the same key are merged into
    the first one of them. *)
Definition merge_step (final_elements : list (string * Element)) (e : Element)
  : list (string * Element) :=
  let key := merge_key e in
  let final_elements :=
    match dict_get key final_elements with
    | None => dict_set key e final_elements
    | Some _ => final_elements
    end in
  dict_alter (fun d => update d e) key final_elements.

Definition merge_conclusion_elements (elements : list Element) : list Element :=
  map snd (fold_left merge_step elements []).

Definition get_element_type (l : string) : ElemType :=
  if Py.startswith l "violation" then violation
  else if Py.startswith l "no-violation" || Py.startswith l "no violation"
       then no_violation
       else other.

(** ** The conclusion parser *)

(** What [format_conclusion_elements] puts in [to_append]: either the object
    [final_ccl[i]] itself, which later statements still mutate, or a fresh
    copy made by [copy.copy]. *)
Inductive entry : Type :=
  | Alias (i : nat)
  | Fresh (item : Element).

(** The value of an entry once [final_ccl] is no longer mutated. *)
Definition resolve (final_ccl : list Element) (x : entry) : result Element :=
  match x with
  | Alias i => Py.item final_ccl i
  | Fresh item => Ok item
  end.

Definition find_and_replace : list (string * string) :=
  [(" and art. ", ""); (" and of ", "+"); (" and ", "+")].

Definition apply_find_and_replace (l : string) : string :=
  fold_left (fun l p => if Py.contains (fst p) l then Py.replace (fst p) (snd p) l else l)
            find_and_replace l.

(** The loop over the words [b] that looks for the article string: the first
    word that starts with ["art"] decides; [rest] is [b[j + 1:]]. *)
Fixpoint find_art (b : list string) : result (option string) :=
  match b with
  | [] => Ok None
  | a :: rest =>
      if Py.startswith a "art" then
        if Py.startswith (Py.lower a) "art."
           && negb (Py.startswith (Py.lower a) "art. ")
           && Nat.ltb 4 (String.length a)
        then Ok (Some (Py.drop 4 (Py.lower a)))
        else match rest with
             | nxt :: _ => Ok (Some nxt)
             | [] => Raise IndexError
             end
      else find_art rest
  end.

(** The protocol branch: the token [p{f2}-{f1}]. *)
Definition protocol_article (element_text : string) : result string :=
  let prot := Py.split "protocol no." (Py.lower element_text) in
  p0 <- Py.item prot 0 ;;
  f1 <- Py.item_m2 (Py.words p0) ;;
  p1 <- Py.item prot 1 ;;
  f2 <- Py.item (Py.words p1) 0 ;;
  Ok ("p" +:+ f2 +:+ "-" +:+ f1).

(** [format_conclusion_elements(i, e, final_ccl)]: returns the mutated
    [final_ccl] with the list [to_append]. The statements after
    [art = art.split('+')] only rebind the locals [t] and [e], under a
    condition (['+' in art[0]]) that a piece of a split on ['+'] never
    meets, and are left out. *)
Definition format_conclusion_elements (i : nat) (e : Element) (final_ccl : list Element)
  : result (list Element * list entry) :=
  let l := Py.strip (Py.lower (element e)) in
  let t := get_element_type l in
  let final_ccl := alter (set_type t) i final_ccl in
  let to_append := if decide (t = other) then [Alias i] else [] in
  st <-
    (if Py.contains "protocol" (Py.lower (element e)) then
       tok <- protocol_article (element e) ;;
       let final_ccl := alter (set_article tok) i final_ccl in
       articles <- split_and_format_article tok ;;
       Ok (final_ccl, articles)
     else Ok (final_ccl, [])) ;;
  let '(final_ccl, articles) := st in
  cur <- Py.item final_ccl i ;;
  articles <-
    (match article cur with
     | None =>
         if decide (t = other) then Ok articles
         else
           let l := apply_find_and_replace l in
           let b := Py.words l in
           art <- find_art b ;;
           match art with
           | Some art => split_and_format_article art
           | None => Ok articles
           end
     | Some _ => Ok articles
     end) ;;
  base_articles <- find_base_articles articles ;;
  items <- mapM_r (fun '(k, art) =>
                     base <- Py.item base_articles k ;;
                     Ok (Fresh (set_base_article base (set_article art cur))))
                  (enumerate articles) ;;
  Ok (final_ccl, to_append ++ items).

(** [final_ccl[-1] = f(final_ccl[-1])] *)
Definition update_last (f : Element -> Element) (final_ccl : list Element)
  : result (list Element) :=
  match final_ccl with
  | [] => Raise IndexError
  | _ => Ok (alter f (length final_ccl - 1) final_ccl)
  end.

(** The chunks of the narrative: the pieces between [')'], those without a
    ['('] cut again on [';'], empty ones dropped. *)
Definition clause_chunks (ccl : string) : list string :=
  let chunks := filter (fun c => Py.nonempty c) (Py.split ")" ccl) in
  let art :=
    fold_left (fun art c =>
                 if negb (Py.contains "(" c) then art ++ Py.split ";" c
                 else art ++ [c])
              chunks [] in
  filter (fun a => Py.nonempty a) art.

(** One turn of the loop [for c in art] of [format_conclusion]. The state is
    [final_ccl] with the local [articles], which is unbound ([None]) before
    the first turn. The test [if b:] holds for a non-empty list, which is
    the pattern [Some (x :: b')]. *)
Definition clause_step (st : list Element * option (list string)) (c : string)
  : result (list Element * option (list string)) :=
  let final_ccl := fst st in
  let a := Py.split "(" c in
  b <- (if Nat.ltb 1 (length a)
        then a1 <- Py.item a 1 ;; Ok (Some (Py.split ";" a1))
        else Ok None) ;;
  a0 <- Py.item a 0 ;;
  let articles := map Py.strip (Py.split ";" a0) in
  let articles := filter (fun d => Py.nonempty d) articles in
  if Nat.eqb (length articles) 0 then
    match b with
    | Some (x :: b') =>
        final_ccl <-
          update_last (fun d => match mentions d with
                                | Some m => set_mentions (m ++ x :: b') d
                                | None => set_mentions (x :: b') d
                                end) final_ccl ;;
        Ok (final_ccl, Some articles)
    | _ => Ok (final_ccl, Some articles)
    end
  else
    lst <- Py.last_item articles ;;
    let article := if negb (Py.startswith lst ";") then lst else Py.drop 1 lst in
    let conclusion := new_element article in
    let conclusion :=
      match b with
      | Some (x :: b') => set_details (x :: b') conclusion
      | _ => conclusion
      end in
    if Nat.eqb (String.length (Py.strip article)) 0 then
      match b with
      | Some b =>
          final_ccl <- update_last (set_mentions b) final_ccl ;;
          Ok (final_ccl, Some articles)
      | None => Ok (final_ccl, Some articles)
      end
    else Ok (final_ccl ++ [conclusion], Some articles).

(** The first half of [format_conclusion]: the clauses, before they are
    classified. *)
Definition conclusion_clauses (ccl : string) : result (list Element) :=
  st <- foldM clause_step (clause_chunks ccl) ([], None) ;;
  let '(final_ccl, articles) := st in
  match articles with
  | None => Raise UnboundLocalError
  | Some articles =>
      if Nat.ltb 1 (length articles)
      then Ok (final_ccl ++
               map new_element (filter (fun a => Py.nonempty a) (Py.but_last articles)))
      else Ok final_ccl
  end.

(** The loop [for i, e in enumerate(final_ccl)] of [format_conclusion]. *)
Definition classify_clauses (final_ccl : list Element)
  : result (list Element * list entry) :=
  foldM (fun '(final_ccl, to_append) i =>
           e <- Py.item final_ccl i ;;
           r <- format_conclusion_elements i e final_ccl ;;
           Ok (fst r, to_append ++ snd r))
        (seq 0 (length final_ccl)) (final_ccl, []).

(** [format_conclusion]: a conclusion string into a list of elements. *)
Definition format_conclusion (ccl : string) : result (list Element) :=
  final_ccl <- conclusion_clauses ccl ;;
  st <- classify_clauses final_ccl ;;
  let '(final_ccl, to_append) := st in
  to_append <- mapM_r (resolve final_ccl) to_append ;;
  Ok (merge_conclusion_elements to_append).

(** ** Cases *)

(** The values of the fields of a case: the strings of the export, and what
    [format_cases] puts in their place. *)
Inductive value : Type :=
  | VStr (s : string)
  | VList (l : list string)
  | VConclusion (l : list Element)
  | VCountry (alpha2 name : string).

#[export] Instance value_eq_dec : EqDecision value.
Proof. solve_decision. Defined.

(** [d[k]] *)
Definition getitem {V : Type} (d : gmap string V) (k : string) : result V :=
  match d !! k with
  | Some v => Ok v
  | None => Raise KeyError
  end.

(** The receiver of a [str] method. *)
Definition as_str (v : value) : result string :=
  match v with
  | VStr s => Ok s
  | _ => Raise AttributeError
  end.

(** [needle in v] *)
Definition value_contains (needle : string) (v : value) : bool :=
  match v with
  | VStr s => Py.contains needle s
  | VList l => bool_decide (needle ∈ l)
  | VConclusion _ => false
  | VCountry _ _ => bool_decide (needle ∈ ["alpha2"; "name"])
  end.

(** *** The filter pipeline *)

Definition filter_language (cases : list (gmap string value)) :=
  filterM_r (fun i => v <- getitem i "languageisocode" ;;
                      Ok (bool_decide (v = VStr "ENG"))) cases.

Definition filter_doctype (cases : list (gmap string value)) :=
  filterM_r (fun i => v <- getitem i "doctype" ;;
                      Ok (bool_decide (v = VStr "HEJUD"))) cases.

Definition filter_conclusion (cases : list (gmap string value)) :=
  filterM_r (fun i => v <- getitem i "conclusion" ;;
                      Ok (value_contains "No-violation" v
                          || value_contains "No violation" v
                          || value_contains "Violation" v
                          || value_contains "violation" v)) cases.

Definition denylist : list value :=
  [VStr "001-154354"; VStr "001-108395"; VStr "001-79411"].

Definition filter_denylist (cases : list (gmap string value)) :=
  filterM_r (fun i => v <- getitem i "itemid" ;;
                      Ok (negb (bool_decide (v ∈ denylist)))) cases.

(** [filter_cases]: the four filters in turn; [exit(1)] on an empty list. *)
Definition filter_cases (cases : list (gmap string value))
  : result (list (gmap string value)) :=
  let total := length cases in
  if Nat.eqb total 0 then Raise (SystemExit 1)
  else
    cases <- filter_language cases ;;
    cases <- filter_doctype cases ;;
    cases <- filter_conclusion cases ;;
    cases <- filter_denylist cases ;;
    Ok cases.

(** *** The case normaliser *)

(** [list(set(l))]: the distinct items of [l]; Python leaves their order
    unspecified, the model keeps each item at its last occurrence. *)
Definition list_set (l : list string) : list string := remove_dups l.

Definition format_article (article : string) : result (list string) :=
  let articles := Py.split ";" (Py.lower article) in
  tokens <- mapM_r split_and_format_article articles ;;
  bases <- find_base_articles (concat tokens) ;;
  Ok (list_set bases).

Definition format_subarticle (article : string) : list string :=
  let articles := Py.split ";" article in
  let articles := concat (map (Py.split "+") articles) in
  list_set articles.

(** [len(v) > 0] *)
Definition value_nonempty (v : value) : bool :=
  match v with
  | VStr s => Py.nonempty s
  | VList l => Nat.ltb 0 (length l)
  | VConclusion l => Nat.ltb 0 (length l)
  | VCountry _ _ => true
  end.

(** [v.split(';') if len(v) > 0 else []] *)
Definition explode (v : value) : result (list string) :=
  if value_nonempty v then s <- as_str v ;; Ok (Py.split ";" s) else Ok [].

Section Normaliser.

(** The two reference tables, read from [data/countries.json] and
    [data/originatingbody.json]. *)
Variable COUNTRIES : gmap string value.
Variable ORIGINATING_BODY : gmap string (gmap string value).

(** The body of the loop of [format_cases], on the case [cases[i]]. *)
Definition format_case (c : gmap string value) : result (gmap string value) :=
  v <- getitem c "docname" ;; s <- as_str v ;; parties <- format_parties s ;;
  let c := <["parties" := VList parties]> c in
  v <- getitem c "conclusion" ;;
  let c := <["__conclusion" := v]> c in
  v <- getitem c "__conclusion" ;; s <- as_str v ;; ccl <- format_conclusion s ;;
  let c := <["conclusion" := VConclusion ccl]> c in
  v <- getitem c "article" ;;
  let c := <["__articles" := v]> c in
  v <- getitem c "__articles" ;; s <- as_str v ;; a <- format_article s ;;
  let c := <["article" := VList a]> c in
  v <- getitem c "__articles" ;; s <- as_str v ;;
  let c := <["paragraphs" := VList (format_subarticle s)]> c in
  v <- getitem c "externalsources" ;; externalsources <- explode v ;;
  let c := <["externalsources" := VList externalsources]> c in
  v <- getitem c "documentcollectionid" ;; documentcollectionid <- explode v ;;
  let c := <["documentcollectionid" := VList documentcollectionid]> c in
  v <- getitem c "issue" ;; issue <- explode v ;;
  let c := <["issue" := VList issue]> c in
  v <- getitem c "representedby" ;; representedby <- explode v ;;
  let c := <["representedby" := VList representedby]> c in
  v <- getitem c "extractedappno" ;; s <- as_str v ;;
  let extractedappno := Py.split ";" s in
  let c := <["extractedappno" := VList extractedappno]> c in
  let c := <["externalsources" := VList (map Py.strip externalsources)]> c in
  let c := <["documentcollectionid" := VList (map Py.strip documentcollectionid)]> c in
  let c := <["issue" := VList (map Py.strip issue)]> c in
  let c := <["representedby" := VList (map Py.strip representedby)]> c in
  let c := <["extractedappno" := VList (map Py.strip extractedappno)]> c in
  v <- getitem c "respondent" ;; s <- as_str v ;;
  code <- Py.item (Py.split ";" s) 0 ;;
  country <- getitem COUNTRIES code ;;
  let c := <["country" := country]> c in
  v <- getitem c "originatingbody" ;; s <- as_str v ;;
  body <- getitem ORIGINATING_BODY s ;; body_type <- getitem body "type" ;;
  let c := <["originatingbody_type" := body_type]> c in
  body <- getitem ORIGINATING_BODY s ;; body_name <- getitem body "name" ;;
  let c := <["originatingbody_name" := body_name]> c in
  v <- getitem c "Rank" ;;
  let c := <["rank" := v]> c in
  _ <- getitem c "Rank" ;; let c := delete "Rank" c in
  _ <- getitem c "isplaceholder" ;; let c := delete "isplaceholder" c in
  v <- getitem c "kpdateAsText" ;;
  let c := <["kpdate" := v]> c in
  _ <- getitem c "kpdateAsText" ;; let c := delete "kpdateAsText" c in
  _ <- getitem c "documentcollectionid2" ;;
  let c := delete "documentcollectionid2" c in
  v <- getitem c "kpthesaurus" ;; s <- as_str v ;;
  let c := <["kpthesaurus" := VList (Py.split ";" s)]> c in
  v <- getitem c "scl" ;; s <- as_str v ;;
  let scl := if Py.nonempty (Py.strip s) then Py.split ";" s else [] in
  let c := <["scl" := VList scl]> c in
  _ <- getitem c "doctype" ;; let c := delete "doctype" c in
  _ <- getitem c "meetingnumber" ;; let c := delete "meetingnumber" c in
  Ok c.

(** [format_cases]: every case of the list is normalised in place. *)
Definition format_cases (cases : list (gmap string value))
  : result (list (gmap string value)) :=
  mapM_r format_case cases.

End Normaliser.

(** ** The dataset partitioner (the second half of [run]) *)

(** What the partitioner reads and writes of a normalised case: the values
    under ['itemid'], ['conclusion'] and, if present, ['mc_conclusion']. *)
Record Case : Type := mkCase {
  itemid : string;
  conclusion : list Element;
  mc_conclusion : option value
}.

(** The view of a case of [format_cases] as the partitioner sees it. *)
Definition case_view (c : gmap string value) : result Case :=
  v <- getitem c "itemid" ;; id <- as_str v ;;
  v <- getitem c "conclusion" ;;
  match v with
  | VConclusion ccl => Ok (mkCase id ccl (c !! "mc_conclusion"))
  | _ => Raise TypeError
  end.

(** [e['type']] *)
Definition gettype (e : Element) : result ElemType :=
  match type e with
  | Some t => Ok t
  | None => Raise KeyError
  end.

(** [t in ['violation', 'no-violation']] *)
Definition is_outcome (t : ElemType) : bool :=
  bool_decide (t ∈ [violation; no_violation]).

(** ['{}:{}'.format(g, 1 if t == 'violation' else 0)] *)
Definition class_label (g : string) (t : ElemType) : string :=
  g +:+ ":" +:+ (if decide (t = violation) then "1" else "0").

(** The list [classes] of a case, before [list(set(classes))]. *)
Definition case_labels (ccl : list Element) : result (list string) :=
  foldM (fun classes e =>
           t <- gettype e ;;
           if is_outcome t then
             match article e with
             | Some g => Ok (classes ++ [class_label g t])
             | None => Ok classes
             end
           else Ok classes)
        ccl [].

(** [str(abs(1 - int(s)))] on the two strings that end a label. *)
Definition flip_bit (s : string) : result string :=
  if String.eqb s "1" then Ok "0"
  else if String.eqb s "0" then Ok "1"
  else Raise ValueError.

(** [e.split(':')[0] + ':' + str(abs(1 - int(e.split(':')[-1])))] *)
Definition opposite_label (e : string) : result string :=
  h <- Py.item (Py.split ":" e) 0 ;;
  l <- Py.last_item (Py.split ":" e) ;;
  b <- flip_bit l ;;
  Ok (h +:+ ":" +:+ b).

(** [any([e for e in classes if opposite(e) in classes])] *)
Definition opposed_classes (classes : list string) : result bool :=
  l <- filterM_r (fun e => o <- opposite_label e ;; Ok (bool_decide (o ∈ classes)))
                 classes ;;
  Ok (existsb Py.nonempty l).

(** The test that puts a case in [filtered_cases]. *)
Definition outcome_consistent (c : Case) : result bool :=
  classes <- case_labels (conclusion c) ;;
  let classes := list_set classes in
  opposed <- opposed_classes classes ;;
  Ok (Nat.ltb 0 (length classes) && negb opposed).

Definition filtered_cases (cases : list Case) : result (list Case) :=
  filterM_r outcome_consistent cases.

(** An entry of [outcomes]. *)
Record Tally : Type := mkTally {
  n_violation : nat;
  n_no_violation : nat;
  total : nat
}.

(** [outcomes[a][t] += 1; outcomes[a]['total'] += 1] *)
Definition bump (t : ElemType) (o : Tally) : Tally :=
  match t with
  | violation => mkTally (S (n_violation o)) (n_no_violation o) (S (total o))
  | no_violation => mkTally (n_violation o) (S (n_no_violation o)) (S (total o))
  | other => o
  end.

Definition tally_state : Type := list (string * Tally) * list (string * list nat).

(** One element [e] of the case stored at index [r]. *)
Definition tally_element (r : nat) (st : tally_state) (e : Element) : result tally_state :=
  let '(outcomes, cases_per_articles) := st in
  t <- gettype e ;;
  if is_outcome t then
    match article e with
    | Some a =>
        let outcomes :=
          match dict_get a outcomes with
          | None => dict_set a (mkTally 0 0 0) outcomes
          | Some _ => outcomes
          end in
        let outcomes := dict_alter (bump t) a outcomes in
        let cases_per_articles :=
          match dict_get a cases_per_articles with
          | None => dict_set a [] cases_per_articles
          | Some _ => cases_per_articles
          end in
        let cases_per_articles := dict_alter (fun l => l ++ [r]) a cases_per_articles in
        Ok (outcomes, cases_per_articles)
    | None => Ok st
    end
  else Ok st.

(** [outcomes] and [cases_per_articles]; the cases are referred to by their
    index in [filtered_cases]. *)
Definition tally (filtered : list Case) : result tally_state :=
  foldM (fun st '(r, c) => foldM (tally_element r) (conclusion c) st)
        (enumerate filtered) ([], []).

(** [sorted(outcomes.items(), key=lambda x: x[1]['total'])]: a stable sort. *)
Fixpoint insert_by_total (x : string * Tally) (l : list (string * Tally))
  : list (string * Tally) :=
  match l with
  | [] => [x]
  | y :: l' =>
      if Nat.ltb (total (snd x)) (total (snd y)) then x :: l
      else y :: insert_by_total x l'
  end.

Definition sort_by_total (l : list (string * Tally)) : list (string * Tally) :=
  fold_left (fun acc x => insert_by_total x acc) l [].

Definition sorted_outcomes (outcomes : list (string * Tally)) : list string :=
  map fst (sort_by_total outcomes).

(** The state of the multiclass loop: the case objects, [multiclass_index]
    and the references held by [multiclass_cases]. *)
Record mc_state : Type := mkMc {
  store : list Case;
  multiclass_index : gmap string string;
  multiclass_cases : list nat
}.

(** [nb_datasets] *)
Definition nb_datasets (c : Case) : list string := omap article (conclusion c).

Definition set_mc_conclusion (cc : Element) (c : Case) : Case :=
  mkCase (itemid c) (conclusion c) (Some (VConclusion [cc])).

(** The body of [for c in cases_per_articles[k]], for the case at [r]. *)
Definition multiclass_visit (k : string) (st : mc_state) (r : nat) : result mc_state :=
  c <- Py.item (store st) r ;;
  match multiclass_index st !! itemid c with
  | Some _ => Ok st
  | None =>
      if Nat.eqb (length (list_set (nb_datasets c))) 1 then
        let store' :=
          match find (fun cc => bool_decide (article cc = Some k)) (conclusion c) with
          | Some cc => alter (set_mc_conclusion cc) r (store st)
          | None => store st
          end in
        c <- Py.item store' r ;;
        match mc_conclusion c with
        | Some _ =>
            Ok (mkMc store' (<[itemid c := k]> (multiclass_index st))
                     (multiclass_cases st ++ [r]))
        | None => Ok (mkMc store' (multiclass_index st) (multiclass_cases st))
        end
      else Ok st
  end.

Definition dict_getitem {V : Type} (k : string) (d : list (string * V)) : result V :=
  match dict_get k d with
  | Some v => Ok v
  | None => Raise KeyError
  end.

Definition multiclass (order : list string) (cases_per_articles : list (string * list nat))
    (filtered : list Case) : result mc_state :=
  foldM (fun st k =>
           refs <- dict_getitem k cases_per_articles ;;
           foldM (multiclass_visit k) refs st)
        order (mkMc filtered ∅ []).

(** What the partitioner computes. *)
Record Datasets : Type := mkDatasets {
  ds_filtered : list Case;
  ds_outcomes : list (string * Tally);
  ds_cases_per_articles : list (string * list nat);
  ds_order : list string;
  ds_index : gmap string string;
  ds_multiclass : list Case
}.

(** The dataset part of [run], from the normalised cases to the content of
    [raw_cases_info_multiclass.json]. The multilabel listing, which no
    later statement reads, is left out. *)
Definition run (cases : list Case) : result Datasets :=
  filtered <- filtered_cases cases ;;
  st <- tally filtered ;;
  let '(outcomes, cases_per_articles) := st in
  let order := sorted_outcomes outcomes in
  mc <- multiclass order cases_per_articles filtered ;;
  out <- mapM_r (Py.item (store mc)) (multiclass_cases mc) ;;
  Ok (mkDatasets filtered outcomes cases_per_articles order (multiclass_index mc) out).

(** *** The multilabel listing (in [run]) *)

(** The loop over [outcomes.keys()]: [multilabel_cases] is extended with the
    cases filed under each article in turn. *)
Definition multilabel_cases (outcomes : list (string * Tally))
    (cases_per_articles : list (string * list nat)) (filtered : list Case)
  : result (list Case) :=
  foldM (fun multilabel_cases k =>
           refs <- dict_getitem k cases_per_articles ;;
           cs <- mapM_r (Py.item filtered) refs ;;
           Ok (multilabel_cases ++ cs))
        (map fst outcomes) [].

(** The loop that keeps a case when its identifier is still in
    [multilabel_index], and then discards the identifier. *)
Definition multilabel_cases_unique (multilabel_cases : list Case)
    (multilabel_index : gset string) : list Case :=
  fst (fold_left (fun st c =>
                    if decide (itemid c ∈ st.2)
                    then (st.1 ++ [c], st.2 ∖ {[itemid c]})
                    else st)
                 multilabel_cases ([], multilabel_index)).

(** The content of [raw_cases_info_multilabel.json], from the normalised
    cases. *)
Definition multilabel (cases : list Case) : result (list Case) :=
  filtered <- filtered_cases cases ;;
  st <- tally filtered ;;
  let '(outcomes, cases_per_articles) := st in
  ml <- multilabel_cases outcomes cases_per_articles filtered ;;
  Ok (multilabel_cases_unique ml (list_to_set (map itemid ml))).

(** ** The statistics ([generate_statistics]) *)

(** What [generate_count] collects: strings, and the dictionaries of a list
    of elements that is found under another key than ['conclusion']. *)
Inductive counted : Type :=
  | CStr (s : string)
  | CDict (e : Element).

(** [generate_count(k, cases)] *)
Definition generate_count (k : string) (cases : list (gmap string value))
  : result (list counted) :=
  foldM (fun s c =>
           v <- getitem c k ;;
           if String.eqb k "conclusion" then
             match v with
             | VConclusion l => Ok (s ++ map (fun a => CStr (element a)) l)
             | VStr EmptyString => Ok s
             | VList [] => Ok s
             | _ => Raise TypeError
             end
           else
             match v with
             | VList l => if Nat.ltb 0 (length l) then Ok (s ++ map CStr l) else Ok s
             | VConclusion l => if Nat.ltb 0 (length l) then Ok (s ++ map CDict l) else Ok s
             | VStr x => if Py.nonempty (Py.strip x) then Ok (s ++ [CStr x]) else Ok s
             | VCountry _ _ => Ok s
             end)
        cases [].

(** The keys of [Counter(s)]: the distinct items of [s], which must be
    hashable. *)
Definition Counter (s : list counted) : result (list string) :=
  keys <- mapM_r (fun x => match x with
                           | CStr x => Ok x
                           | CDict _ => Raise TypeError
                           end) s ;;
  Ok (list_set keys).

(** [float(n)] for a length [n], which is below [2^63]. *)
Fixpoint int_of_nat (n : nat) : PrimInt63.int :=
  match n with
  | O => 0%uint63
  | S n' => PrimInt63.add 1%uint63 (int_of_nat n')
  end.

Definition float_of_nat (n : nat) : float := PrimFloat.of_uint63 (int_of_nat n).

(** An entry of [stats['attributes']]. *)
Record AttributeStats : Type := mkStats {
  cardinal : nat;
  density : float
}.

Section Statistics.

(** [d.keys()]: the keys of a case in the order in which they were inserted,
    which a [gmap] does not record. *)
Variable keys : gmap string value -> list string.

(** [generate_statistics]: [stats['attributes']], in the order of the keys of
    the first case. *)
Definition generate_statistics (cases : list (gmap string value))
  : result (list (string * AttributeStats)) :=
  c0 <- Py.item cases 0 ;;
  mapM_r (fun k =>
            s <- generate_count k cases ;;
            s <- Counter s ;;
            Ok (k, mkStats (length s)
                           (PrimFloat.div (float_of_nat (length s))
                                          (float_of_nat (length cases)))))
         (keys c0).

Section Pipeline.

Variable COUNTRIES : gmap string value.
Variable ORIGINATING_BODY : gmap string (gmap string value).

(** The part of [run] from the raw cases to the statistics. *)
Definition run_statistics (cases : list (gmap string value))
  : result (list (gmap string value) * list (string * AttributeStats)) :=
  cases <- filter_cases cases ;;
  cases <- format_cases COUNTRIES ORIGINATING_BODY cases ;;
  stats <- generate_statistics cases ;;
  Ok (cases, stats).

End Pipeline.

End Statistics.

(** ** Definitions used to state the properties *)

(** *** Strings *)

(** Whether the character [c] occurs in [s]. *)
Fixpoint has_char (c : ascii) (s : string) : bool :=
  match s with
  | EmptyString => false
  | String a s' => Ascii.eqb a c || has_char c s'
  end.

(** The part of [s] before the first [c]; all of [s] if there is none. *)
Fixpoint before_first (c : ascii) (s : string) : string :=
  match s with
  | EmptyString => EmptyString
  | String a s' => if Ascii.eqb a c then EmptyString else String a (before_first c s')
  end.

(** *** Article tokens and base articles *)

(** The earlier parts that the tokenizer keeps, as the specification words
    it: a part is kept when the part that follows does not start with it. *)
Fixpoint kept_parts (parts : list string) : list string :=
  match parts with
  | e :: (nxt :: _) as rest =>
      if Py.startswith nxt e then kept_parts rest else e :: kept_parts rest
  | _ => []
  end.

(** The tokenizer as the specification words it: the last part first, then
    the earlier parts that are kept, each without its leading non-word
    character. *)
Definition tokenize_spec (article : string) : list string :=
  let parts := Py.split "+" article in
  remove_incorrect_prefixes (List.last parts "")
  :: map remove_incorrect_prefixes (kept_parts parts).

(** The base article as the specification words it, for a token. *)
Definition resolve_spec (token : string) : string :=
  if has_char "p" token || has_char "P" token
  then Py.join "-" (take 2 (Py.split "-" token))
  else before_first "-" token.

(** *** Party names *)

(** The title once the fixed prefix is removed. *)
Definition title_body (title : string) : string :=
  if Py.startswith title "CASE OF "
  then Py.drop (String.length "CASE OF ") title else title.

(** The text that is split on [" v. "]: the body, cut at its first ['(']
    when it ends with [')']. *)
Definition parties_text (title : string) : string :=
  let body := title_body title in
  match Py.last_char body with
  | Ok ")"%char => before_first "(" body
  | _ => body
  end.

(** *** The conclusion parser *)

(** The type that the parser gives to an element text. *)
Definition clause_type (e : Element) : ElemType :=
  get_element_type (Py.strip (Py.lower (element e))).

(** The entry for the clause itself, which only a clause of type [other]
    gets. *)
Definition own_entry (i : nat) (t : ElemType) : list entry :=
  if decide (t = other) then [Alias i] else [].

(** The fresh items that a clause [cur] gets for the tokens [tokens]. *)
Definition items_of (cur : Element) (tokens : list string) : list entry :=
  map (fun art => Fresh (set_base_article (resolve_spec art) (set_article art cur)))
      tokens.

(** An entry refers to an object of a store of [n] objects. *)
Definition entry_ok (n : nat) (x : entry) : Prop :=
  match x with
  | Alias j => j < n
  | Fresh _ => True
  end.

(** A fresh entry has a type. *)
Definition entry_typed (x : entry) : Prop :=
  match x with
  | Alias _ => True
  | Fresh item => is_Some (type item)
  end.

(** The clause texts of a chunk: the non-blank pieces, between [';'], of the
    text before its first ['(']. *)
Definition chunk_texts (c : string) : list string :=
  filter (fun d => Py.nonempty d) (map Py.strip (Py.split ";" (before_first "(" c))).

(** Whether a chunk with a parenthesis and no clause text comes before any
    chunk with a clause text. *)
Fixpoint group_before_text (chunks : list string) : bool :=
  match chunks with
  | [] => false
  | c :: chunks' =>
      match chunk_texts c with
      | [] => has_char "(" c || group_before_text chunks'
      | _ :: _ => false
      end
  end.

(** Whether the classification of the element text of a clause returns. *)
Definition classifiable (text : string) : bool :=
  if Py.contains "protocol" (Py.lower text) then is_ok (protocol_article text)
  else
    match get_element_type (Py.strip (Py.lower text)) with
    | other => true
    | _ => is_ok (find_art (Py.words (apply_find_and_replace (Py.strip (Py.lower text)))))
    end.

(** Whether a lower-cased text that mentions a protocol has the words that
    its protocol article is made of: the text splits on ["protocol no."]
    into at least two pieces, with at least two words in the first piece
    and at least one word in the second. *)
Definition protocol_words (l : string) : bool :=
  match Py.split "protocol no." l with
  | p0 :: p1 :: _ =>
      Nat.leb 2 (length (Py.words p0)) && Nat.leb 1 (length (Py.words p1))
  | _ => false
  end.

(** Whether the first of the words [b] that starts with ["art"], if there is
    one, is not the last word, or starts with ["art."] and has more than
    four characters. *)
Definition article_word (b : list string) : bool :=
  match list_find (fun w => Py.startswith w "art" = true) b with
  | Some (j, a) =>
      Nat.ltb (S j) (length b)
      || (Py.startswith a "art." && Nat.ltb 4 (String.length a))
  | None => true
  end.

(** The element texts on which the classification of a clause returns, in
    terms of their words. *)
Definition classifiable_text (text : string) : bool :=
  let l := Py.lower text in
  if Py.contains "protocol" l then protocol_words l
  else
    match get_element_type (Py.strip l) with
    | other => true
    | _ => article_word (Py.words (apply_find_and_replace (Py.strip l)))
    end.

(** *** The filter pipeline *)

(** A raw case that has the four fields that the filters read. *)
Definition has_filter_fields (c : gmap string value) : Prop :=
  is_Some (c !! "languageisocode") /\ is_Some (c !! "doctype")
  /\ is_Some (c !! "conclusion") /\ is_Some (c !! "itemid").

(** A test [p] that returns [q x] whenever it returns. *)
Definition decides {A : Type} (p : A -> result bool) (q : A -> bool) : Prop :=
  forall x b, p x = Ok b -> b = q x.

(** The four conditions, as the specification words them. *)
Definition is_english (c : gmap string value) : bool :=
  bool_decide (c !! "languageisocode" = Some (VStr "ENG")).

Definition is_judgment (c : gmap string value) : bool :=
  bool_decide (c !! "doctype" = Some (VStr "HEJUD")).

Definition has_clear_conclusion (c : gmap string value) : bool :=
  match c !! "conclusion" with
  | Some v =>
      existsb (fun literal => value_contains literal v)
              ["No-violation"; "No violation"; "Violation"; "violation"]
  | None => false
  end.

Definition not_denied (c : gmap string value) : bool :=
  forallb (fun id => negb (bool_decide (c !! "itemid" = Some (VStr id))))
          ["001-154354"; "001-108395"; "001-79411"].

(** *** The case normaliser *)

(** The keys that [format_cases] assigns or deletes. *)
Definition normalised_keys : list string :=
  [ "parties"; "__conclusion"; "conclusion"; "__articles"; "article"; "paragraphs";
    "externalsources"; "documentcollectionid"; "issue"; "representedby";
    "extractedappno"; "country"; "originatingbody_type"; "originatingbody_name";
    "rank"; "Rank"; "isplaceholder"; "kpdate"; "kpdateAsText";
    "documentcollectionid2"; "kpthesaurus"; "scl"; "doctype"; "meetingnumber" ].

(** What the normaliser leaves of a case [c] in its result [c']. *)
Definition normalised_frame (c c' : gmap string value) : Prop :=
  (exists raw, c !! "conclusion" = Some (VStr raw)
               /\ c' !! "__conclusion" = Some (VStr raw))
  /\ (exists raw, c !! "article" = Some (VStr raw)
                  /\ c' !! "__articles" = Some (VStr raw))
  /\ c' !! "isplaceholder" = None /\ c' !! "documentcollectionid2" = None
  /\ c' !! "doctype" = None /\ c' !! "meetingnumber" = None
  /\ (is_Some (c !! "Rank") /\ c' !! "rank" = c !! "Rank" /\ c' !! "Rank" = None)
  /\ (is_Some (c !! "kpdateAsText") /\ c' !! "kpdate" = c !! "kpdateAsText"
      /\ c' !! "kpdateAsText" = None)
  /\ (forall k, k ∉ normalised_keys -> c' !! k = c !! k).

(** A raw case with the fields that the normaliser reads, and two small
    reference tables. *)
Definition sample_case : gmap string value :=
  list_to_map
    [ ("itemid", VStr "001-1"); ("docname", VStr "CASE OF A. v. B.");
      ("conclusion", VStr "Violation of Article 3;No violation of Article 13");
      ("article", VStr "3;13"); ("externalsources", VStr "");
      ("documentcollectionid", VStr "CASELAW;JUDGMENTS"); ("issue", VStr "");
      ("representedby", VStr "N/A"); ("extractedappno", VStr "1/01");
      ("respondent", VStr "FRA"); ("originatingbody", VStr "4");
      ("Rank", VStr "1.0"); ("isplaceholder", VStr "False");
      ("kpdateAsText", VStr "01/01/2001"); ("documentcollectionid2", VStr "X");
      ("kpthesaurus", VStr "1;2"); ("scl", VStr " "); ("doctype", VStr "HEJUD");
      ("meetingnumber", VStr ""); ("languageisocode", VStr "ENG") ].

Definition sample_countries : gmap string value :=
  {[ "FRA" := VCountry "fr" "France" ]}.

Definition sample_bodies : gmap string (gmap string value) :=
  {[ "4" := list_to_map [("type", VStr "Court"); ("name", VStr "First Section")] ]}.

(** *** The dataset partitioner *)

(** The outcome of an element as the specification sees it: its article with
    [true] for a violation and [false] for a no-violation. *)
Definition outcome_of (e : Element) : option (string * bool) :=
  match type e, article e with
  | Some violation, Some a => Some (a, true)
  | Some no_violation, Some a => Some (a, false)
  | _, _ => None
  end.

Definition outcome_labels (ccl : list Element) : list (string * bool) :=
  omap outcome_of ccl.

(** The condition of the specification: there is a label, and no article
    has both a violation and a no-violation label. *)
Definition consistent_spec (ccl : list Element) : Prop :=
  outcome_labels ccl <> []
  /\ forall a, ~ ((a, true) ∈ outcome_labels ccl /\ (a, false) ∈ outcome_labels ccl).

(** The string that the code builds for a label. *)
Definition label_string (x : string * bool) : string :=
  class_label (fst x) (if snd x then violation else no_violation).

(** The elements carry a type, and no article contains [':']. *)
Definition colon_free (ccl : list Element) : Prop :=
  Forall (fun e => is_Some (type e)
                   /\ forall a, article e = Some a -> has_char ":" a = false) ccl.

(** The dictionary after [if a not in d: d[a] = v] and [d[a] = f(d[a])]. *)
Definition dict_upsert {V : Type} (f : V -> V) (a : string) (v : V)
    (d : list (string * V)) : list (string * V) :=
  dict_alter f a (match dict_get a d with
                  | None => dict_set a v d
                  | Some _ => d
                  end).

(** Every reference filed under an article is a case of [filtered] that has
    an element with this article. *)
Definition refs_ok (filtered : list Case) (cpa : list (string * list nat)) : Prop :=
  forall k refs r,
    dict_get k cpa = Some refs -> r ∈ refs ->
    exists c e, filtered !! r = Some c /\ e ∈ conclusion c /\ article e = Some k.

(** What the specification asks of an assigned case. *)
Definition assigned (order : list string) (index : gmap string string) (c : Case)
  : Prop :=
  length (list_set (nb_datasets c)) = 1
  /\ exists k cc,
       index !! itemid c = Some k /\ k ∈ order
       /\ mc_conclusion c = Some (VConclusion [cc])
       /\ article cc = Some k /\ cc ∈ conclusion c.

(** The invariant of the multiclass loop: the objects of the store are the
    cases of [filtered], up to their ['mc_conclusion'], and every case
    referred to by [multiclass_cases] is assigned. *)
Definition mc_inv (order : list string) (filtered : list Case) (st : mc_state) : Prop :=
  length (store st) = length filtered
  /\ (forall r c, store st !! r = Some c ->
     exists c0, filtered !! r = Some c0
                /\ itemid c = itemid c0 /\ conclusion c = conclusion c0)
  /\ (forall r, r ∈ multiclass_cases st ->
        exists c, store st !! r = Some c /\ assigned order (multiclass_index st) c).

Definition by_total (x y : string * Tally) : Prop := total (snd x) <= total (snd y).

(** A case whose elements all have a type. *)
Definition typed_case (c : Case) : Prop :=
  Forall (fun e => is_Some (type e)) (conclusion c).

(** The two dictionaries of the tally have the same keys. *)
Definition same_keys (st : tally_state) : Prop :=
  forall k, is_Some (dict_get k st.1) <-> is_Some (dict_get k st.2).

(** Three normalised cases: two with one article, one with two. *)
Definition sample_cases : list Case :=
  let v3 := mkElement "Violation of Article 3" (Some violation) (Some "3") (Some "3") None None in
  let n13 := mkElement "No violation of Article 13" (Some no_violation) (Some "13")
               (Some "13") None None in
  [ mkCase "001-1" [v3] None; mkCase "001-2" [v3; n13] None; mkCase "001-3" [n13] None ].

(** *** Characters, articles and paragraphs *)

(** Whether every character of [s] passes the test [P]. *)
Fixpoint all_chars (P : ascii -> bool) (s : string) : bool :=
  match s with
  | EmptyString => true
  | String a s' => P a && all_chars P s'
  end.

(** The articles of a case as a composition of the tokenizer and the
    resolver, without the exceptions of the code. *)
Definition article_bases (article : string) : list string :=
  map resolve_spec (concat (map tokenize_spec (Py.split ";" (Py.lower article)))).

(** *** Merging conclusion elements *)

(** The elements that [merge_conclusion_elements] files under the key [k],
    in order. *)
Definition key_group (k : string) (elements : list Element) : list Element :=
  filter (fun e => merge_key e = k) elements.

(** The element that a group of elements is merged into: the first one,
    updated with each of the others in turn. *)
Definition merged (group : list Element) : option Element :=
  match group with
  | [] => None
  | e :: rest => Some (fold_left update rest e)
  end.

(** The distinct keys of the elements, in order of first occurrence. *)
Definition first_keys (elements : list Element) : list string :=
  reverse (remove_dups (reverse (map merge_key elements))).

(** *** The domain of the filter pipeline *)

(** Every case that reaches a filter has the field that the filter reads. *)
Definition staged_fields (cases : list (gmap string value)) : Prop :=
  let s1 := List.filter is_english cases in
  let s2 := List.filter is_judgment s1 in
  let s3 := List.filter has_clear_conclusion s2 in
  Forall (fun c => is_Some (c !! "languageisocode")) cases
  /\ Forall (fun c => is_Some (c !! "doctype")) s1
  /\ Forall (fun c => is_Some (c !! "conclusion")) s2
  /\ Forall (fun c => is_Some (c !! "itemid")) s3.

(** *** The clauses of a narrative *)

(** The element texts of the clauses that the segmentation finds in a list
    of chunks: the last clause text of each chunk, then the other clause
    texts of the last chunk. *)
Definition segment_texts (chunks : list string) : list string :=
  omap (fun c => last (chunk_texts c)) chunks
  ++ match last chunks with
     | Some c => Py.but_last (chunk_texts c)
     | None => []
     end.

(** The elements that the parser returns for one clause [e] of the
    segmentation, before they are merged. *)
Definition clause_elements (e : Element) : result (list Element) :=
  let t := clause_type e in
  let item cur art := set_base_article (resolve_spec art) (set_article art cur) in
  if Py.contains "protocol" (Py.lower (element e)) then
    tok <- protocol_article (element e) ;;
    let cur := set_article tok (set_type t e) in
    Ok ((if decide (t = other) then [cur] else []) ++ map (item cur) (tokenize_spec tok))
  else if decide (t = other) then Ok [set_type other e]
  else
    art <- find_art (Py.words (apply_find_and_replace (Py.strip (Py.lower (element e))))) ;;
    Ok (match art with
        | Some art => map (item (set_type t e)) (tokenize_spec art)
        | None => []
        end).

(** A clause text: not empty, trimmed, and without [';'] or parenthesis. *)
Definition clause_text (x : string) : Prop :=
  x <> "" /\ Py.strip x = x /\ has_char ";" x = false
  /\ has_char "(" x = false /\ has_char ")" x = false.

(** What holds of every element that the parser returns. *)
Definition parsed_element (e : Element) : Prop :=
  clause_text (element e)
  /\ exists t, type e = Some t
               /\ (t <> other -> is_Some (article e) /\ is_Some (base_article e)).

(** *** The tally *)

(** The elements of the cases, each with the index of its case, counted
    from [n]. *)
Fixpoint events_from (n : nat) (cases : list Case) : list (nat * Element) :=
  match cases with
  | [] => []
  | c :: cases' => map (pair n) (conclusion c) ++ events_from (S n) cases'
  end.

(** The number of elements of the cases that have the article [a] and the
    outcome [b] ([true] for a violation). *)
Definition outcome_count (a : string) (b : bool) (cases : list Case) : nat :=
  length (filter (fun e => outcome_of e = Some (a, b)) (concat (map conclusion cases))).

(** The same number among elements listed with the index of their case, and
    the indices of those that have the article [a]. *)
Definition event_count (a : string) (b : bool) (evs : list (nat * Element)) : nat :=
  length (filter (fun re => outcome_of re.2 = Some (a, b)) evs).

Definition event_refs (a : string) (evs : list (nat * Element)) : list nat :=
  map fst (filter (fun re => fst <$> outcome_of re.2 = Some a) evs).

(** The entry of [outcomes] for the counts [v] and [n]. *)
Definition tally_entry (v n : nat) : option Tally :=
  if Nat.eqb (v + n) 0 then None else Some (mkTally v n (v + n)).

(** *** The identifiers of the multiclass listing *)

(** The identifiers of the cases that [multiclass_cases] refers to are
    distinct, and each of them is a key of [multiclass_index]. *)
Definition mc_distinct (st : mc_state) : Prop :=
  let ids := map itemid (store st) in
  NoDup (omap (fun r => ids !! r) (multiclass_cases st))
  /\ forall r id, r ∈ multiclass_cases st -> ids !! r = Some id ->
                  is_Some (multiclass_index st !! id).

(** *** The attributes of the statistics *)

(** The values of the attribute [k] are strings in every case. *)
Definition string_attribute (k : string) (cases : list (gmap string value)) : Prop :=
  Forall (fun c => exists s, c !! k = Some (VStr s)) cases.

(** The values of the attribute [k] are country records in every case. *)
Definition country_attribute (k : string) (cases : list (gmap string value)) : Prop :=
  Forall (fun c => exists a n, c !! k = Some (VCountry a n)) cases.

(** *** The fields of a normalised case *)

(** The fields that the normaliser computes from the title, the conclusion,
    the articles, the respondent and the originating body of a raw case [c],
    in its result [c']. *)
Definition normalised_parsed (COUNTRIES : gmap string value)
    (ORIGINATING_BODY : gmap string (gmap string value))
    (c c' : gmap string value) : Prop :=
  (exists docname names,
      c !! "docname" = Some (VStr docname) /\ format_parties docname = Ok names
      /\ c' !! "parties" = Some (VList names))
  /\ (exists raw ccl,
         c !! "conclusion" = Some (VStr raw) /\ format_conclusion raw = Ok ccl
         /\ c' !! "conclusion" = Some (VConclusion ccl))
  /\ (exists raw articles,
         c !! "article" = Some (VStr raw) /\ format_article raw = Ok articles
         /\ c' !! "article" = Some (VList articles)
         /\ c' !! "paragraphs" = Some (VList (format_subarticle raw)))
  /\ (exists respondent country,
         c !! "respondent" = Some (VStr respondent)
         /\ COUNTRIES !! before_first ";" respondent = Some country
         /\ c' !! "country" = Some country)
  /\ (exists body entry type name,
         c !! "originatingbody" = Some (VStr body)
         /\ ORIGINATING_BODY !! body = Some entry
         /\ entry !! "type" = Some type /\ entry !! "name" = Some name
         /\ c' !! "originatingbody_type" = Some type
         /\ c' !! "originatingbody_name" = Some name).

(** The fields that the normaliser cuts at [';']. *)
Definition normalised_lists (c c' : gmap string value) : Prop :=
  Forall (fun k =>
            exists v l,
              c !! k = Some v /\ explode v = Ok l
              /\ c' !! k = Some (VList (map Py.strip l)))
         ["externalsources"; "documentcollectionid"; "issue"; "representedby"]
  /\ (exists s, c !! "extractedappno" = Some (VStr s)
                /\ c' !! "extractedappno" = Some (VList (map Py.strip (Py.split ";" s))))
  /\ (exists s, c !! "kpthesaurus" = Some (VStr s)
                /\ c' !! "kpthesaurus" = Some (VList (Py.split ";" s)))
  /\ (exists s, c !! "scl" = Some (VStr s)
                /\ c' !! "scl" = Some (VList (if Py.nonempty (Py.strip s)
                                              then Py.split ";" s else []))).

(** A raw case that the normaliser accepts. *)
Definition normalisable (COUNTRIES : gmap string value)
    (ORIGINATING_BODY : gmap string (gmap string value))
    (c : gmap string value) : Prop :=
  (exists docname, c !! "docname" = Some (VStr docname)
                   /\ is_ok (format_parties docname) = true)
  /\ (exists raw, c !! "conclusion" = Some (VStr raw)
                  /\ is_ok (format_conclusion raw) = true)
  /\ Forall (fun k => exists v, c !! k = Some v /\ is_ok (explode v) = true)
            ["externalsources"; "documentcollectionid"; "issue"; "representedby"]
  /\ Forall (fun k => exists s, c !! k = Some (VStr s))
            ["article"; "extractedappno"; "kpthesaurus"; "scl"]
  /\ (exists respondent,
         c !! "respondent" = Some (VStr respondent)
         /\ is_Some (COUNTRIES !! before_first ";" respondent))
  /\ (exists body entry,
         c !! "originatingbody" = Some (VStr body)
         /\ ORIGINATING_BODY !! body = Some entry
         /\ is_Some (entry !! "type") /\ is_Some (entry !! "name"))
  /\ Forall (fun k => is_Some (c !! k))
            ["Rank"; "isplaceholder"; "kpdateAsText"; "documentcollectionid2";
             "doctype"; "meetingnumber"].

(** * Properties *)

(** ** The model on the examples of the documentation *)

Example split_ex1 : Py.split ";" "a;b;;c;" = ["a"; "b"; ""; "c"; ""].
Proof. reflexivity. Qed.

Example split_ex2 : Py.split " v. " "A v. B v. C" = ["A"; "B"; "C"].
Proof. reflexivity. Qed.

Example split_ex3 : Py.split "aa" "aaa" = [""; "a"].
Proof. reflexivity. Qed.

Example words_ex : Py.words "  violation of  article 3 " = ["violation"; "of"; "article"; "3"].
Proof. reflexivity. Qed.

Example strip_ex : Py.strip "  a b  " = "a b".
Proof. reflexivity. Qed.

Example replace_ex : Py.replace " and " "+" "3 and 13 and 5" = "3+13+5".
Proof. reflexivity. Qed.

Example lower_ex : Py.lower "Protocol No. 1" = "protocol no. 1".
Proof. reflexivity. Qed.

Example tok_ex1 : split_and_format_article "3+3-1" = Ok ["3-1"].
Proof. reflexivity. Qed.

Example tok_ex2 : split_and_format_article "p1-1+3" = Ok ["3"; "p1-1"].
Proof. reflexivity. Qed.

Example base_ex1 : find_base_articles ["3-1"; "p1-1-2"; "10"] = Ok ["3"; "p1-1"; "10"].
Proof. reflexivity. Qed.

Example parties_ex1 :
  format_parties "CASE OF A v. B (No. 2)" = Ok ["A"; "B"].
Proof. reflexivity. Qed.

(** The example of the docstring of [format_conclusion]. *)
Example format_conclusion_doc :
  format_conclusion
    "Violation of Article 3 - Prohibition of torture (Article 3 - Degrading treatment;Inhuman treatment) (Substantive aspect);Violation of Article 13 - Right to an effective remedy (Article 13 - Effective remedy)"
  = Ok [ mkElement "Violation of Article 3 - Prohibition of torture" (Some violation)
           (Some "3") (Some "3")
           (Some ["Article 3 - Degrading treatment"; "Inhuman treatment"])
           (Some ["Substantive aspect"]);
         mkElement "Violation of Article 13 - Right to an effective remedy" (Some violation)
           (Some "13") (Some "13")
           (Some ["Article 13 - Effective remedy"]) None ].
Proof. vm_compute. reflexivity. Qed.

(** ** Lemmas on the string primitives *)

Lemma prefix_empty (s : string) : String.prefix "" s = true.
Proof. by destruct s. Qed.

Lemma startswith_char (c a : ascii) (s : string) :
  Py.startswith (String a s) (String c "") = Ascii.eqb a c.
Proof.
  unfold Py.startswith. simpl. destruct (ascii_dec c a) as [->|Hne].
  - by rewrite prefix_empty, Ascii.eqb_refl.
  - symmetry. apply Ascii.eqb_neq. congruence.
Qed.

Lemma contains_char (c : ascii) (s : string) :
  Py.contains (String c "") s = has_char c s.
Proof.
  induction s as [|a s IH]; [done|].
  cbn [Py.contains has_char]. by rewrite startswith_char, IH.
Qed.

Lemma split_char_cons (c a : ascii) (s : string) :
  Py.split (String c "") (String a s)
  = if Ascii.eqb a c then "" :: Py.split (String c "") s
    else Py.cons_head a (Py.split (String c "") s).
Proof.
  unfold Py.split. cbn [Py.split_go]. rewrite startswith_char.
  by destruct (Ascii.eqb a c).
Qed.

Lemma split_go_nonempty (sep : string) (k : nat) (s : string) :
  Py.split_go sep k s <> [].
Proof.
  revert k. induction s as [|a s IH]; intros k; [done|].
  cbn [Py.split_go]. destruct k as [|k]; [|apply IH].
  destruct (Py.startswith _ _); [done|].
  specialize (IH 0). by destruct (Py.split_go sep 0 s).
Qed.

Lemma split_nonempty (sep s : string) : Py.split sep s <> [].
Proof. apply split_go_nonempty. Qed.

(** A string without the separator character is a single piece. *)
Lemma split_char_none (c : ascii) (s : string) :
  has_char c s = false -> Py.split (String c "") s = [s].
Proof.
  induction s as [|a s IH]; [done|].
  cbn [has_char]. intros [Ha Hs]%orb_false_elim.
  rewrite split_char_cons, Ha, IH by done. done.
Qed.

(** No piece of a split on a character contains that character. *)
Lemma split_char_pieces (c : ascii) (s p : string) :
  p ∈ Py.split (String c "") s -> has_char c p = false.
Proof.
  revert p. induction s as [|a s IH]; intros p.
  - intros ->%list_elem_of_singleton. done.
  - rewrite split_char_cons. destruct (Ascii.eqb a c) eqn:Ha.
    + intros [->|Hp]%elem_of_cons; [done|]. by apply IH.
    + pose proof (split_nonempty (String c "") s) as Hne.
      destruct (Py.split (String c "") s) as [|h t]; [done|].
      cbn [Py.cons_head]. intros [->|Hp]%elem_of_cons.
      * cbn [has_char]. rewrite Ha. apply IH. by left.
      * apply IH. by right.
Qed.

Lemma split1_head (c : ascii) (s : string) :
  Py.item (Py.split1 c s) 0 = Ok (before_first c s).
Proof.
  induction s as [|a s IH]; [done|].
  cbn [Py.split1 before_first]. destruct (Ascii.eqb a c); [done|].
  unfold Py.item in *. destruct (Py.split1 c s) as [|h t]; [done|].
  cbn in IH |- *. by inversion IH.
Qed.

Lemma last_item_last {A : Type} (l : list A) (d : A) :
  l <> [] -> Py.last_item l = Ok (List.last l d).
Proof.
  intros Hne. unfold Py.last_item.
  induction l as [|x l IH]; [done|].
  destruct l as [|y l]; [done|].
  change (last (x :: y :: l)) with (last (y :: l)).
  change (List.last (x :: y :: l) d) with (List.last (y :: l) d).
  by apply IH.
Qed.

Lemma lower_char_p (c : ascii) :
  Ascii.eqb (Py.lower_char c) "p" = Ascii.eqb c "p" || Ascii.eqb c "P".
Proof. destruct c as [[] [] [] [] [] [] [] []]; reflexivity. Qed.

Lemma lower_has_p (s : string) :
  has_char "p" (Py.lower s) = has_char "p" s || has_char "P" s.
Proof.
  induction s as [|a s IH]; [done|].
  cbn [Py.lower has_char]. rewrite lower_char_p, IH.
  destruct (Ascii.eqb a "p"), (Ascii.eqb a "P"), (has_char "p" s); done.
Qed.

(** ** The article tokenizer *)

Lemma item_app_middle {A : Type} (pre : list A) (x y : A) (l : list A) :
  Py.item (pre ++ x :: y :: l) (length pre + 1) = Ok y.
Proof.
  unfold Py.item. rewrite lookup_app_r by lia.
  by replace (length pre + 1 - length pre) with 1 by lia.
Qed.

Lemma tokenizer_loop (pre l : list string) (acc : list string) :
  foldM (fun articles '(k, e) =>
           nxt <- Py.item (pre ++ l) (k + 1) ;;
           if negb (Py.startswith nxt e)
           then Ok (articles ++ [remove_incorrect_prefixes e])
           else Ok articles)
        (zip (seq (length pre) (length (Py.but_last l))) (Py.but_last l)) acc
  = Ok (acc ++ map remove_incorrect_prefixes (kept_parts l)).
Proof.
  revert pre acc. induction l as [|e l IH]; intros pre acc.
  - cbn. by rewrite app_nil_r.
  - destruct l as [|nxt l].
    + cbn. by rewrite app_nil_r.
    + change (Py.but_last (e :: nxt :: l)) with (e :: Py.but_last (nxt :: l)).
      cbn [length seq zip zip_with foldM].
      rewrite item_app_middle. cbn [rbind kept_parts].
      specialize (IH (pre ++ [e])).
      rewrite <- app_assoc, length_app in IH. cbn [length app] in IH.
      replace (length pre + 1) with (S (length pre)) in IH by lia.
      destruct (Py.startswith nxt e); cbn [negb rbind].
      * apply IH.
      * rewrite IH. cbn [map]. by rewrite <- app_assoc.
Qed.

(** The code computes what the specification describes, on every string. *)
Lemma split_and_format_article_spec (article : string) :
  split_and_format_article article = Ok (tokenize_spec article).
Proof.
  unfold split_and_format_article, tokenize_spec.
  rewrite (last_item_last _ "") by apply split_nonempty.
  cbn [rbind]. unfold enumerate.
  apply (tokenizer_loop [] (Py.split "+" article)).
Qed.

Lemma kept_parts_subset (parts : list string) (p : string) :
  p ∈ kept_parts parts -> p ∈ parts.
Proof.
  induction parts as [|e l IH]; [by intros ?%elem_of_nil|].
  destruct l as [|nxt l]; [by intros ?%elem_of_nil|].
  cbn [kept_parts]. destruct (Py.startswith nxt e).
  - intros H. right. by apply IH.
  - intros [->|H]%elem_of_cons; [by left|]. right. by apply IH.
Qed.

Lemma last_elem_of {A : Type} (l : list A) (d : A) : l <> [] -> List.last l d ∈ l.
Proof.
  induction l as [|x l IH]; [done|]. intros _.
  destruct l as [|y l]; [by left|].
  right. apply IH. done.
Qed.

Lemma remove_incorrect_prefixes_has_char (c : ascii) (s : string) :
  has_char c s = false -> has_char c (remove_incorrect_prefixes s) = false.
Proof.
  destruct s as [|a s]; [done|]. cbn [remove_incorrect_prefixes].
  destruct (negb (Py.isword a)); [|done].
  cbn [has_char]. by intros [_ H]%orb_false_elim.
Qed.

(** An article token never contains ['+']. *)
Lemma token_no_plus (article : string) (toks : list string) (tok : string) :
  split_and_format_article article = Ok toks -> tok ∈ toks -> has_char "+" tok = false.
Proof.
  rewrite split_and_format_article_spec. intros [= <-]. unfold tokenize_spec.
  intros [->|Hin]%elem_of_cons.
  - apply remove_incorrect_prefixes_has_char, (split_char_pieces _ article).
    apply last_elem_of, split_nonempty.
  - apply list_elem_of_fmap in Hin as (p & -> & Hp).
    apply remove_incorrect_prefixes_has_char, (split_char_pieces _ article).
    by apply kept_parts_subset.
Qed.

(** C4: on every string the tokenizer splits on ['+'], puts the last part
    first (without one leading non-word character), and keeps each earlier
    part, in order, exactly when the next part does not start with it; so
    ["3+3-1"] loses its bare ["3"], ["3+13"] and ["p1-1+3"] give two tokens,
    a string without ['+'] gives one token and the empty string gives the
    empty token alone. *)
Theorem C4_article_tokenizer :
  (forall article, split_and_format_article article = Ok (tokenize_spec article))
  /\ (forall article, exists first rest,
        tokenize_spec article = first :: rest
        /\ first = remove_incorrect_prefixes (List.last (Py.split "+" article) ""))
  /\ split_and_format_article "3+3-1" = Ok ["3-1"]
  /\ split_and_format_article "3+13" = Ok ["13"; "3"]
  /\ split_and_format_article "p1-1+3" = Ok ["3"; "p1-1"]
  /\ (forall article, Py.contains "+" article = false ->
        split_and_format_article article = Ok [remove_incorrect_prefixes article])
  /\ split_and_format_article "" = Ok [""].
Proof.
  split; [apply split_and_format_article_spec|].
  split; [intros article; eexists _, _; split; reflexivity|].
  do 3 (split; [reflexivity|]).
  split; [|reflexivity].
  intros article Hno. rewrite contains_char in Hno.
  rewrite split_and_format_article_spec. unfold tokenize_spec.
  by rewrite split_char_none.
Qed.

(** A compound string without ['+'] gives a single token. *)
Lemma C4_article_tokenizer_witness :
  Py.contains "+" "-6" = false /\ split_and_format_article "-6" = Ok ["6"].
Proof.
  split; [reflexivity|].
  exact (proj1 (proj2 (proj2 (proj2 (proj2 (proj2 C4_article_tokenizer))))) "-6" eq_refl).
Defined.

(** ** The base-article resolver *)

(** On a string without ['+'] the resolver is [resolve_spec]. *)
Lemma find_base_article_no_plus (a : string) :
  has_char "+" a = false -> find_base_article a = Ok (resolve_spec a).
Proof.
  intros Hno. unfold find_base_article, resolve_spec.
  rewrite split_char_none by done. cbn [Py.item lookup list_lookup rbind].
  rewrite contains_char, lower_has_p.
  destruct (has_char "p" a || has_char "P" a); cbn [negb]; [done|].
  apply split1_head.
Qed.

(** C5: on every article token (every string the tokenizer produces) the
    resolver returns what precedes the first ['-'] when the token has no
    letter p, in either case, and the first two pieces between hyphens,
    joined by ['-'], when it has one; ["3-1"] gives ["3"], ["p1-1"] gives
    ["p1-1"] and ["10"] gives ["10"]. *)
Theorem C5_base_article_resolver :
  (forall article tokens token,
      split_and_format_article article = Ok tokens -> token ∈ tokens ->
      find_base_article token = Ok (resolve_spec token)
      /\ (has_char "p" token || has_char "P" token = false ->
          resolve_spec token = before_first "-" token)
      /\ (has_char "p" token || has_char "P" token = true ->
          resolve_spec token = Py.join "-" (take 2 (Py.split "-" token))))
  /\ find_base_article "3-1" = Ok "3"
  /\ find_base_article "p1-1" = Ok "p1-1"
  /\ find_base_article "10" = Ok "10".
Proof.
  split; [|by repeat split].
  intros article tokens token Htok Hin. split; [|split].
  - apply find_base_article_no_plus. eapply token_no_plus; eauto.
  - unfold resolve_spec. by intros ->.
  - unfold resolve_spec. by intros ->.
Qed.

(** The resolver first cuts its argument at a ['+']; a token has none. *)
Example find_base_article_plus : find_base_article "3+4-1" = Ok "3".
Proof. reflexivity. Qed.

Lemma C5_base_article_resolver_witness :
  find_base_article "p1-1-2" = Ok "p1-1".
Proof.
  refine (eq_trans (proj1 (proj1 C5_base_article_resolver "3+p1-1-2" ["p1-1-2"; "3"]
                             "p1-1-2" eq_refl _)) eq_refl).
  by left.
Defined.

(** ** Party names *)

Lemma split_char_head (c : ascii) (s : string) :
  Py.item (Py.split (String c "") s) 0 = Ok (before_first c s).
Proof.
  induction s as [|a s IH]; [done|].
  rewrite split_char_cons. cbn [before_first].
  destruct (Ascii.eqb a c); [done|].
  unfold Py.item in *. destruct (Py.split (String c "") s) as [|h t]; [done|].
  cbn in IH |- *. by inversion IH.
Qed.

Lemma last_char_empty (s : string) : Py.last_char s = Raise IndexError <-> s = "".
Proof.
  split; [|by intros ->].
  induction s as [|a s IH]; [done|].
  cbn [Py.last_char]. destruct s as [|b s]; [done|].
  intros H. by specialize (IH H).
Qed.

Lemma last_char_ok (s : string) : s <> "" -> exists c, Py.last_char s = Ok c.
Proof.
  induction s as [|a s IH]; [done|]. intros _.
  destruct s as [|b s]; [by exists a|].
  cbn [Py.last_char]. by apply IH.
Qed.

Lemma cons_head_length (c : ascii) (l : list string) :
  l <> [] -> length (Py.cons_head c l) = length l.
Proof. by destruct l. Qed.

(** Without an occurrence of the separator there is one piece. *)
Lemma split_none (sep s : string) :
  Py.contains sep s = false -> Py.split sep s = [s].
Proof.
  unfold Py.split. induction s as [|a s IH]; [done|].
  cbn [Py.contains Py.split_go]. intros [Hp Hs]%orb_false_elim.
  by rewrite Hp, IH.
Qed.

(** With an occurrence of the separator there are at least two pieces. *)
Lemma split_some (sep s : string) :
  sep <> "" -> Py.contains sep s = true -> 2 <= length (Py.split sep s).
Proof.
  intros Hsep. unfold Py.split. induction s as [|a s IH].
  - cbn. unfold Py.startswith. by destruct sep.
  - cbn [Py.contains Py.split_go]. destruct (Py.startswith (String a s) sep) eqn:Hp.
    + intros _. pose proof (split_go_nonempty sep (String.length sep - 1) s) as Hne.
      cbn [length]. destruct (Py.split_go sep (String.length sep - 1) s); [done|cbn; lia].
    + cbn [orb]. intros H. rewrite cons_head_length by apply split_go_nonempty.
      by apply IH.
Qed.

Lemma lstrip_head (s : string) :
  match Py.lstrip s with
  | EmptyString => True
  | String c _ => Py.isspace c = false
  end.
Proof.
  induction s as [|a s IH]; [done|].
  cbn [Py.lstrip]. destruct (Py.isspace a) eqn:Ha; [done|]. by rewrite Ha.
Qed.

Lemma rstrip_cons (a b : ascii) (s r : string) :
  Py.rstrip s = String b r -> Py.rstrip (String a s) = String a (String b r).
Proof. intros H. cbn [Py.rstrip]. by rewrite H. Qed.

Lemma rstrip_idem (s : string) : Py.rstrip (Py.rstrip s) = Py.rstrip s.
Proof.
  induction s as [|a s IH]; [done|].
  destruct (Py.rstrip s) as [|b r] eqn:Hr.
  - cbn [Py.rstrip]. rewrite Hr.
    destruct (Py.isspace a) eqn:Ha; [done|]. cbn. by rewrite Ha.
  - rewrite (rstrip_cons a b s r Hr). by apply rstrip_cons.
Qed.

Lemma rstrip_head (a : ascii) (s : string) :
  Py.isspace a = false -> exists r, Py.rstrip (String a s) = String a r.
Proof.
  intros Ha. cbn [Py.rstrip]. destruct (Py.rstrip s).
  - rewrite Ha. by eexists.
  - by eexists.
Qed.

(** A trimmed string is left as it is by [strip]. *)
Lemma strip_idem (s : string) : Py.strip (Py.strip s) = Py.strip s.
Proof.
  unfold Py.strip. pose proof (lstrip_head s) as Hh.
  destruct (Py.lstrip s) as [|a t] eqn:Hl; [done|].
  destruct (rstrip_head a t Hh) as [r Hr]. rewrite Hr.
  cbn [Py.lstrip]. rewrite Hh, <- Hr. apply rstrip_idem.
Qed.

(** C9, as amended: for every title that is not empty once the prefix
    ["CASE OF "] is removed, the extraction returns the pieces between the
    separators [" v. "], each trimmed, of the title without its prefix and,
    when it ends with [')'], cut at its first ['(']; there is at least one
    name, exactly one when the text has no separator and two or more when
    it has one. *)
Theorem C9_format_parties (title : string) :
  title_body title <> "" ->
  exists names,
    format_parties title = Ok names
    /\ names = map Py.strip (Py.split " v. " (parties_text title))
    /\ Forall (fun name => Py.strip name = name) names
    /\ 1 <= length names
    /\ (Py.contains " v. " (parties_text title) = false -> length names = 1)
    /\ (Py.contains " v. " (parties_text title) = true -> 2 <= length names).
Proof.
  intros Hbody. eexists. split; [|split; [reflexivity|]].
  - unfold format_parties, parties_text. fold (title_body title).
    destruct (last_char_ok _ Hbody) as [c Hc]. rewrite Hc. cbn [rbind].
    destruct (Ascii.eqb_spec c ")") as [->|Hne].
    + by rewrite split_char_head.
    + cbn [rbind]. do 2 f_equal.
      destruct c as [[] [] [] [] [] [] [] []]; done.
  - split; [|split; [|split]].
    + apply Forall_fmap, Forall_forall. intros x _. apply strip_idem.
    + rewrite length_fmap. pose proof (split_nonempty " v. " (parties_text title)).
      destruct (Py.split _ _); [congruence|cbn; lia].
    + intros H. by rewrite length_fmap, split_none.
    + intros H. rewrite length_fmap. by apply split_some.
Qed.

Lemma C9_format_parties_witness :
  exists names, format_parties "CASE OF A. v. B. (No. 2)" = Ok names
                /\ names = ["A."; "B."].
Proof.
  destruct (C9_format_parties "CASE OF A. v. B. (No. 2)") as (names & H1 & H2 & _).
  - discriminate.
  - exists names. split; [exact H1|]. rewrite H2. reflexivity.
Defined.

(** C9 as stated fails: a title with two separators gives three names, and
    an empty title raises. *)
Lemma C9_counterexample :
  format_parties "A v. B v. C" = Ok ["A"; "B"; "C"]
  /\ ~ (forall title, exists names,
          format_parties title = Ok names /\ (length names = 1 \/ length names = 2)).
Proof.
  split; [reflexivity|].
  intros H. destruct (H "A v. B v. C") as (names & Hn & Hl).
  vm_compute in Hn. injection Hn as <-. cbn in Hl. lia.
Qed.

Example format_parties_empty :
  format_parties "" = Raise IndexError /\ format_parties "CASE OF " = Raise IndexError.
Proof. split; reflexivity. Qed.

(** ** Classification of a clause *)

Lemma find_base_articles_tokens (tokens : list string) :
  Forall (fun t => has_char "+" t = false) tokens ->
  find_base_articles tokens = Ok (map resolve_spec tokens).
Proof.
  unfold find_base_articles. induction 1 as [|t l Ht _ IH]; [done|].
  cbn [mapM_r]. rewrite find_base_article_no_plus by done.
  cbn [rbind]. by rewrite IH.
Qed.

Lemma items_loop (cur : Element) (pre : list string) (l : list string) :
  mapM_r (fun '(k, art) =>
            base <- Py.item (pre ++ map resolve_spec l) k ;;
            Ok (Fresh (set_base_article base (set_article art cur))))
         (zip (seq (length pre) (length l)) l)
  = Ok (items_of cur l).
Proof.
  revert pre. induction l as [|a l IH]; intros pre; [done|].
  cbn [length seq zip zip_with mapM_r map].
  unfold Py.item at 1. rewrite lookup_app_r, Nat.sub_diag by lia.
  cbn [lookup list_lookup rbind].
  specialize (IH (pre ++ [resolve_spec a])).
  rewrite <- app_assoc, length_app in IH. cbn [length app] in IH.
  replace (length pre + 1) with (S (length pre)) in IH by lia.
  by rewrite IH.
Qed.

Lemma tokens_no_plus (article : string) :
  Forall (fun t => has_char "+" t = false) (tokenize_spec article).
Proof.
  apply Forall_forall. intros t Ht.
  eapply token_no_plus; [apply split_and_format_article_spec|done].
Qed.

(** The tail of [format_conclusion_elements] for the tokens of an article
    string. *)
Lemma emit_tokens (final_ccl : list Element) (own : list entry) (cur : Element)
    (article : string) :
  (base_articles <- find_base_articles (tokenize_spec article) ;;
   items <- mapM_r (fun '(k, art) =>
                      base <- Py.item base_articles k ;;
                      Ok (Fresh (set_base_article base (set_article art cur))))
                   (enumerate (tokenize_spec article)) ;;
   Ok (final_ccl, own ++ items))
  = Ok (final_ccl, own ++ items_of cur (tokenize_spec article)).
Proof.
  rewrite find_base_articles_tokens by apply tokens_no_plus.
  cbn [rbind]. unfold enumerate.
  pose proof (items_loop cur [] (tokenize_spec article)) as H.
  cbn [app length] in H. by rewrite H.
Qed.

Lemma item_alter {A : Type} (f : A -> A) (i : nat) (l : list A) (x : A) :
  l !! i = Some x -> Py.item (alter f i l) i = Ok (f x).
Proof. intros H. unfold Py.item. by rewrite list_lookup_alter_eq, H. Qed.

(** [format_conclusion_elements] on a clause that mentions a protocol. *)
Lemma format_conclusion_elements_protocol (i : nat) (e : Element)
    (final_ccl : list Element) (tok : string) :
  final_ccl !! i = Some e ->
  Py.contains "protocol" (Py.lower (element e)) = true ->
  protocol_article (element e) = Ok tok ->
  let cur := set_article tok (set_type (clause_type e) e) in
  format_conclusion_elements i e final_ccl
  = Ok (alter (set_article tok) i (alter (set_type (clause_type e)) i final_ccl),
        own_entry i (clause_type e) ++ items_of cur (tokenize_spec tok)).
Proof.
  intros Hi Hp Htok cur. unfold format_conclusion_elements.
  fold (clause_type e). rewrite Hp, Htok. cbn [rbind].
  rewrite split_and_format_article_spec. cbn [rbind].
  rewrite (item_alter _ _ _ (set_type (clause_type e) e))
    by (by rewrite list_lookup_alter_eq, Hi).
  cbn [rbind set_article article]. fold cur.
  apply emit_tokens.
Qed.

(** [format_conclusion_elements] on a clause of type [other] that does not
    mention a protocol. *)
Lemma format_conclusion_elements_other (i : nat) (e : Element)
    (final_ccl : list Element) :
  final_ccl !! i = Some e ->
  clause_type e = other ->
  Py.contains "protocol" (Py.lower (element e)) = false ->
  format_conclusion_elements i e final_ccl
  = Ok (alter (set_type other) i final_ccl, [Alias i]).
Proof.
  intros Hi Ht Hp. unfold format_conclusion_elements.
  fold (clause_type e). rewrite Hp, Ht. cbn [rbind].
  rewrite (item_alter _ _ _ e) by done. cbn [rbind].
  destruct (decide (other = other)); [|done].
  by destruct (article (set_type other e)).
Qed.

(** C2, where the code departs from it: the clause ["Not necessary to
    examine Article 1 of Protocol No. 1"] is of type [other], and the
    parser returns it with the article ["p1-1"], followed by a copy with
    that article and its base article. So it is with every clause of type
    [other] that mentions a protocol: the clause is the first entry, but it
    carries the protocol article, and one entry for each token of that
    article follows. A clause of type [other] that does not mention a
    protocol is the only entry, with its type set and nothing else
    changed. *)
Theorem C2_other_clause_failing :
  let text := "Not necessary to examine Article 1 of Protocol No. 1" in
  clause_type (new_element text) = other
  /\ format_conclusion text
     = Ok [ mkElement text (Some other) (Some "p1-1") None None None;
            mkElement text (Some other) (Some "p1-1") (Some "p1-1") None None ]
  /\ (forall i e final_ccl tok,
        final_ccl !! i = Some e ->
        clause_type e = other ->
        Py.contains "protocol" (Py.lower (element e)) = true ->
        protocol_article (element e) = Ok tok ->
        let cur := set_article tok (set_type other e) in
        format_conclusion_elements i e final_ccl
        = Ok (alter (set_article tok) i (alter (set_type other) i final_ccl),
              Alias i :: items_of cur (tokenize_spec tok))
        /\ resolve (alter (set_article tok) i (alter (set_type other) i final_ccl))
                   (Alias i) = Ok cur)
  /\ (forall i e final_ccl,
        final_ccl !! i = Some e ->
        clause_type e = other ->
        Py.contains "protocol" (Py.lower (element e)) = false ->
        format_conclusion_elements i e final_ccl
        = Ok (alter (set_type other) i final_ccl, [Alias i])
        /\ resolve (alter (set_type other) i final_ccl) (Alias i)
           = Ok (set_type other e)).
Proof.
  intros text. split; [vm_compute; reflexivity|].
  split; [vm_compute; reflexivity|]. split.
  - intros i e final_ccl tok Hi Ht Hp Htok cur.
    rewrite (format_conclusion_elements_protocol i e final_ccl tok) by done.
    rewrite Ht. split; [done|].
    cbn [resolve]. apply item_alter. by rewrite list_lookup_alter_eq, Hi.
  - intros i e final_ccl Hi Ht Hp.
    split; [by apply format_conclusion_elements_other|]. by apply item_alter.
Qed.

Lemma C2_other_clause_failing_witness :
  let text := "Not necessary to examine Article 1 of Protocol No. 1" in
  format_conclusion_elements 0 (new_element text) [new_element text]
  = Ok ([mkElement text (Some other) (Some "p1-1") None None None],
        [Alias 0;
         Fresh (mkElement text (Some other) (Some "p1-1") (Some "p1-1") None None)])
  /\ format_conclusion_elements 0 (new_element "Remainder inadmissible")
       [new_element "Remainder inadmissible"]
     = Ok ([set_type other (new_element "Remainder inadmissible")], [Alias 0]).
Proof.
  intros text. split.
  - exact (proj1 (proj1 (proj2 (proj2 C2_other_clause_failing))
                    0 (new_element text) [new_element text] "p1-1"
                    eq_refl eq_refl eq_refl eq_refl)).
  - exact (proj1 (proj2 (proj2 (proj2 C2_other_clause_failing))
                    0 (new_element "Remainder inadmissible")
                    [new_element "Remainder inadmissible"]
                    eq_refl eq_refl eq_refl)).
Defined.

Lemma item_m2_app {A : Type} (ws : list A) (f1 x : A) :
  Py.item_m2 (ws ++ [f1; x]) = Ok f1.
Proof. unfold Py.item_m2. by rewrite rev_app_distr. Qed.

(** C3, as amended: when the lower-cased element text of a clause contains
    ["protocol"] and splits on ["protocol no."] into a piece [p0], a piece
    [p1] and possibly more, with [f1] the last word but one of [p0] and [f2]
    the first word of [p1], the clause gets the article [p{f2}-{f1}] and the
    entries of the clause are those of the tokens of that article. *)
Theorem C3_protocol_article (i : nat) (e : Element) (final_ccl : list Element)
    (p0 p1 : string) (rest : list string) (ws : list string) (f1 x f2 : string)
    (ws2 : list string) :
  final_ccl !! i = Some e ->
  Py.contains "protocol" (Py.lower (element e)) = true ->
  Py.split "protocol no." (Py.lower (element e)) = p0 :: p1 :: rest ->
  Py.words p0 = ws ++ [f1; x] ->
  Py.words p1 = f2 :: ws2 ->
  let tok := "p" +:+ f2 +:+ "-" +:+ f1 in
  let cur := set_article tok (set_type (clause_type e) e) in
  protocol_article (element e) = Ok tok
  /\ split_and_format_article tok = Ok (tokenize_spec tok)
  /\ format_conclusion_elements i e final_ccl
     = Ok (alter (set_article tok) i (alter (set_type (clause_type e)) i final_ccl),
           own_entry i (clause_type e) ++ items_of cur (tokenize_spec tok))
  /\ resolve (alter (set_article tok) i (alter (set_type (clause_type e)) i final_ccl))
             (Alias i) = Ok cur.
Proof.
  intros Hi Hp Hsplit Hw0 Hw1 tok cur.
  assert (protocol_article (element e) = Ok tok) as Htok.
  { unfold protocol_article. rewrite Hsplit. cbn [Py.item lookup list_lookup rbind].
    rewrite Hw0, item_m2_app. cbn [rbind]. by rewrite Hw1. }
  split; [done|]. split; [apply split_and_format_article_spec|]. split.
  - by apply format_conclusion_elements_protocol.
  - cbn [resolve]. apply item_alter. by rewrite list_lookup_alter_eq, Hi.
Qed.

(** The protocol article of ["Violation of Article 2 of Protocol No. 1"] is
    ["p1-2"]. *)
Lemma C3_protocol_article_witness :
  let e := new_element "Violation of Article 2 of Protocol No. 1" in
  format_conclusion_elements 0 e [e]
  = Ok ([set_article "p1-2" (set_type violation e)],
        [Fresh (mkElement "Violation of Article 2 of Protocol No. 1" (Some violation)
                  (Some "p1-2") (Some "p1-2") None None)]).
Proof.
  intros e.
  exact (proj1 (proj2 (proj2
           (C3_protocol_article 0 e [e] "violation of article 2 of " " 1" []
              ["violation"; "of"; "article"] "2" "of" "1" []
              eq_refl eq_refl eq_refl eq_refl eq_refl)))).
Defined.

(** C3 as stated fails on the example of the specification: in ["Protocol
    No. 1 Article 2"] the word taken for the article is the last word but
    one before the phrase, not the number that follows ["Article"]. *)
Lemma C3_counterexample :
  format_conclusion "Violation of Protocol No. 1 Article 2"
  = Ok [ mkElement "Violation of Protocol No. 1 Article 2" (Some violation)
           (Some "p1-violation") (Some "p1-violation") None None ]
  /\ format_conclusion "Protocol No. 1 Article 2" = Raise IndexError.
Proof. split; vm_compute; reflexivity. Qed.

Example protocol_example :
  format_conclusion "Violation of Article 2 of Protocol No. 1"
  = Ok [ mkElement "Violation of Article 2 of Protocol No. 1" (Some violation)
           (Some "p1-2") (Some "p1-2") None None ].
Proof. vm_compute. reflexivity. Qed.

(** ** Segmentation of a narrative *)

Lemma has_char_app (c : ascii) (x y : string) :
  has_char c (x +:+ y) = has_char c x || has_char c y.
Proof.
  induction x as [|a x IH]; [done|].
  simpl. rewrite IH. by destruct (Ascii.eqb a c).
Qed.

Lemma has_char_lstrip (c : ascii) (s : string) :
  has_char c s = false -> has_char c (Py.lstrip s) = false.
Proof.
  induction s as [|a s IH]; [done|].
  cbn [Py.lstrip]. destruct (Py.isspace a); [|done].
  cbn [has_char]. intros [_ H]%orb_false_elim. by apply IH.
Qed.

Lemma has_char_rstrip (c : ascii) (s : string) :
  has_char c s = false -> has_char c (Py.rstrip s) = false.
Proof.
  induction s as [|a s IH]; [done|].
  cbn [has_char]. intros [Ha Hs]%orb_false_elim. specialize (IH Hs).
  cbn [Py.rstrip]. destruct (Py.rstrip s) as [|b r].
  - destruct (Py.isspace a); [done|]. cbn [has_char]. by rewrite Ha.
  - cbn [has_char] in IH |- *. by rewrite Ha.
Qed.

Lemma has_char_strip (c : ascii) (s : string) :
  has_char c s = false -> has_char c (Py.strip s) = false.
Proof. intros H. by apply has_char_rstrip, has_char_lstrip. Qed.

(** The first piece of a split ends at the first separator. *)
Lemma split_char_app (c : ascii) (x y : string) :
  has_char c x = false ->
  Py.split (String c "") (x +:+ String c y) = x :: Py.split (String c "") y.
Proof.
  induction x as [|a x IH].
  - intros _. change ("" +:+ String c y) with (String c y).
    by rewrite split_char_cons, Ascii.eqb_refl.
  - intros H. cbn [has_char] in H. apply orb_false_elim in H as [Ha Hx].
    change (String a x +:+ String c y) with (String a (x +:+ String c y)).
    by rewrite split_char_cons, Ha, IH.
Qed.

Lemma startswith_has_char (c : ascii) (s : string) :
  has_char c s = false -> Py.startswith s (String c "") = false.
Proof.
  destruct s as [|a s]; [done|]. rewrite startswith_char.
  cbn [has_char]. by intros [? _]%orb_false_elim.
Qed.

Lemma nonempty_true (s : string) : s <> "" -> Py.nonempty s = true.
Proof. by destruct s. Qed.

Lemma length_nonempty (s : string) : s <> "" -> Nat.eqb (String.length s) 0 = false.
Proof. by destruct s. Qed.

Lemma filter_nonempty_singleton (s : string) :
  s <> "" -> filter (fun a => Py.nonempty a) [s] = [s].
Proof. by destruct s. Qed.

(** A narrative without [')'] whose only ['('] is unmatched is one chunk. *)
Lemma clause_chunks_unmatched (x d : string) :
  has_char ")" x = false -> has_char ")" d = false ->
  clause_chunks (x +:+ "(" +:+ d) = [x +:+ "(" +:+ d].
Proof.
  intros Hx Hd. unfold clause_chunks.
  assert (x +:+ "(" +:+ d <> "") as Hne by (by destruct x).
  rewrite split_char_none by (by rewrite !has_char_app, Hx, Hd).
  rewrite filter_nonempty_singleton by done.
  cbn [fold_left]. rewrite contains_char, !has_char_app.
  replace (has_char "(" "(") with true by done.
  rewrite orb_true_r. cbn [negb app orb].
  by rewrite filter_nonempty_singleton.
Qed.

(** An unmatched ['('] opens a detail group: in a narrative [x(d] without any
    other parenthesis, where [x] has no [';'] and is not blank, the text
    after the ['('] is split on [';'] into the details of the clause [x]. *)
Lemma conclusion_clauses_unmatched (x d : string) :
  has_char "(" x = false -> has_char ")" x = false -> has_char ";" x = false ->
  has_char "(" d = false -> has_char ")" d = false ->
  Py.strip x <> "" ->
  conclusion_clauses (x +:+ "(" +:+ d)
  = Ok [set_details (Py.split ";" d) (new_element (Py.strip x))].
Proof.
  intros Hx1 Hx2 Hx3 Hd1 Hd2 Hs. unfold conclusion_clauses.
  rewrite clause_chunks_unmatched by done.
  cbn [foldM]. unfold clause_step at 1. cbn [fst].
  change (x +:+ "(" +:+ d) with (x +:+ String "(" d).
  rewrite split_char_app, (split_char_none "(" d) by done.
  cbn [length Nat.ltb Nat.leb Py.item lookup list_lookup rbind].
  rewrite (split_char_none ";" x) by done.
  cbn [map]. rewrite filter_nonempty_singleton by done.
  cbn [length Nat.eqb Py.last_item last rbind].
  rewrite (startswith_has_char ";") by (by apply has_char_strip).
  cbn [negb]. rewrite strip_idem, length_nonempty by done.
  pose proof (split_nonempty ";" d) as Hb.
  destruct (Py.split ";" d) as [|y b]; [done|].
  cbn [rbind app length Nat.ltb Nat.leb]. done.
Qed.

(** ** The domain of the parser *)

Lemma before_first_none (c : ascii) (s : string) :
  has_char c s = false -> before_first c s = s.
Proof.
  induction s as [|a s IH]; [done|].
  cbn [has_char before_first]. intros [-> Hs]%orb_false_elim. by rewrite IH.
Qed.

Lemma split_char_some (c : ascii) (s : string) :
  has_char c s = true ->
  exists a1 tl, Py.split (String c "") s = before_first c s :: a1 :: tl.
Proof.
  induction s as [|a s IH]; [done|].
  rewrite split_char_cons. cbn [has_char before_first].
  destruct (Ascii.eqb a c); cbn [orb].
  - intros _. pose proof (split_nonempty (String c "") s).
    destruct (Py.split (String c "") s) as [|h t]; [done|]. by exists h, t.
  - intros (a1 & tl & ->)%IH. by exists a1, tl.
Qed.

Lemma chunk_texts_elem (c x : string) :
  x ∈ chunk_texts c -> x <> "" /\ Py.strip x = x /\ has_char ";" x = false.
Proof.
  unfold chunk_texts. intros [Hne Hx]%list_elem_of_filter.
  apply list_elem_of_fmap in Hx as (p & -> & Hp). split; [by destruct (Py.strip p)|].
  split; [apply strip_idem|]. by apply has_char_strip, (split_char_pieces _ _ _ Hp).
Qed.

Lemma last_item_elem {A : Type} (l : list A) :
  l <> [] -> exists x, Py.last_item l = Ok x /\ x ∈ l.
Proof.
  intros Hne. destruct l as [|y l]; [done|]. exists (List.last (y :: l) y).
  split; [by apply last_item_last|by apply last_elem_of].
Qed.

(** The first two statements of the loop body: [a] and [b]. *)
Lemma clause_step_head (st : list Element * option (list string)) (c : string) :
  exists b : option (list string),
    (has_char "(" c = false -> b = None)
    /\ (has_char "(" c = true -> exists x b', b = Some (x :: b'))
    /\ clause_step st c
       = (let final_ccl := st.1 in
          let articles := chunk_texts c in
          if Nat.eqb (length articles) 0 then
            match b with
            | Some (x :: b') =>
                final_ccl <-
                  update_last (fun d => match mentions d with
                                        | Some m => set_mentions (m ++ x :: b') d
                                        | None => set_mentions (x :: b') d
                                        end) final_ccl ;;
                Ok (final_ccl, Some articles)
            | _ => Ok (final_ccl, Some articles)
            end
          else
            lst <- Py.last_item articles ;;
            let article := if negb (Py.startswith lst ";") then lst else Py.drop 1 lst in
            let conclusion := new_element article in
            let conclusion :=
              match b with
              | Some (x :: b') => set_details (x :: b') conclusion
              | _ => conclusion
              end in
            if Nat.eqb (String.length (Py.strip article)) 0 then
              match b with
              | Some b =>
                  final_ccl <- update_last (set_mentions b) final_ccl ;;
                  Ok (final_ccl, Some articles)
              | None => Ok (final_ccl, Some articles)
              end
            else Ok (final_ccl ++ [conclusion], Some articles)).
Proof.
  unfold clause_step, chunk_texts. destruct (has_char "(" c) eqn:Hc.
  - destruct (split_char_some _ _ Hc) as (a1 & tl & ->).
    pose proof (split_nonempty ";" a1) as Hb.
    destruct (Py.split ";" a1) as [|x b'] eqn:Hs; [done|].
    exists (Some (x :: b')). split; [done|]. split; [by eexists _, _|].
    cbn [length Nat.ltb Nat.leb Py.item lookup list_lookup rbind]. by rewrite Hs.
  - rewrite split_char_none, before_first_none by done.
    exists None. split; [done|]. split; [done|]. done.
Qed.

(** A chunk with a clause text adds a clause. *)
Lemma clause_step_text (st : list Element * option (list string)) (c : string) :
  chunk_texts c <> [] ->
  exists cl, clause_step st c = Ok (st.1 ++ [cl], Some (chunk_texts c))
             /\ article cl = None.
Proof.
  intros Hne. destruct (clause_step_head st c) as (b & _ & _ & ->). cbn zeta.
  destruct (chunk_texts c) as [|t ts] eqn:Ht; [done|]. cbn [length Nat.eqb].
  destruct (last_item_elem (t :: ts)) as (lst & -> & Hin); [done|].
  rewrite <- Ht in Hin. apply chunk_texts_elem in Hin as (Hl & Hstrip & Hsemi).
  cbn [rbind]. rewrite (startswith_has_char ";") by done. cbn [negb].
  rewrite Hstrip, length_nonempty by done.
  eexists. split; [reflexivity|]. by destruct b as [[|]|].
Qed.

(** A chunk without clause text and without parenthesis changes nothing. *)
Lemma clause_step_blank (st : list Element * option (list string)) (c : string) :
  chunk_texts c = [] -> has_char "(" c = false ->
  clause_step st c = Ok (st.1, Some []).
Proof.
  intros Ht Hc. destruct (clause_step_head st c) as (b & Hb & _ & ->). cbn zeta.
  by rewrite Ht, (Hb Hc).
Qed.

(** A chunk without clause text and with a parenthesis needs a clause
    before it. *)
Lemma clause_step_group (st : list Element * option (list string)) (c : string) :
  chunk_texts c = [] -> has_char "(" c = true ->
  match st.1 with
  | [] => clause_step st c = Raise IndexError
  | _ :: _ =>
      exists f, clause_step st c = Ok (alter f (length st.1 - 1) st.1, Some [])
                /\ forall d, article (f d) = article d
  end.
Proof.
  intros Ht Hc. destruct (clause_step_head st c) as (b & _ & Hb & ->). cbn zeta.
  destruct (Hb Hc) as (x & b' & ->). rewrite Ht. cbn [length Nat.eqb].
  destruct st.1 as [|e fc]; [done|]. cbn [update_last rbind].
  eexists. split; [reflexivity|]. intros d. cbn beta. by destruct (mentions d).
Qed.

Lemma Forall_alter_article (f : Element -> Element) (i : nat) (l : list Element) :
  (forall d, article (f d) = article d) ->
  Forall (fun e => article e = None) l ->
  Forall (fun e => article e = None) (alter f i l).
Proof.
  intros Hf Hl. apply Forall_alter; [done|]. intros e _ He. by rewrite Hf.
Qed.

(** The loop over the chunks, once there is a clause. *)
Lemma clause_loop_nonempty (chunks : list string)
    (st : list Element * option (list string)) :
  st.1 <> [] -> Forall (fun e => article e = None) st.1 ->
  exists st', foldM clause_step chunks st = Ok st'
              /\ st'.1 <> [] /\ Forall (fun e => article e = None) st'.1
              /\ (chunks <> [] \/ is_Some st.2 -> is_Some st'.2).
Proof.
  revert st. induction chunks as [|c chunks IH]; intros st Hne Hart.
  - exists st. split; [done|]. split; [done|]. split; [done|]. by intros [?|?].
  - cbn [foldM].
    assert (exists st1, clause_step st c = Ok st1 /\ st1.1 <> []
                        /\ Forall (fun e => article e = None) st1.1
                        /\ is_Some st1.2) as (st1 & -> & Hne1 & Hart1 & Hs1).
    { destruct (chunk_texts c) as [|t ts] eqn:Ht.
      - destruct (has_char "(" c) eqn:Hc.
        + pose proof (clause_step_group st c Ht Hc) as H.
          destruct st.1 as [|e fc] eqn:Hfc; [done|].
          destruct H as (f & -> & Hf). eexists. split; [reflexivity|]. cbn [fst snd].
          split; [|split; [by apply Forall_alter_article|by eexists]].
          intros Heq. apply (f_equal length) in Heq. by rewrite length_alter in Heq.
        + rewrite clause_step_blank by done. eexists. split; [reflexivity|].
          cbn [fst snd]. split; [done|]. split; [done|]. by eexists.
      - destruct (clause_step_text st c) as (cl & -> & Hcl); [by rewrite Ht|].
        eexists. split; [reflexivity|]. cbn [fst snd].
        split; [by destruct st.1|]. split; [|by eexists].
        apply Forall_app. split; [done|]. by constructor. }
    cbn [rbind]. destruct (IH st1 Hne1 Hart1) as (st' & -> & Hne' & Hart' & Hs').
    exists st'. split; [done|]. split; [done|]. split; [done|]. intros _. apply Hs'. by right.
Qed.

(** The loop over the chunks, before there is a clause. *)
Lemma clause_loop_empty (chunks : list string) (a : option (list string)) :
  if group_before_text chunks
  then foldM clause_step chunks ([], a) = Raise IndexError
  else exists st', foldM clause_step chunks ([], a) = Ok st'
                   /\ Forall (fun e => article e = None) st'.1
                   /\ (chunks <> [] \/ is_Some a -> is_Some st'.2).
Proof.
  revert a. induction chunks as [|c chunks IH]; intros a.
  - cbn. exists ([], a). split; [done|]. split; [constructor|]. by intros [?|?].
  - cbn [group_before_text foldM]. destruct (chunk_texts c) as [|t ts] eqn:Ht.
    + destruct (has_char "(" c) eqn:Hc; cbn [orb].
      * pose proof (clause_step_group ([], a) c Ht Hc) as H. cbn [fst] in H.
        by rewrite H.
      * rewrite clause_step_blank by done. cbn [rbind fst].
        specialize (IH (Some [])). destruct (group_before_text chunks); [done|].
        destruct IH as (st' & -> & Hart & Hs). exists st'. split; [done|].
        split; [done|]. intros _. apply Hs. right. by eexists.
    + destruct (clause_step_text ([], a) c) as (cl & -> & Hcl); [by rewrite Ht|].
      cbn [rbind fst app].
      destruct (clause_loop_nonempty chunks ([cl], Some (chunk_texts c)))
        as (st' & -> & _ & Hart & Hs); [done|by repeat constructor|].
      exists st'. split; [done|]. split; [done|]. intros _. apply Hs. right. by eexists.
Qed.

(** The segmentation raises on a narrative without chunk and on one where a
    parenthesis comes before any clause text, and on no other. *)
Lemma conclusion_clauses_domain (ccl : string) :
  match conclusion_clauses ccl with
  | Ok clauses =>
      clause_chunks ccl <> [] /\ group_before_text (clause_chunks ccl) = false
      /\ Forall (fun e => article e = None) clauses
  | Raise e =>
      (clause_chunks ccl = [] /\ e = UnboundLocalError)
      \/ (group_before_text (clause_chunks ccl) = true /\ e = IndexError)
  end.
Proof.
  unfold conclusion_clauses.
  pose proof (clause_loop_empty (clause_chunks ccl) None) as H.
  destruct (clause_chunks ccl) as [|c chunks] eqn:Hch.
  - cbn. by left.
  - rewrite <- Hch in *. destruct (group_before_text (clause_chunks ccl)).
    + rewrite H. cbn [rbind]. by right.
    + destruct H as ([fc arts] & -> & Hart & Hs). cbn [rbind fst snd] in *.
      destruct Hs as [articles ->]; [left; by rewrite Hch|].
      destruct (Nat.ltb 1 (length articles)).
      * split; [by rewrite Hch|]. split; [done|]. apply Forall_app. split; [done|].
        apply Forall_fmap, Forall_forall. by intros x _.
      * split; [by rewrite Hch|]. done.
Qed.

Lemma protocol_article_raise (text : string) (e : exn) :
  protocol_article text = Raise e -> e = IndexError.
Proof.
  unfold protocol_article, Py.item, Py.item_m2.
  repeat (match goal with
          | |- context [match ?x with _ => _ end] => destruct x
          end; cbn [rbind]; try congruence).
Qed.

Lemma find_art_raise (b : list string) (e : exn) :
  find_art b = Raise e -> e = IndexError.
Proof.
  induction b as [|a rest IH]; [done|]. cbn [find_art].
  destruct (Py.startswith a "art"); [|done].
  destruct (_ && _); [done|]. destruct rest; congruence.
Qed.

(** [format_conclusion_elements] on a clause of type violation or
    no-violation that does not mention a protocol. *)
Lemma format_conclusion_elements_search (i : nat) (e : Element)
    (final_ccl : list Element) :
  final_ccl !! i = Some e ->
  clause_type e <> other ->
  Py.contains "protocol" (Py.lower (element e)) = false ->
  article e = None ->
  format_conclusion_elements i e final_ccl
  = (art <- find_art (Py.words (apply_find_and_replace
                                  (Py.strip (Py.lower (element e))))) ;;
     Ok (alter (set_type (clause_type e)) i final_ccl,
         match art with
         | Some art => items_of (set_type (clause_type e) e) (tokenize_spec art)
         | None => []
         end)).
Proof.
  intros Hi Ht Hp Ha. unfold format_conclusion_elements.
  fold (clause_type e). rewrite Hp. cbn [rbind].
  rewrite (item_alter _ _ _ e) by done. cbn [rbind set_type article]. rewrite Ha.
  destruct (decide (clause_type e = other)) as [|_]; [done|].
  destruct (find_art _) as [[art|]|err]; cbn [rbind]; [| |done].
  - rewrite split_and_format_article_spec. cbn [rbind].
    apply (emit_tokens _ [] (set_type (clause_type e) e) art).
  - done.
Qed.

Lemma items_of_entry_ok (n : nat) (cur : Element) (tokens : list string) :
  Forall (entry_ok n) (items_of cur tokens).
Proof. unfold items_of. apply Forall_fmap, Forall_forall. by intros. Qed.

Lemma own_entry_ok (n i : nat) (t : ElemType) :
  i < n -> Forall (entry_ok n) (own_entry i t).
Proof. intros Hi. unfold own_entry. destruct (decide _); by repeat constructor. Qed.

Lemma items_of_typed (cur : Element) (tokens : list string) :
  is_Some (type cur) -> Forall entry_typed (items_of cur tokens).
Proof. intros Hc. unfold items_of. apply Forall_fmap, Forall_forall. by intros. Qed.

Lemma own_entry_typed (i : nat) (t : ElemType) : Forall entry_typed (own_entry i t).
Proof. unfold own_entry. destruct (decide _); by repeat constructor. Qed.

(** When [format_conclusion_elements] returns on a clause without article,
    and what it then leaves. *)
Lemma format_conclusion_elements_domain (i : nat) (e : Element)
    (final_ccl : list Element) :
  final_ccl !! i = Some e -> article e = None ->
  match format_conclusion_elements i e final_ccl with
  | Ok (final_ccl', more) =>
      classifiable (element e) = true
      /\ length final_ccl' = length final_ccl
      /\ (forall j, j <> i -> final_ccl' !! j = final_ccl !! j)
      /\ Forall (entry_ok (length final_ccl)) more
      /\ (exists d, final_ccl' !! i = Some d /\ is_Some (type d))
      /\ Forall entry_typed more
  | Raise err => classifiable (element e) = false /\ err = IndexError
  end.
Proof.
  intros Hi Ha. pose proof (lookup_lt_Some _ _ _ Hi) as Hlt.
  unfold classifiable. fold (clause_type e).
  destruct (Py.contains "protocol" (Py.lower (element e))) eqn:Hp.
  - destruct (protocol_article (element e)) as [tok|err] eqn:Htok.
    + rewrite (format_conclusion_elements_protocol i e final_ccl tok) by done.
      split; [done|]. split; [by rewrite !length_alter|].
      split; [intros j Hj; by rewrite !list_lookup_alter_ne|].
      split; [apply Forall_app; split;
              [by apply own_entry_ok|apply items_of_entry_ok]|].
      split.
      * rewrite !list_lookup_alter_eq, Hi. by eexists.
      * apply Forall_app. split; [apply own_entry_typed|by apply items_of_typed].
    + unfold format_conclusion_elements. rewrite Hp, Htok. cbn [rbind].
      split; [done|]. by eapply protocol_article_raise.
  - destruct (decide (clause_type e = other)) as [Ht|Ht].
    + rewrite format_conclusion_elements_other, Ht by done.
      split; [done|]. split; [by rewrite length_alter|].
      split; [intros j Hj; by rewrite list_lookup_alter_ne|].
      split; [by repeat constructor|]. split; [|by repeat constructor].
      rewrite list_lookup_alter_eq, Hi. by eexists.
    + rewrite format_conclusion_elements_search by done.
      destruct (find_art _) as [art|err] eqn:Hart; cbn [rbind].
      * split; [by destruct (clause_type e)|]. split; [by rewrite length_alter|].
        split; [intros j Hj; by rewrite list_lookup_alter_ne|].
        split; [destruct art; [apply items_of_entry_ok|constructor]|].
        split; [rewrite list_lookup_alter_eq, Hi; by eexists|].
        destruct art; [by apply items_of_typed|constructor].
      * split; [by destruct (clause_type e)|]. by eapply find_art_raise.
Qed.

(** The loop that classifies the clauses from the [i]-th on. *)
Lemma classify_loop (k i : nat) (final_ccl : list Element) (to_append : list entry) :
  i + k = length final_ccl ->
  (forall j e, i <= j -> final_ccl !! j = Some e -> article e = None) ->
  (forall j e, j < i -> final_ccl !! j = Some e -> is_Some (type e)) ->
  Forall (entry_ok (length final_ccl)) to_append ->
  Forall entry_typed to_append ->
  match foldM (fun '(final_ccl, to_append) i =>
                 e <- Py.item final_ccl i ;;
                 r <- format_conclusion_elements i e final_ccl ;;
                 Ok (fst r, to_append ++ snd r))
              (seq i k) (final_ccl, to_append) with
  | Ok (final_ccl', to_append') =>
      length final_ccl' = length final_ccl
      /\ Forall (entry_ok (length final_ccl)) to_append'
      /\ forallb (fun e => classifiable (element e)) (drop i final_ccl) = true
      /\ Forall (fun e => is_Some (type e)) final_ccl'
      /\ Forall entry_typed to_append'
  | Raise err =>
      forallb (fun e => classifiable (element e)) (drop i final_ccl) = false
      /\ err = IndexError
  end.
Proof.
  revert i final_ccl to_append.
  induction k as [|k IH]; intros i final_ccl to_append Hlen Hart Htyp Hacc Hacct.
  - cbn [seq foldM]. split; [done|]. split; [done|].
    split; [by rewrite drop_ge by lia|]. split; [|done].
    apply Forall_lookup. intros j e He. eapply Htyp; [|done].
    apply lookup_lt_Some in He. lia.
  - cbn [seq foldM].
    destruct (lookup_lt_is_Some_2 final_ccl i) as [e He]; [lia|].
    unfold Py.item at 1. rewrite He. cbn [rbind].
    rewrite (drop_S _ _ _ He). cbn [forallb].
    pose proof (format_conclusion_elements_domain i e final_ccl He
                  (Hart i e (Nat.le_refl _) He)) as Hd.
    destruct (format_conclusion_elements i e final_ccl) as [[fc more]|err];
      cbn [rbind fst snd].
    + destruct Hd as (Hc & Hl & Hsame & Hmore & (d & Hd & Hdt) & Hmoret).
      rewrite Hc. cbn [andb].
      assert (drop (S i) fc = drop (S i) final_ccl) as Hdrop.
      { apply list_eq. intros n. rewrite !lookup_drop. apply Hsame. lia. }
      specialize (IH (S i) fc (to_append ++ more)).
      rewrite Hl, Hdrop in IH.
      apply IH; [lia| | |by apply Forall_app|by apply Forall_app].
      * intros j e' Hj He'. rewrite Hsame in He' by lia. eapply Hart; [|done]. lia.
      * intros j e' Hj He'. destruct (decide (j = i)) as [->|Hne]; [congruence|].
        rewrite Hsame in He' by done. eapply Htyp; [|done]. lia.
    + destruct Hd as [-> ->]. done.
Qed.

Lemma resolve_all (final_ccl : list Element) (to_append : list entry) :
  Forall (entry_ok (length final_ccl)) to_append ->
  exists l, mapM_r (resolve final_ccl) to_append = Ok l.
Proof.
  induction 1 as [|x l Hx _ [l' IH]]; [by eexists|].
  cbn [mapM_r]. rewrite IH.
  destruct x as [j|item]; cbn [resolve entry_ok rbind] in *.
  - unfold Py.item. destruct (lookup_lt_is_Some_2 final_ccl j Hx) as [e ->].
    by eexists.
  - by eexists.
Qed.

(** On the clauses of the segmentation, [format_conclusion] returns exactly
    when every element text can be classified. *)
Lemma format_conclusion_classifies (ccl : string) (clauses : list Element) :
  conclusion_clauses ccl = Ok clauses ->
  match format_conclusion ccl with
  | Ok _ => forallb (fun e => classifiable (element e)) clauses = true
  | Raise err =>
      forallb (fun e => classifiable (element e)) clauses = false /\ err = IndexError
  end.
Proof.
  intros Hcl. pose proof (conclusion_clauses_domain ccl) as Hd.
  rewrite Hcl in Hd. destruct Hd as (_ & _ & Hart).
  unfold format_conclusion. rewrite Hcl. cbn [rbind]. unfold classify_clauses.
  pose proof (classify_loop (length clauses) 0 clauses [] eq_refl) as Hloop.
  cbn [drop] in Hloop.
  destruct (foldM _ _ _) as [[fc to_append]|err]; cbn [rbind].
  - destruct Hloop as (Hlen & Hentries & Hok & _); [|lia|constructor|constructor|].
    { intros j e _ He. rewrite Forall_forall in Hart. apply Hart.
      by eapply list_elem_of_lookup_2. }
    rewrite <- Hlen in Hentries.
    destruct (resolve_all fc to_append Hentries) as [l ->]. done.
  - apply Hloop; [|lia|constructor|constructor].
    intros j e _ He. rewrite Forall_forall in Hart. apply Hart.
    by eapply list_elem_of_lookup_2.
Qed.

Lemma resolve_typed (final_ccl : list Element) (to_append : list entry)
    (l : list Element) :
  Forall (fun e => is_Some (type e)) final_ccl -> Forall entry_typed to_append ->
  mapM_r (resolve final_ccl) to_append = Ok l ->
  Forall (fun e => is_Some (type e)) l.
Proof.
  intros Hs Ht. revert l. induction Ht as [|x xs Hx _ IH]; intros l.
  - intros [= <-]. constructor.
  - cbn [mapM_r]. destruct (resolve final_ccl x) as [e|] eqn:He; [cbn [rbind]|done].
    destruct (mapM_r (resolve final_ccl) xs) as [es|]; [cbn [rbind]|done].
    intros [= <-]. constructor; [|by apply IH].
    destruct x as [j|item]; cbn [resolve entry_typed] in *.
    + unfold Py.item in He. destruct (final_ccl !! j) as [d|] eqn:Hj; [|done].
      injection He as <-. rewrite Forall_lookup in Hs. by eapply Hs.
    + by injection He as <-.
Qed.

Lemma merge_step_typed (final_elements : list (string * Element)) (e : Element) :
  Forall (fun kv => is_Some (type kv.2)) final_elements -> is_Some (type e) ->
  Forall (fun kv => is_Some (type kv.2)) (merge_step final_elements e).
Proof.
  intros Hd He. unfold merge_step.
  assert (forall d' : list (string * Element),
            Forall (fun kv => is_Some (type kv.2)) d' ->
            Forall (fun kv => is_Some (type kv.2))
                   (dict_alter (fun d => update d e) (merge_key e) d')) as Halter.
  { induction 1 as [|[k v] d' Hv Hd' IH]; [constructor|].
    cbn [dict_alter]. destruct (String.eqb k (merge_key e)).
    - constructor; [|done]. cbn [snd update type]. destruct He as [t ->]. by eexists.
    - by constructor. }
  apply Halter. destruct (dict_get (merge_key e) final_elements) eqn:Hg; [done|].
  unfold dict_set. rewrite Hg. apply Forall_app. split; [done|]. by repeat constructor.
Qed.

(** Every element that [format_conclusion] returns has a type. *)
Lemma format_conclusion_typed (ccl : string) (l : list Element) :
  format_conclusion ccl = Ok l -> Forall (fun e => is_Some (type e)) l.
Proof.
  unfold format_conclusion. pose proof (conclusion_clauses_domain ccl) as Hd.
  destruct (conclusion_clauses ccl) as [clauses|]; [cbn [rbind]|done].
  destruct Hd as (_ & _ & Hart). unfold classify_clauses.
  pose proof (classify_loop (length clauses) 0 clauses [] eq_refl) as Hloop.
  destruct (foldM _ _ _) as [[fc to_append]|]; [cbn [rbind]|done].
  destruct Hloop as (_ & _ & _ & Hfc & Hentries); [|lia|constructor|constructor|].
  { intros j e _ He. rewrite Forall_forall in Hart. apply Hart.
    by eapply list_elem_of_lookup_2. }
  destruct (mapM_r (resolve fc) to_append) as [es|] eqn:Hes; [cbn [rbind]|done].
  intros [= <-]. apply (resolve_typed _ _ _ Hfc Hentries) in Hes.
  unfold merge_conclusion_elements. apply Forall_fmap.
  assert (forall d0 : list (string * Element),
            Forall (fun kv => is_Some (type kv.2)) d0 ->
            Forall (fun kv => is_Some (type kv.2)) (fold_left merge_step es d0)) as H.
  { induction Hes as [|e es He _ IH]; intros d0 Hd0; [done|].
    cbn [fold_left]. apply IH. by apply merge_step_typed. }
  apply (H []). constructor.
Qed.

(** ** The filter pipeline *)

Lemma filterM_r_filter {A : Type} (p : A -> result bool) (q : A -> bool) (l : list A) :
  Forall (fun x => p x = Ok (q x)) l -> filterM_r p l = Ok (List.filter q l).
Proof.
  induction 1 as [|x l Hx _ IH]; [done|].
  cbn [filterM_r List.filter]. rewrite Hx, IH. cbn [rbind].
  by destruct (q x).
Qed.

Lemma filterM_r_decides {A : Type} (p : A -> result bool) (q : A -> bool)
    (l out : list A) :
  decides p q -> filterM_r p l = Ok out -> out = List.filter q l.
Proof.
  intros Hpq. revert out. induction l as [|x l IH]; intros out.
  - by intros [= <-].
  - cbn [filterM_r List.filter]. destruct (p x) as [b|] eqn:Hx; [cbn [rbind]|done].
    destruct (filterM_r p l) as [ys|]; [cbn [rbind]|done].
    intros [= <-]. rewrite <- (Hpq x b Hx), (IH ys eq_refl). done.
Qed.

Lemma filter_sublist {A : Type} (q : A -> bool) (l : list A) :
  List.filter q l `sublist_of` l.
Proof.
  induction l as [|x l IH]; [constructor|].
  cbn [List.filter]. destruct (q x); [by apply sublist_skip|by apply sublist_cons].
Qed.

Lemma sublist_Forall_r {A : Type} (P : A -> Prop) (l1 l2 : list A) :
  l1 `sublist_of` l2 -> Forall P l2 -> Forall P l1.
Proof.
  induction 1 as [|x l1 l2 _ IH|x l1 l2 _ IH]; [done|..].
  - intros [? ?]%Forall_cons. constructor; auto.
  - intros [? ?]%Forall_cons. auto.
Qed.

Lemma language_test (c : gmap string value) (v : value) :
  c !! "languageisocode" = Some v -> bool_decide (v = VStr "ENG") = is_english c.
Proof. intros Hv. unfold is_english. apply bool_decide_ext. rewrite Hv. split; congruence. Qed.

Lemma doctype_test (c : gmap string value) (v : value) :
  c !! "doctype" = Some v -> bool_decide (v = VStr "HEJUD") = is_judgment c.
Proof. intros Hv. unfold is_judgment. apply bool_decide_ext. rewrite Hv. split; congruence. Qed.

Lemma conclusion_test (c : gmap string value) (v : value) :
  c !! "conclusion" = Some v ->
  value_contains "No-violation" v || value_contains "No violation" v
  || value_contains "Violation" v || value_contains "violation" v
  = has_clear_conclusion c.
Proof.
  intros Hv. unfold has_clear_conclusion. rewrite Hv. cbn [existsb].
  by rewrite orb_false_r, !orb_assoc.
Qed.

Lemma denylist_test (c : gmap string value) (v : value) :
  c !! "itemid" = Some v -> negb (bool_decide (v ∈ denylist)) = not_denied c.
Proof.
  intros Hv. unfold not_denied, denylist. rewrite Hv. cbn [forallb].
  destruct (decide (v = VStr "001-154354")) as [->|N1]; [done|].
  destruct (decide (v = VStr "001-108395")) as [->|N2]; [done|].
  destruct (decide (v = VStr "001-79411")) as [->|N3]; [done|].
  rewrite bool_decide_eq_false_2
    by (rewrite !elem_of_cons, elem_of_nil; intros [?|[?|[?|[]]]]; done).
  by rewrite !bool_decide_eq_false_2 by congruence.
Qed.

(** Each filter returns on cases that have its field, and what it returns
    is the list of the cases that meet its condition. *)
Lemma filter_language_spec (cases : list (gmap string value)) :
  (Forall has_filter_fields cases ->
   filter_language cases = Ok (List.filter is_english cases))
  /\ (forall out, filter_language cases = Ok out -> out = List.filter is_english cases).
Proof.
  split.
  - intros Hwf. apply filterM_r_filter. eapply Forall_impl; [exact Hwf|].
    intros c ([v Hv] & _). unfold getitem. rewrite Hv. cbn [rbind].
    by rewrite (language_test c v).
  - intros out. apply filterM_r_decides. intros c b. unfold getitem.
    destruct (c !! "languageisocode") as [v|] eqn:Hv; [cbn [rbind]|done].
    intros [= <-]. by apply language_test.
Qed.

Lemma filter_doctype_spec (cases : list (gmap string value)) :
  (Forall has_filter_fields cases ->
   filter_doctype cases = Ok (List.filter is_judgment cases))
  /\ (forall out, filter_doctype cases = Ok out -> out = List.filter is_judgment cases).
Proof.
  split.
  - intros Hwf. apply filterM_r_filter. eapply Forall_impl; [exact Hwf|].
    intros c (_ & [v Hv] & _). unfold getitem. rewrite Hv. cbn [rbind].
    by rewrite (doctype_test c v).
  - intros out. apply filterM_r_decides. intros c b. unfold getitem.
    destruct (c !! "doctype") as [v|] eqn:Hv; [cbn [rbind]|done].
    intros [= <-]. by apply doctype_test.
Qed.

Lemma filter_conclusion_spec (cases : list (gmap string value)) :
  (Forall has_filter_fields cases ->
   filter_conclusion cases = Ok (List.filter has_clear_conclusion cases))
  /\ (forall out, filter_conclusion cases = Ok out ->
        out = List.filter has_clear_conclusion cases).
Proof.
  split.
  - intros Hwf. apply filterM_r_filter. eapply Forall_impl; [exact Hwf|].
    intros c (_ & _ & [v Hv] & _). unfold getitem. rewrite Hv. cbn [rbind].
    by rewrite (conclusion_test c v).
  - intros out. apply filterM_r_decides. intros c b. unfold getitem.
    destruct (c !! "conclusion") as [v|] eqn:Hv; [cbn [rbind]|done].
    intros [= <-]. by apply conclusion_test.
Qed.

Lemma filter_denylist_spec (cases : list (gmap string value)) :
  (Forall has_filter_fields cases ->
   filter_denylist cases = Ok (List.filter not_denied cases))
  /\ (forall out, filter_denylist cases = Ok out -> out = List.filter not_denied cases).
Proof.
  split.
  - intros Hwf. apply filterM_r_filter. eapply Forall_impl; [exact Hwf|].
    intros c (_ & _ & _ & [v Hv]). unfold getitem. rewrite Hv. cbn [rbind].
    by rewrite (denylist_test c v).
  - intros out. apply filterM_r_decides. intros c b. unfold getitem.
    destruct (c !! "itemid") as [v|] eqn:Hv; [cbn [rbind]|done].
    intros [= <-]. by apply denylist_test.
Qed.

(** C8: on an empty list [filter_cases] exits before any filter is applied.
    On a non-empty list of cases that have the fields read by the filters
    it returns; and whenever it returns, it has applied the language,
    document type, conclusion and deny-list filters in this order, each
    stage returning a sublist of the stage before, so that the lengths
    never increase. *)
Theorem C8_filter_pipeline :
  filter_cases [] = Raise (SystemExit 1)
  /\ (forall cases,
        cases <> [] -> Forall has_filter_fields cases ->
        exists out, filter_cases cases = Ok out)
  /\ (forall cases out,
        filter_cases cases = Ok out ->
        let s1 := List.filter is_english cases in
        let s2 := List.filter is_judgment s1 in
        let s3 := List.filter has_clear_conclusion s2 in
        let s4 := List.filter not_denied s3 in
        cases <> []
        /\ filter_language cases = Ok s1 /\ filter_doctype s1 = Ok s2
        /\ filter_conclusion s2 = Ok s3 /\ filter_denylist s3 = Ok s4
        /\ out = s4
        /\ s1 `sublist_of` cases /\ s2 `sublist_of` s1
        /\ s3 `sublist_of` s2 /\ s4 `sublist_of` s3
        /\ length s4 <= length s3 /\ length s3 <= length s2
        /\ length s2 <= length s1 /\ length s1 <= length cases).
Proof.
  split; [reflexivity|]. split.
  - intros cases Hne Hwf. unfold filter_cases.
    destruct cases as [|c cases]; [done|]. cbn [length Nat.eqb].
    set (l := c :: cases) in *.
    pose proof (filter_sublist is_english l) as Hs1.
    pose proof (filter_sublist is_judgment (List.filter is_english l)) as Hs2.
    pose proof (filter_sublist has_clear_conclusion
                  (List.filter is_judgment (List.filter is_english l))) as Hs3.
    rewrite (proj1 (filter_language_spec l)) by done. cbn [rbind].
    rewrite (proj1 (filter_doctype_spec _)) by eauto using sublist_Forall_r.
    cbn [rbind].
    rewrite (proj1 (filter_conclusion_spec _)) by eauto using sublist_Forall_r.
    cbn [rbind].
    rewrite (proj1 (filter_denylist_spec _)) by eauto 6 using sublist_Forall_r.
    by eexists.
  - intros cases out H s1 s2 s3 s4. unfold filter_cases in H.
    destruct cases as [|c cases]; [done|]. cbn [length Nat.eqb] in H.
    set (l := c :: cases) in *.
    destruct (filter_language l) as [o1|] eqn:H1; [cbn [rbind] in H|done].
    apply (proj2 (filter_language_spec l)) in H1 as Ho1. fold s1 in Ho1. subst o1.
    destruct (filter_doctype s1) as [o2|] eqn:H2; [cbn [rbind] in H|done].
    apply (proj2 (filter_doctype_spec s1)) in H2 as Ho2. fold s2 in Ho2. subst o2.
    destruct (filter_conclusion s2) as [o3|] eqn:H3; [cbn [rbind] in H|done].
    apply (proj2 (filter_conclusion_spec s2)) in H3 as Ho3. fold s3 in Ho3. subst o3.
    destruct (filter_denylist s3) as [o4|] eqn:H4; [cbn [rbind] in H|done].
    apply (proj2 (filter_denylist_spec s3)) in H4 as Ho4. fold s4 in Ho4. subst o4.
    injection H as <-.
    assert (s1 `sublist_of` l) as Hs1 by apply filter_sublist.
    assert (s2 `sublist_of` s1) as Hs2 by apply filter_sublist.
    assert (s3 `sublist_of` s2) as Hs3 by apply filter_sublist.
    assert (s4 `sublist_of` s3) as Hs4 by apply filter_sublist.
    split; [done|]. do 9 (split; [done|]). repeat split; by apply sublist_length.
Qed.

Lemma C8_filter_pipeline_witness :
  let c (lang id : string) : gmap string value :=
    <["languageisocode" := VStr lang]> (<["doctype" := VStr "HEJUD"]>
      (<["conclusion" := VStr "Violation of Article 3"]> {["itemid" := VStr id]})) in
  let cases := [c "ENG" "001-1"; c "FRE" "001-2"; c "ENG" "001-79411"] in
  exists out, filter_cases cases = Ok out
              /\ out = List.filter not_denied
                         (List.filter has_clear_conclusion
                            (List.filter is_judgment (List.filter is_english cases)))
              /\ length out = 1.
Proof.
  intros c cases.
  destruct (proj1 (proj2 C8_filter_pipeline) cases) as [out E].
  - discriminate.
  - repeat constructor; by eexists.
  - exists out. split; [exact E|].
    destruct (proj2 (proj2 C8_filter_pipeline) cases out E) as (_ & _ & _ & _ & _ & Hout & _).
    split; [exact Hout|]. rewrite Hout. vm_compute. reflexivity.
Defined.

(** ** The case normaliser *)

Lemma getitem_ok {V : Type} (d : gmap string V) (k : string) (v : V) :
  getitem d k = Ok v -> d !! k = Some v.
Proof. unfold getitem. destruct (d !! k); by intros [= ->]. Qed.

Lemma as_str_ok (v : value) (s : string) : as_str v = Ok s -> v = VStr s.
Proof. destruct v; by intros [= ->]. Qed.

Lemma rbind_ok {A B : Type} (m : result A) (k : A -> result B) (y : B) :
  rbind m k = Ok y -> exists x, m = Ok x /\ k x = Ok y.
Proof. destruct m as [x|e]; [by exists x|done]. Qed.

Lemma Ok_inj {A : Type} (x y : A) : Ok x = Ok y -> x = y.
Proof. by intros [= ->]. Qed.

Ltac bind_step H :=
  match type of H with
  | rbind _ _ = Ok _ =>
      let x := fresh "x" in
      let E := fresh "E" in
      apply rbind_ok in H as (x & E & H); cbn beta zeta in H
  end.

Ltac key_ne :=
  first [discriminate | assumption | (apply not_eq_sym; assumption)].

Ltac map_lookup :=
  repeat first
    [ rewrite lookup_delete_eq
    | rewrite lookup_insert_eq
    | rewrite lookup_delete_ne by key_ne
    | rewrite lookup_insert_ne by key_ne ].

Ltac map_lookup_in H :=
  repeat first
    [ rewrite lookup_insert_eq in H
    | rewrite lookup_delete_ne in H by key_ne
    | rewrite lookup_insert_ne in H by key_ne ].

Section NormaliserFrame.

Variable COUNTRIES : gmap string value.
Variable ORIGINATING_BODY : gmap string (gmap string value).

Lemma format_case_frame (c c' : gmap string value) :
  format_case COUNTRIES ORIGINATING_BODY c = Ok c' -> normalised_frame c c'.
Proof.
  intros H. unfold format_case in H.
  repeat bind_step H.
  apply Ok_inj in H.
  repeat match goal with
         | E : getitem _ _ = Ok _ |- _ => apply getitem_ok in E
         | E : as_str _ = Ok _ |- _ => apply as_str_ok in E
         end.
  repeat match goal with
         | E : _ !! _ = Some _ |- _ => progress (map_lookup_in E)
         end.
  repeat match goal with
         | E : Some _ = Some _ |- _ => apply (inj Some) in E
         end.
  subst.
  unfold normalised_frame.
  split; [eexists; split; [eassumption|by map_lookup]|].
  split; [eexists; split; [eassumption|by map_lookup]|].
  do 4 (split; [by map_lookup|]).
  split; [split; [by eexists|split; by map_lookup]|].
  split; [split; [by eexists|split; by map_lookup]|].
  intros k Hk. unfold normalised_keys in Hk.
  rewrite !not_elem_of_cons in Hk.
  destruct_and!.
  by map_lookup.
Qed.

End NormaliserFrame.

(** C10: on every list of cases that [format_cases] normalises, each case
    keeps its raw conclusion and article strings under ['__conclusion'] and
    ['__articles'], loses the keys ['isplaceholder'],
    ['documentcollectionid2'], ['doctype'] and ['meetingnumber'], has
    ['Rank'] renamed to ['rank'] and ['kpdateAsText'] to ['kpdate'], and
    keeps every field that the normaliser does not assign or delete. *)
Theorem C10_format_cases_frame (COUNTRIES : gmap string value)
    (ORIGINATING_BODY : gmap string (gmap string value))
    (cases cases' : list (gmap string value)) :
  format_cases COUNTRIES ORIGINATING_BODY cases = Ok cases' ->
  Forall2 normalised_frame cases cases'.
Proof.
  revert cases'. induction cases as [|c cases IH]; intros cases' H.
  - apply Ok_inj in H. subst. constructor.
  - unfold format_cases in H. cbn [mapM_r] in H.
    apply rbind_ok in H as (c' & Hc & H).
    apply rbind_ok in H as (rest & Hrest & H).
    apply Ok_inj in H. subst. constructor.
    + by eapply format_case_frame.
    + by apply IH.
Qed.

(** The partitioner's view of the normalised sample case: its identifier
    and the parse of its raw conclusion. *)
Example case_view_sample :
  match format_case sample_countries sample_bodies sample_case with
  | Ok c' => c <- case_view c' ;; Ok (itemid c, conclusion c)
  | Raise e => Raise e
  end
  = (ccl <- format_conclusion "Violation of Article 3;No violation of Article 13" ;;
     Ok ("001-1", ccl)).
Proof. vm_compute. reflexivity. Qed.

Lemma C10_format_cases_frame_witness :
  exists cases', format_cases sample_countries sample_bodies [sample_case] = Ok cases'
                 /\ Forall2 normalised_frame [sample_case] cases'.
Proof.
  assert (is_ok (format_cases sample_countries sample_bodies [sample_case]) = true)
    as Hok by (vm_compute; reflexivity).
  destruct (format_cases sample_countries sample_bodies [sample_case]) as [l|e] eqn:E;
    [|discriminate Hok].
  exists l. split; [reflexivity|].
  exact (C10_format_cases_frame sample_countries sample_bodies [sample_case] l E).
Defined.

(** ** The outcome-consistent subset *)

Lemma outcome_labels_cons (e : Element) (ccl : list Element) :
  outcome_labels (e :: ccl)
  = match outcome_of e with
    | Some x => x :: outcome_labels ccl
    | None => outcome_labels ccl
    end.
Proof. reflexivity. Qed.

Lemma case_labels_loop (ccl : list Element) (acc : list string) :
  Forall (fun e => is_Some (type e)) ccl ->
  foldM (fun classes e =>
           t <- gettype e ;;
           if is_outcome t then
             match article e with
             | Some g => Ok (classes ++ [class_label g t])
             | None => Ok classes
             end
           else Ok classes) ccl acc
  = Ok (acc ++ map label_string (outcome_labels ccl)).
Proof.
  intros H. revert acc. induction H as [|e ccl [t Ht] _ IH]; intros acc.
  - cbn. by rewrite app_nil_r.
  - assert (gettype e = Ok t) as Hg by (unfold gettype; by rewrite Ht).
    cbn [foldM]. rewrite Hg. cbn [rbind]. rewrite outcome_labels_cons.
    unfold outcome_of. rewrite Ht.
    destruct t, (article e) as [a|];
      match goal with
      | |- context [is_outcome ?t] =>
          let b := eval vm_compute in (is_outcome t) in
          change (is_outcome t) with b
      end;
      cbn [rbind map]; rewrite IH; try done; by rewrite <- app_assoc.
Qed.

Lemma case_labels_spec (ccl : list Element) :
  Forall (fun e => is_Some (type e)) ccl ->
  case_labels ccl = Ok (map label_string (outcome_labels ccl)).
Proof. intros H. unfold case_labels. by rewrite case_labels_loop. Qed.

Lemma label_string_split (a : string) (b : bool) :
  has_char ":" a = false ->
  Py.split ":" (label_string (a, b)) = [a; if b then "1" else "0"].
Proof.
  intros Ha. unfold label_string, class_label. cbn [fst snd].
  replace (":" +:+ (if decide ((if b then violation else no_violation) = violation)
                    then "1" else "0"))
    with (String ":" (if b then "1" else "0")) by (by destruct b).
  rewrite split_char_app by done. by destruct b.
Qed.

Lemma label_string_inj (a a' : string) (b b' : bool) :
  has_char ":" a = false -> has_char ":" a' = false ->
  label_string (a, b) = label_string (a', b') -> a = a' /\ b = b'.
Proof.
  intros Ha Ha' H. apply (f_equal (Py.split ":")) in H.
  rewrite !label_string_split in H by done.
  injection H as -> H. split; [done|]. by destruct b, b'.
Qed.

Lemma opposite_label_string (a : string) (b : bool) :
  has_char ":" a = false ->
  opposite_label (label_string (a, b)) = Ok (label_string (a, negb b)).
Proof.
  intros Ha. unfold opposite_label. rewrite label_string_split by done.
  by destruct b.
Qed.

Lemma outcome_labels_colon_free (ccl : list Element) (a : string) (b : bool) :
  colon_free ccl -> (a, b) ∈ outcome_labels ccl -> has_char ":" a = false.
Proof.
  intros Hcf (e & He & Ho)%list_elem_of_omap.
  unfold colon_free in Hcf. rewrite Forall_forall in Hcf.
  destruct (Hcf e He) as [_ Hc]. apply Hc.
  unfold outcome_of in Ho.
  destruct (type e) as [[]|], (article e); by simplify_eq.
Qed.

Lemma label_string_nonempty (x : string * bool) : Py.nonempty (label_string x) = true.
Proof.
  destruct x as [a b]. unfold label_string, class_label. cbn [fst snd].
  destruct a; [by destruct b|done].
Qed.

(** X20: on elements whose articles have no [':'], the code decides the condition
    of the specification. *)
Lemma outcome_consistent_colon_free (c : Case) :
  colon_free (conclusion c) ->
  exists b, outcome_consistent c = Ok b
            /\ (b = true <-> consistent_spec (conclusion c)).
Proof.
  intros Hcf. unfold outcome_consistent.
  rewrite case_labels_spec by (eapply Forall_impl; [exact Hcf|by intros ? [? _]]).
  cbn [rbind]. set (labels := outcome_labels (conclusion c)).
  set (classes := list_set (map label_string labels)).
  assert (forall e, e ∈ classes <-> exists x, x ∈ labels /\ e = label_string x) as Hcl.
  { intros e. unfold classes, list_set. rewrite elem_of_remove_dups, list_elem_of_fmap.
    split; intros (x & ? & ?); by exists x. }
  set (q := fun e => match opposite_label e with
                     | Ok o => bool_decide (o ∈ classes)
                     | Raise _ => false
                     end).
  unfold opposed_classes.
  rewrite (filterM_r_filter _ q).
  2:{ apply Forall_forall. intros e ([a b] & Hx & ->)%Hcl. unfold q.
      rewrite opposite_label_string by (by eapply outcome_labels_colon_free). done. }
  cbn [rbind]. eexists. split; [reflexivity|].
  rewrite andb_true_iff, negb_true_iff. unfold consistent_spec. fold labels.
  split.
  - intros [Hlen Hopp]. split.
    + intros Hnil. unfold classes in Hlen. by rewrite Hnil in Hlen.
    + intros a [Ht Hf].
      assert (existsb Py.nonempty (List.filter q classes) = true) as Hex; [|congruence].
      apply existsb_exists. exists (label_string (a, true)). split.
      * apply filter_In. split.
        { apply list_elem_of_In, Hcl. by exists (a, true). }
        unfold q. rewrite opposite_label_string
          by (by eapply outcome_labels_colon_free).
        apply bool_decide_eq_true_2, Hcl. by exists (a, false).
      * apply label_string_nonempty.
  - intros [Hne Hno]. split.
    + destruct labels as [|x labels'] eqn:Hl; [done|].
      assert (label_string x ∈ classes) as Hin by (apply Hcl; exists x; split; [by left|done]).
      destruct classes; [by apply elem_of_nil in Hin|done].
    + apply not_true_iff_false. intros (e & Hin & _)%existsb_exists.
      apply filter_In in Hin as [Hin Hq]. apply list_elem_of_In, Hcl in Hin.
      destruct Hin as ([a b] & Hx & ->). unfold q in Hq.
      assert (has_char ":" a = false) as Ha by (by eapply outcome_labels_colon_free).
      rewrite opposite_label_string in Hq by done.
      apply bool_decide_eq_true_1, Hcl in Hq as ([a' b'] & Hx' & Heq).
      apply label_string_inj in Heq as [<- <-];
        [|done|by eapply outcome_labels_colon_free].
      apply (Hno a). destruct b; cbn [negb] in Hx'; done.
Qed.

(** C6, where the code departs from it: the two elements of the narrative
    ["Violation of Article 3:x; No violation of Article 3"] have different
    articles, so that no article has both labels, and yet the case is not
    in the outcome-consistent subset; with the same article ["3:x"] in both
    elements the case is in it. The example of the specification, with
    article ["3"] in both, is excluded. *)
Theorem C6_outcome_consistent_failing :
  let e1 := mkElement "Violation of Article 3:x" (Some violation)
              (Some "3:x") (Some "3:x") None None in
  let e2 := mkElement "No violation of Article 3" (Some no_violation)
              (Some "3") (Some "3") None None in
  let e3 := mkElement "No violation of Article 3:x" (Some no_violation)
              (Some "3:x") (Some "3:x") None None in
  format_conclusion "Violation of Article 3:x; No violation of Article 3" = Ok [e1; e2]
  /\ consistent_spec [e1; e2]
  /\ outcome_consistent (mkCase "001-1" [e1; e2] None) = Ok false
  /\ ~ consistent_spec [e1; e3]
  /\ outcome_consistent (mkCase "001-2" [e1; e3] None) = Ok true
  /\ outcome_consistent
       (mkCase "001-3" [ mkElement "a" (Some violation) (Some "3") None None None;
                         mkElement "b" (Some no_violation) (Some "3") None None None ]
               None) = Ok false.
Proof.
  intros e1 e2 e3. split; [vm_compute; reflexivity|].
  split.
  { split; [done|]. intros a [H1 H2].
    change (outcome_labels [e1; e2]) with [("3:x", true); ("3", false)] in H1, H2.
    rewrite !elem_of_cons, elem_of_nil in H1, H2.
    destruct H1 as [[= ->]|[[= ]|[]]]. by destruct H2 as [[= ]|[[= ]|[]]]. }
  split; [vm_compute; reflexivity|]. split.
  { intros [_ H]. apply (H "3:x").
    change (outcome_labels [e1; e3]) with [("3:x", true); ("3:x", false)].
    split; [by left|right; by left]. }
  split; vm_compute; reflexivity.
Qed.

(** ** The dataset partitioner *)

(** *** Insertion-ordered dictionaries *)

Lemma dict_get_alter {V : Type} (f : V -> V) (a k : string) (d : list (string * V)) :
  dict_get k (dict_alter f a d)
  = if String.eqb a k then f <$> dict_get k d else dict_get k d.
Proof.
  induction d as [|[k' v] d IH]; [by destruct (String.eqb a k)|].
  cbn [dict_alter dict_get].
  destruct (String.eqb_spec k' a) as [->|Hne]; cbn [dict_get].
  - destruct (String.eqb_spec a k) as [->|Hne']; [done|done].
  - destruct (String.eqb_spec k' k) as [->|Hne'].
    + destruct (String.eqb_spec a k) as [->|?]; done.
    + apply IH.
Qed.

Lemma dict_get_snoc {V : Type} (a k : string) (v : V) (d : list (string * V)) :
  dict_get k (d ++ [(a, v)])
  = match dict_get k d with
    | Some x => Some x
    | None => if String.eqb a k then Some v else None
    end.
Proof.
  induction d as [|[k' v'] d IH]; [done|].
  cbn [app dict_get]. by destruct (String.eqb k' k).
Qed.

Lemma dict_set_fresh {V : Type} (a : string) (v : V) (d : list (string * V)) :
  dict_get a d = None -> dict_set a v d = d ++ [(a, v)].
Proof. unfold dict_set. by intros ->. Qed.

Lemma dict_get_upsert {V : Type} (f : V -> V) (a k : string) (v : V)
    (d : list (string * V)) :
  dict_get k (dict_upsert f a v d)
  = if String.eqb a k
    then Some (f (default v (dict_get k d)))
    else dict_get k d.
Proof.
  unfold dict_upsert. rewrite dict_get_alter.
  destruct (String.eqb_spec a k) as [->|Hne].
  - destruct (dict_get k d) as [x|] eqn:Hk; [by rewrite Hk|].
    rewrite dict_set_fresh, dict_get_snoc, Hk, String.eqb_refl by done. done.
  - destruct (dict_get a d) as [x|] eqn:Ha; [done|].
    rewrite dict_set_fresh, dict_get_snoc by done.
    destruct (dict_get k d); [done|].
    by destruct (String.eqb_spec a k).
Qed.

(** *** The tally *)

Lemma tally_element_refs (filtered : list Case) (r : nat) (c : Case) (e : Element)
    (st st' : tally_state) :
  filtered !! r = Some c -> e ∈ conclusion c ->
  refs_ok filtered (snd st) ->
  tally_element r st e = Ok st' ->
  refs_ok filtered (snd st').
Proof.
  intros Hr He Hok. destruct st as [outcomes cpa]. unfold tally_element.
  destruct (gettype e) as [t|]; [cbn [rbind]|done].
  destruct (is_outcome t); [|by intros [= <-]].
  destruct (article e) as [a|] eqn:Ha; [|by intros [= <-]].
  intros [= <-]. cbn [snd] in *.
  change (refs_ok filtered (dict_upsert (fun l => l ++ [r]) a [] cpa)).
  intros k refs r' Hk Hr'. rewrite dict_get_upsert in Hk.
  destruct (String.eqb_spec a k) as [->|Hne]; [|by eapply Hok].
  injection Hk as <-. apply elem_of_app in Hr' as [Hr'|Hr'].
  - destruct (dict_get k cpa) as [refs|] eqn:Hrefs; [by eapply Hok|].
    by apply elem_of_nil in Hr'.
  - apply list_elem_of_singleton in Hr' as ->. by exists c, e.
Qed.

Lemma tally_case_refs (filtered : list Case) (r : nat) (c : Case)
    (ccl : list Element) (st st' : tally_state) :
  filtered !! r = Some c -> ccl ⊆ conclusion c ->
  refs_ok filtered (snd st) ->
  foldM (tally_element r) ccl st = Ok st' ->
  refs_ok filtered (snd st').
Proof.
  intros Hr. revert st. induction ccl as [|e ccl IH]; intros st Hsub Hok.
  - by intros [= <-].
  - cbn [foldM]. destruct (tally_element r st e) as [st1|] eqn:E; [cbn [rbind]|done].
    apply IH; [set_solver|].
    eapply tally_element_refs; [done| |done|done]. set_solver.
Qed.

Lemma enumerate_lookup {A : Type} (pre l : list A) :
  Forall (fun rc => (pre ++ l) !! rc.1 = Some rc.2)
         (zip (seq (length pre) (length l)) l).
Proof.
  revert pre. induction l as [|x l IH]; intros pre; [constructor|].
  cbn [length seq zip zip_with]. constructor.
  - cbn [fst snd]. by rewrite lookup_app_r, Nat.sub_diag by lia.
  - specialize (IH (pre ++ [x])). rewrite <- app_assoc, length_app in IH.
    cbn [length app] in IH.
    by replace (length pre + 1) with (S (length pre)) in IH by lia.
Qed.

Lemma tally_refs (filtered : list Case) (st : tally_state) :
  tally filtered = Ok st -> refs_ok filtered (snd st).
Proof.
  unfold tally.
  assert (refs_ok filtered (snd (([], []) : tally_state))) as Hinit by (by intros ???).
  pose proof (enumerate_lookup [] filtered) as Hall. cbn [app length] in Hall.
  unfold enumerate. revert Hinit Hall.
  generalize (([], []) : tally_state) as st0.
  generalize (zip (seq 0 (length filtered)) filtered) as rcs.
  induction rcs as [|[r c] rcs IH]; intros st0 Hinit Hall.
  - by intros [= <-].
  - apply Forall_cons in Hall as [Hrc Hall]. cbn [fst snd] in Hrc.
    cbn [foldM].
    destruct (foldM (tally_element r) (conclusion c) st0) as [st1|] eqn:E;
      [cbn [rbind]|done].
    apply IH; [|done]. by eapply tally_case_refs.
Qed.

(** *** The multiclass loop *)

Lemma find_article (k : string) (ccl : list Element) :
  (exists e, e ∈ ccl /\ article e = Some k) ->
  exists cc, find (fun cc => bool_decide (article cc = Some k)) ccl = Some cc
             /\ cc ∈ ccl /\ article cc = Some k.
Proof.
  intros (e & He & Ha). induction ccl as [|x ccl IH]; [by apply elem_of_nil in He|].
  cbn [find]. case_bool_decide as Hx.
  - exists x. split; [done|]. split; [by left|done].
  - apply elem_of_cons in He as [->|He]; [done|].
    destruct (IH He) as (cc & Hf & Hin & Hcc). exists cc. split; [done|].
    split; [by right|done].
Qed.

Lemma multiclass_visit_inv (order : list string) (filtered : list Case)
    (k : string) (st st' : mc_state) (r : nat) :
  k ∈ order ->
  (exists c e, filtered !! r = Some c /\ e ∈ conclusion c /\ article e = Some k) ->
  mc_inv order filtered st ->
  multiclass_visit k st r = Ok st' ->
  mc_inv order filtered st'.
Proof.
  intros Hk (c0 & e & Hc0 & He & Ha) (Hlen & Hstore & Hmc). unfold multiclass_visit.
  unfold Py.item at 1. destruct (store st !! r) as [c|] eqn:Hr; [cbn [rbind]|done].
  destruct (Hstore r c Hr) as (c0' & Hc0' & Hid & Hccl).
  assert (c0' = c0) as -> by congruence.
  destruct (multiclass_index st !! itemid c) as [k'|] eqn:Hidx; [by intros [= <-]|].
  destruct (Nat.eqb_spec (length (list_set (nb_datasets c))) 1) as [Hone|Hmany];
    [|by intros [= <-]].
  destruct (find_article k (conclusion c)) as (cc & -> & Hcc & Hacc);
    [exists e; by rewrite Hccl|].
  rewrite (item_alter _ _ _ c) by done. cbn [rbind set_mc_conclusion mc_conclusion itemid].
  intros [= <-]. split; [|split]; cbn [store multiclass_index multiclass_cases].
  - by rewrite length_alter.
  - intros r' c'. destruct (decide (r = r')) as [<-|Hne].
    + rewrite list_lookup_alter_eq, Hr. intros [= <-]. by exists c0.
    + rewrite list_lookup_alter_ne by done. apply Hstore.
  - intros r' [Hr'|Hr']%elem_of_app.
    + destruct (Hmc r' Hr') as (c' & Hc' & Hone' & k' & cc' & Hi' & Hrest).
      assert (r' <> r) as Hne by (intros ->; congruence).
      exists c'. split; [by rewrite list_lookup_alter_ne|].
      split; [done|]. exists k', cc'. split; [|done].
      rewrite lookup_insert_ne; [done|]. intros Heq. congruence.
    + apply list_elem_of_singleton in Hr' as ->.
      exists (set_mc_conclusion cc c). split; [by rewrite list_lookup_alter_eq, Hr|].
      split; [done|]. exists k, cc. cbn [set_mc_conclusion itemid mc_conclusion conclusion].
      by rewrite lookup_insert_eq.
Qed.

Lemma multiclass_article_inv (order : list string) (filtered : list Case)
    (k : string) (refs : list nat) (st st' : mc_state) :
  k ∈ order ->
  (forall r, r ∈ refs ->
     exists c e, filtered !! r = Some c /\ e ∈ conclusion c /\ article e = Some k) ->
  mc_inv order filtered st ->
  foldM (multiclass_visit k) refs st = Ok st' ->
  mc_inv order filtered st'.
Proof.
  intros Hk. revert st. induction refs as [|r refs IH]; intros st Hrefs Hinv.
  - by intros [= <-].
  - cbn [foldM]. destruct (multiclass_visit k st r) as [st1|] eqn:E; [cbn [rbind]|done].
    apply IH; [intros; apply Hrefs; by right|].
    eapply multiclass_visit_inv; [done| |done|done]. apply Hrefs. by left.
Qed.

Lemma multiclass_loop_inv (order ks : list string) (cpa : list (string * list nat))
    (filtered : list Case) (st0 st : mc_state) :
  refs_ok filtered cpa ->
  ks ⊆ order ->
  mc_inv order filtered st0 ->
  foldM (fun st k =>
           refs <- dict_getitem k cpa ;;
           foldM (multiclass_visit k) refs st) ks st0 = Ok st ->
  mc_inv order filtered st.
Proof.
  intros Hcpa. revert st0. induction ks as [|k ks IH]; intros st0 Hsub Hinit.
  - by intros [= <-].
  - cbn [foldM]. unfold dict_getitem at 1.
    destruct (dict_get k cpa) as [refs|] eqn:Hrefs; [cbn [rbind]|done].
    destruct (foldM (multiclass_visit k) refs st0) as [st1|] eqn:E; [cbn [rbind]|done].
    apply IH; [intros x Hx; apply Hsub; by right|].
    apply (multiclass_article_inv order filtered k refs st0); [|  |done|done].
    + apply Hsub. by left.
    + intros r Hr. by eapply Hcpa.
Qed.

Lemma multiclass_inv (order : list string) (cpa : list (string * list nat))
    (filtered : list Case) (st : mc_state) :
  refs_ok filtered cpa ->
  multiclass order cpa filtered = Ok st ->
  mc_inv order filtered st.
Proof.
  intros Hcpa. apply multiclass_loop_inv; [done|done|].
  split; [|split]; cbn [store multiclass_cases].
  - done.
  - intros r c Hr. by exists c.
  - by intros r ?%elem_of_nil.
Qed.

(** *** The order of the visit *)

Lemma insert_by_total_perm (x : string * Tally) (l : list (string * Tally)) :
  insert_by_total x l ≡ₚ x :: l.
Proof.
  induction l as [|y l IH]; [done|].
  cbn [insert_by_total]. destruct (Nat.ltb _ _); [done|].
  rewrite IH. apply Permutation_swap.
Qed.

Lemma insert_by_total_sorted (x : string * Tally) (l : list (string * Tally)) :
  StronglySorted by_total l -> StronglySorted by_total (insert_by_total x l).
Proof.
  induction 1 as [|y l Hl IH Hy]; [repeat constructor|].
  cbn [insert_by_total]. destruct (Nat.ltb_spec (total (snd x)) (total (snd y))) as [Hlt|Hge].
  - constructor; [by constructor|]. constructor; [unfold by_total; lia|].
    eapply Forall_impl; [exact Hy|]. unfold by_total. intros z Hz. lia.
  - constructor; [done|]. rewrite insert_by_total_perm. by constructor.
Qed.

Lemma sort_by_total_spec (l : list (string * Tally)) :
  sort_by_total l ≡ₚ l /\ StronglySorted by_total (sort_by_total l).
Proof.
  unfold sort_by_total.
  enough (forall acc, StronglySorted by_total acc ->
            fold_left (fun acc x => insert_by_total x acc) l acc ≡ₚ acc ++ l
            /\ StronglySorted by_total
                 (fold_left (fun acc x => insert_by_total x acc) l acc)) as H.
  { apply (H []). constructor. }
  induction l as [|x l IH]; intros acc Hacc.
  - cbn. by rewrite app_nil_r.
  - cbn [fold_left]. destruct (IH (insert_by_total x acc)) as [Hp Hs].
    { by apply insert_by_total_sorted. }
    split; [|done]. rewrite Hp, insert_by_total_perm.
    cbn [app]. apply Permutation_middle.
Qed.

(** *** The multiclass listing *)

Lemma mapM_item_elem {A : Type} (l : list A) (refs : list nat) (out : list A) (x : A) :
  mapM_r (Py.item l) refs = Ok out -> x ∈ out ->
  exists r, r ∈ refs /\ l !! r = Some x.
Proof.
  revert out. induction refs as [|r refs IH]; intros out.
  - intros [= <-]. by intros ?%elem_of_nil.
  - cbn [mapM_r]. unfold Py.item at 1.
    destruct (l !! r) as [y|] eqn:Hr; [cbn [rbind]|done].
    destruct (mapM_r (Py.item l) refs) as [ys|]; [cbn [rbind]|done].
    intros [= <-] [->|Hx]%elem_of_cons.
    + exists r. split; [by left|done].
    + destruct (IH ys eq_refl Hx) as (r' & Hr' & Hl). exists r'. split; [by right|done].
Qed.

(** *** The partitioner returns *)

Lemma filterM_r_total {A : Type} (p : A -> result bool) (l : list A) :
  Forall (fun x => exists b, p x = Ok b) l -> exists out, filterM_r p l = Ok out.
Proof.
  induction 1 as [|x l [b Hb] _ [out IH]]; [by eexists|].
  cbn [filterM_r]. rewrite Hb, IH. by eexists.
Qed.

Lemma filterM_r_sublist {A : Type} (p : A -> result bool) (l out : list A) :
  filterM_r p l = Ok out -> out `sublist_of` l.
Proof.
  revert out. induction l as [|x l IH]; intros out.
  - intros [= <-]. constructor.
  - cbn [filterM_r]. destruct (p x) as [b|]; [cbn [rbind]|done].
    destruct (filterM_r p l) as [ys|]; [cbn [rbind]|done].
    intros [= <-]. destruct b; [apply sublist_skip|apply sublist_cons]; by apply IH.
Qed.

(** The last piece of a label is its digit, whatever the article. *)
Lemma split_colon_last (a d : string) :
  has_char ":" d = false ->
  exists pre, Py.split ":" (a +:+ String ":" d) = pre ++ [d].
Proof.
  intros Hd. induction a as [|x a [pre IH]].
  - exists [""]. change ("" +:+ String ":" d) with (String ":" d).
    by rewrite split_char_cons, Ascii.eqb_refl, split_char_none.
  - change (String x a +:+ String ":" d) with (String x (a +:+ String ":" d)).
    rewrite split_char_cons, IH. destruct (Ascii.eqb x ":").
    + by exists ("" :: pre).
    + destruct pre as [|h t].
      * pose proof (split_some ":" (a +:+ String ":" d)) as Hl.
        rewrite IH in Hl. cbn in Hl.
        assert (Py.contains ":" (a +:+ String ":" d) = true) as Hc.
        { rewrite contains_char, has_char_app. cbn [has_char].
          by rewrite Ascii.eqb_refl, orb_true_r. }
        specialize (Hl ltac:(discriminate) Hc). lia.
      * by exists (String x h :: t).
Qed.

Lemma opposite_label_total (x : string * bool) :
  exists o, opposite_label (label_string x) = Ok o.
Proof.
  destruct x as [a b]. unfold opposite_label, label_string, class_label.
  cbn [fst snd].
  replace (":" +:+ (if decide ((if b then violation else no_violation) = violation)
                    then "1" else "0"))
    with (String ":" (if b then "1" else "0")) by (by destruct b).
  destruct (split_colon_last a (if b then "1" else "0")) as [pre ->];
    [by destruct b|].
  unfold Py.item, Py.last_item. rewrite last_snoc.
  destruct (pre ++ [_]) as [|h t] eqn:Hp; [by destruct pre|].
  cbn [lookup list_lookup rbind]. destruct b; by eexists.
Qed.

Lemma outcome_consistent_total (c : Case) :
  typed_case c -> exists b, outcome_consistent c = Ok b.
Proof.
  intros Ht. unfold outcome_consistent. rewrite case_labels_spec by done.
  cbn [rbind]. unfold opposed_classes.
  destruct (filterM_r_total
              (fun e => o <- opposite_label e ;;
                        Ok (bool_decide
                              (o ∈ list_set (map label_string
                                               (outcome_labels (conclusion c))))))
              (list_set (map label_string (outcome_labels (conclusion c)))))
    as [out ->]; [|by eexists].
  apply Forall_forall. intros e He. unfold list_set in He.
  apply elem_of_remove_dups, list_elem_of_fmap in He as (x & -> & _).
  destruct (opposite_label_total x) as [o ->]. by eexists.
Qed.

Lemma filtered_cases_total (cases : list Case) :
  Forall typed_case cases ->
  exists filtered, filtered_cases cases = Ok filtered /\ Forall typed_case filtered.
Proof.
  intros Ht. unfold filtered_cases.
  destruct (filterM_r_total outcome_consistent cases) as [out Hout].
  { eapply Forall_impl; [exact Ht|]. apply outcome_consistent_total. }
  exists out. split; [done|].
  eapply sublist_Forall_r; [|exact Ht]. by eapply filterM_r_sublist.
Qed.

Lemma tally_element_total (r : nat) (st : tally_state) (e : Element) :
  is_Some (type e) -> same_keys st ->
  exists st', tally_element r st e = Ok st' /\ same_keys st'.
Proof.
  intros [t Ht] Hk. destruct st as [outcomes cpa]. unfold tally_element, gettype.
  rewrite Ht. cbn [rbind]. destruct (is_outcome t); [|by eexists].
  destruct (article e) as [a|]; [|by eexists].
  eexists. split; [reflexivity|]. intros k. cbn [fst snd].
  change (is_Some (dict_get k (dict_upsert (bump t) a (mkTally 0 0 0) outcomes))
          <-> is_Some (dict_get k (dict_upsert (fun l => l ++ [r]) a [] cpa))).
  rewrite !dict_get_upsert. destruct (String.eqb a k); [|apply Hk].
  split; by eexists.
Qed.

Lemma tally_case_total (r : nat) (ccl : list Element) (st : tally_state) :
  Forall (fun e => is_Some (type e)) ccl -> same_keys st ->
  exists st', foldM (tally_element r) ccl st = Ok st' /\ same_keys st'.
Proof.
  intros Ht. revert st. induction Ht as [|e ccl He _ IH]; intros st Hk.
  - by exists st.
  - cbn [foldM]. destruct (tally_element_total r st e He Hk) as (st1 & -> & Hk1).
    cbn [rbind]. by apply IH.
Qed.

Lemma tally_total (filtered : list Case) :
  Forall typed_case filtered ->
  exists st, tally filtered = Ok st /\ same_keys st.
Proof.
  intros Ht. unfold tally, enumerate.
  assert (same_keys (([], []) : tally_state)) as Hinit
    by (intros k; split; intros [? ?]; done).
  revert Hinit. generalize (([], []) : tally_state) as st0.
  generalize 0 as n.
  induction Ht as [|c filtered Hc _ IH]; intros n st0 Hinit.
  - by exists st0.
  - cbn [length seq zip zip_with foldM].
    destruct (tally_case_total n (conclusion c) st0 Hc Hinit) as (st1 & -> & Hk1).
    cbn [rbind]. by apply IH.
Qed.

Lemma dict_get_elem {V : Type} (k : string) (v : V) (d : list (string * V)) :
  (k, v) ∈ d -> is_Some (dict_get k d).
Proof.
  induction d as [|[k' v'] d IH]; [by intros ?%elem_of_nil|].
  cbn [dict_get]. destruct (String.eqb_spec k' k) as [->|Hne]; [by eexists|].
  intros [[= -> ->]|Hin]%elem_of_cons; [done|by apply IH].
Qed.

Lemma multiclass_visit_total (order : list string) (filtered : list Case)
    (k : string) (st : mc_state) (r : nat) :
  r < length filtered -> mc_inv order filtered st ->
  exists st', multiclass_visit k st r = Ok st'.
Proof.
  intros Hr (Hlen & _ & _). unfold multiclass_visit, Py.item.
  destruct (lookup_lt_is_Some_2 (store st) r) as [c Hc]; [lia|].
  rewrite Hc. cbn [rbind].
  destruct (multiclass_index st !! itemid c); [by eexists|].
  destruct (Nat.eqb _ 1); [|by eexists].
  destruct (find _ (conclusion c)) as [cc|].
  - rewrite list_lookup_alter_eq, Hc. cbn [fmap option_fmap option_map rbind].
    by eexists.
  - rewrite Hc. cbn [rbind]. destruct (mc_conclusion c); by eexists.
Qed.

Lemma multiclass_article_total (order : list string) (filtered : list Case)
    (k : string) (refs : list nat) (st : mc_state) :
  k ∈ order ->
  (forall r, r ∈ refs ->
     exists c e, filtered !! r = Some c /\ e ∈ conclusion c /\ article e = Some k) ->
  mc_inv order filtered st ->
  exists st', foldM (multiclass_visit k) refs st = Ok st' /\ mc_inv order filtered st'.
Proof.
  intros Hk. revert st. induction refs as [|r refs IH]; intros st Hrefs Hinv.
  - by exists st.
  - cbn [foldM].
    destruct (Hrefs r) as (c & e & Hc & He); [by left|].
    destruct (multiclass_visit_total order filtered k st r) as [st1 H1];
      [by eapply lookup_lt_Some|done|].
    rewrite H1. cbn [rbind]. apply IH; [intros; apply Hrefs; by right|].
    eapply multiclass_visit_inv; [done| |done|done]. by exists c, e.
Qed.

Lemma multiclass_total (order : list string) (cpa : list (string * list nat))
    (filtered : list Case) :
  refs_ok filtered cpa ->
  (forall k, k ∈ order -> is_Some (dict_get k cpa)) ->
  exists st, multiclass order cpa filtered = Ok st /\ mc_inv order filtered st.
Proof.
  intros Hcpa Hkeys. unfold multiclass.
  assert (mc_inv order filtered (mkMc filtered ∅ [])) as Hinit.
  { split; [|split]; cbn [store multiclass_cases]; [done| |by intros r ?%elem_of_nil].
    intros r c Hr. by exists c. }
  revert Hinit. generalize (mkMc filtered ∅ []) as st0.
  assert (forall ks st0,
            ks ⊆ order -> mc_inv order filtered st0 ->
            exists st,
              foldM (fun st k =>
                       refs <- dict_getitem k cpa ;;
                       foldM (multiclass_visit k) refs st) ks st0 = Ok st
              /\ mc_inv order filtered st) as Hloop.
  { induction ks as [|k ks IH]; intros st0 Hsub Hinv; [by exists st0|].
    cbn [foldM]. unfold dict_getitem at 1.
    destruct (Hkeys k) as [refs Hrefs]; [apply Hsub; by left|]. rewrite Hrefs.
    cbn [rbind].
    destruct (multiclass_article_total order filtered k refs st0)
      as (st1 & -> & Hinv1); [apply Hsub; by left| |done|].
    { intros r Hr. by eapply Hcpa. }
    cbn [rbind]. apply IH; [|done]. intros x Hx. apply Hsub. by right. }
  intros st0 Hinit. by apply Hloop.
Qed.

Lemma mapM_item_total {A : Type} (l : list A) (refs : list nat) :
  (forall r, r ∈ refs -> is_Some (l !! r)) ->
  exists out, mapM_r (Py.item l) refs = Ok out.
Proof.
  induction refs as [|r refs IH]; intros H; [by eexists|].
  cbn [mapM_r]. unfold Py.item at 1.
  destruct (H r) as [x ->]; [by left|]. cbn [rbind].
  destruct IH as [out ->]; [intros; apply H; by right|]. by eexists.
Qed.

(** [run] returns on cases whose elements all have a type. *)
Lemma run_total (cases : list Case) :
  Forall typed_case cases -> exists ds, run cases = Ok ds.
Proof.
  intros Ht. unfold run.
  destruct (filtered_cases_total cases Ht) as (filtered & -> & Htf). cbn [rbind].
  destruct (tally_total filtered Htf) as ([outcomes cpa] & Htally & Hkeys).
  rewrite Htally. cbn [rbind].
  destruct (multiclass_total (sorted_outcomes outcomes) cpa filtered)
    as (mc & -> & Hinv).
  { apply tally_refs in Htally. exact Htally. }
  { intros k Hk. apply Hkeys. cbn [fst]. unfold sorted_outcomes in Hk.
    apply list_elem_of_fmap in Hk as ([k' t] & -> & Hin).
    rewrite (proj1 (sort_by_total_spec outcomes)) in Hin. by eapply dict_get_elem. }
  cbn [rbind].
  destruct (mapM_item_total (store mc) (multiclass_cases mc)) as [out ->].
  { intros r Hr. destruct Hinv as (_ & _ & Hass).
    destruct (Hass r Hr) as (c & -> & _). by eexists. }
  by eexists.
Qed.

(** X21: in particular [run] returns on cases whose conclusions come from
    [format_conclusion]. *)
Lemma run_total_parsed (cases : list Case) :
  Forall (fun c => exists ccl, format_conclusion ccl = Ok (conclusion c)) cases ->
  exists ds, run cases = Ok ds.
Proof.
  intros H. apply run_total. eapply Forall_impl; [exact H|].
  intros c [ccl Hc]. by eapply format_conclusion_typed.
Qed.

(** C7: the partitioner returns on cases whose elements all have a type, as
    those of [format_conclusion] have. Whenever it returns, every case of
    the multiclass listing has exactly one distinct article among its
    elements, it is filed in the index under an article [k] of the visit,
    its ['mc_conclusion'] is a list of one element whose article is [k], and
    the articles are visited by ascending total of the tally. *)
Theorem C7_multiclass :
  (forall cases, Forall typed_case cases -> exists ds, run cases = Ok ds)
  /\ (forall cases ds,
        run cases = Ok ds ->
        Forall (fun c =>
                  length (list_set (nb_datasets c)) = 1
                  /\ (forall a b, a ∈ nb_datasets c -> b ∈ nb_datasets c -> a = b)
                  /\ exists k cc,
                       ds_index ds !! itemid c = Some k /\ k ∈ ds_order ds
                       /\ mc_conclusion c = Some (VConclusion [cc])
                       /\ article cc = Some k /\ cc ∈ conclusion c)
               (ds_multiclass ds)
        /\ exists visited,
             ds_order ds = map fst visited /\ visited ≡ₚ ds_outcomes ds
             /\ StronglySorted by_total visited).
Proof.
  split; [apply run_total|].
  unfold run. intros cases ds H.
  apply rbind_ok in H as (filtered & Hf & H).
  apply rbind_ok in H as ([outcomes cpa] & Ht & H).
  apply rbind_ok in H as (mc & Hmc & H).
  apply rbind_ok in H as (out & Hout & H).
  apply Ok_inj in H. subst ds.
  cbn [ds_multiclass ds_index ds_order ds_outcomes]. split.
  - apply tally_refs in Ht. cbn [snd] in Ht.
    destruct (multiclass_inv _ _ _ _ Ht Hmc) as (_ & _ & Hass).
    apply Forall_forall. intros c Hc.
    destruct (mapM_item_elem _ _ _ _ Hout Hc) as (r & Hr & Hlook).
    destruct (Hass r Hr) as (c' & Hc' & Hone & Hrest).
    assert (c' = c) as -> by congruence.
    split; [done|]. split; [|done].
    intros a b Ha Hb. unfold list_set in Hone.
    apply elem_of_remove_dups in Ha, Hb.
    destruct (remove_dups (nb_datasets c)) as [|x [|y l]]; [done| |done].
    apply list_elem_of_singleton in Ha, Hb. congruence.
  - exists (sort_by_total outcomes). split; [done|]. apply sort_by_total_spec.
Qed.

Lemma C7_multiclass_witness :
  exists ds, run sample_cases = Ok ds
             /\ map itemid (ds_multiclass ds) = ["001-1"; "001-3"]
             /\ Forall (fun c => length (list_set (nb_datasets c)) = 1) (ds_multiclass ds).
Proof.
  destruct (proj1 C7_multiclass sample_cases) as [ds E].
  { repeat constructor; by eexists. }
  exists ds. split; [exact E|].
  pose proof (proj2 C7_multiclass sample_cases ds E) as [H _].
  split.
  - vm_compute in E. injection E as <-. reflexivity.
  - eapply Forall_impl; [exact H|]. by intros c [Hc _].
Defined.

(** * Further properties of the code *)

Lemma has_char_all (c : ascii) (s : string) :
  has_char c s = false <-> all_chars (fun a => negb (Ascii.eqb a c)) s = true.
Proof.
  induction s as [|a s IH]; [done|]. cbn [has_char all_chars].
  rewrite orb_false_iff, andb_true_iff, negb_true_iff. by rewrite IH.
Qed.

Lemma lower_char_idem (c : ascii) : Py.lower_char (Py.lower_char c) = Py.lower_char c.
Proof. destruct c as [[] [] [] [] [] [] [] []]; reflexivity. Qed.

Lemma lower_all (s : string) :
  Py.lower s = s <-> all_chars (fun a => Ascii.eqb (Py.lower_char a) a) s = true.
Proof.
  induction s as [|a s IH]; [done|]. cbn [Py.lower all_chars].
  rewrite andb_true_iff, <- IH, Ascii.eqb_eq. split.
  - by intros [= -> ->].
  - by intros [-> ->].
Qed.

Lemma lower_idem (s : string) : Py.lower (Py.lower s) = Py.lower s.
Proof.
  induction s as [|a s IH]; [done|]. cbn [Py.lower]. by rewrite lower_char_idem, IH.
Qed.

Section AllChars.

Variable P : ascii -> bool.

Lemma all_chars_app (x y : string) :
  all_chars P (x +:+ y) = all_chars P x && all_chars P y.
Proof.
  induction x as [|a x IH]; [done|]. simpl. by rewrite IH, andb_assoc.
Qed.

Lemma all_chars_cons_head (a : ascii) (l : list string) :
  P a = true -> Forall (fun p => all_chars P p = true) l ->
  Forall (fun p => all_chars P p = true) (Py.cons_head a l).
Proof.
  intros Ha [|h t Hh Ht]; cbn [Py.cons_head].
  - repeat constructor. cbn. by rewrite Ha.
  - constructor; [|done]. cbn. by rewrite Ha, Hh.
Qed.

Lemma all_chars_split_go (sep : string) (k : nat) (s : string) :
  all_chars P s = true ->
  Forall (fun p => all_chars P p = true) (Py.split_go sep k s).
Proof.
  revert k. induction s as [|a s IH]; intros k; [by repeat constructor|].
  cbn [all_chars Py.split_go]. intros [Ha Hs]%andb_true_iff.
  destruct k as [|k]; [|by apply IH].
  destruct (Py.startswith _ _).
  - constructor; [done|]. by apply IH.
  - apply all_chars_cons_head; [done|]. by apply IH.
Qed.

Lemma all_chars_split (sep s : string) :
  all_chars P s = true -> Forall (fun p => all_chars P p = true) (Py.split sep s).
Proof. apply all_chars_split_go. Qed.

Lemma all_chars_before_first (c : ascii) (s : string) :
  all_chars P s = true -> all_chars P (before_first c s) = true.
Proof.
  induction s as [|a s IH]; [done|]. cbn [all_chars before_first].
  intros [Ha Hs]%andb_true_iff. destruct (Ascii.eqb a c); [done|].
  cbn [all_chars]. by rewrite Ha, IH.
Qed.

Lemma all_chars_join (sep : string) (l : list string) :
  all_chars P sep = true -> Forall (fun p => all_chars P p = true) l ->
  all_chars P (Py.join sep l) = true.
Proof.
  intros Hsep. induction 1 as [|x l Hx Hl IH]; [done|].
  destruct l as [|y l]; [done|].
  change (Py.join sep (x :: y :: l)) with (x +:+ sep +:+ Py.join sep (y :: l)).
  by rewrite !all_chars_app, Hx, Hsep, IH.
Qed.

Lemma all_chars_remove_incorrect_prefixes (s : string) :
  all_chars P s = true -> all_chars P (remove_incorrect_prefixes s) = true.
Proof.
  destruct s as [|a s]; [done|]. cbn [remove_incorrect_prefixes all_chars].
  intros [Ha Hs]%andb_true_iff. destruct (negb _); [done|].
  cbn [all_chars]. by rewrite Ha, Hs.
Qed.

Lemma all_chars_tokenize_spec (article : string) :
  all_chars P article = true ->
  Forall (fun p => all_chars P p = true) (tokenize_spec article).
Proof.
  intros H. apply (all_chars_split "+") in H. rewrite Forall_forall in H.
  apply Forall_forall. intros t [->|Ht]%elem_of_cons.
  - apply all_chars_remove_incorrect_prefixes, H, last_elem_of, split_nonempty.
  - apply list_elem_of_fmap in Ht as (p & -> & Hp).
    apply all_chars_remove_incorrect_prefixes, H. by apply kept_parts_subset.
Qed.

Lemma all_chars_resolve_spec (t : string) :
  P "-" = true -> all_chars P t = true -> all_chars P (resolve_spec t) = true.
Proof.
  intros Hh Ht. unfold resolve_spec. destruct (_ || _).
  - apply all_chars_join; [cbn; by rewrite Hh|].
    apply Forall_take. by apply all_chars_split.
  - by apply all_chars_before_first.
Qed.

Lemma all_chars_article_bases (article : string) :
  P "-" = true -> all_chars P (Py.lower article) = true ->
  Forall (fun p => all_chars P p = true) (article_bases article).
Proof.
  intros Hh H. unfold article_bases. apply Forall_fmap.
  apply (all_chars_split ";") in H.
  apply Forall_concat, Forall_fmap. eapply Forall_impl; [exact H|].
  intros a Ha. cbn. apply all_chars_tokenize_spec in Ha.
  eapply Forall_impl; [exact Ha|]. intros t Ht. by apply all_chars_resolve_spec.
Qed.

End AllChars.

Lemma format_article_bases (article : string) :
  format_article article = Ok (list_set (article_bases article)).
Proof.
  unfold format_article, article_bases.
  assert (forall l, mapM_r split_and_format_article l = Ok (map tokenize_spec l)) as Hm.
  { induction l as [|a l IH]; [done|]. cbn [mapM_r map].
    by rewrite split_and_format_article_spec, IH. }
  rewrite Hm. cbn [rbind]. rewrite find_base_articles_tokens; [done|].
  apply Forall_concat, Forall_fmap, Forall_forall. intros a _. apply tokens_no_plus.
Qed.

(** ** Prefixes *)

Lemma string_app_nil_r (s : string) : s +:+ "" = s.
Proof.
  induction s as [|a s IH]; [done|].
  change (String a s +:+ "") with (String a (s +:+ "")). by rewrite IH.
Qed.

Lemma string_app_assoc (x y z : string) : (x +:+ y) +:+ z = x +:+ (y +:+ z).
Proof.
  induction x as [|a x IH]; [done|].
  change (String a ((x +:+ y) +:+ z) = String a (x +:+ (y +:+ z))). by rewrite IH.
Qed.

Lemma prefix_app (x y : string) : String.prefix x (x +:+ y) = true.
Proof.
  induction x as [|a x IH]; [apply prefix_empty|]. simpl.
  by destruct (ascii_dec a a).
Qed.

Lemma startswith_app (a b rest : string) : a = b +:+ rest -> Py.startswith a b = true.
Proof. intros ->. apply prefix_app. Qed.

Lemma before_first_app (c : ascii) (s : string) :
  exists rest, s = before_first c s +:+ rest.
Proof.
  induction s as [|a s [rest IH]]; [by exists ""|]. cbn [before_first].
  destruct (Ascii.eqb a c).
  - by eexists.
  - exists rest.
    change (String a (before_first c s) +:+ rest)
      with (String a (before_first c s +:+ rest)).
    by rewrite <- IH.
Qed.

Lemma join_cons_head (sep : string) (a : ascii) (l : list string) :
  l <> [] -> Py.join sep (Py.cons_head a l) = String a (Py.join sep l).
Proof. destruct l as [|x [|y l]]; done. Qed.

Lemma join_split_char (c : ascii) (s : string) :
  Py.join (String c "") (Py.split (String c "") s) = s.
Proof.
  induction s as [|a s IH]; [done|]. rewrite split_char_cons.
  pose proof (split_nonempty (String c "") s) as Hne.
  destruct (Ascii.eqb_spec a c) as [->|_].
  - destruct (Py.split (String c "") s) as [|x l]; [done|].
    change (Py.join (String c "") ("" :: x :: l))
      with ("" +:+ String c "" +:+ Py.join (String c "") (x :: l)).
    by rewrite IH.
  - by rewrite join_cons_head, IH.
Qed.

Lemma join_take_app (sep : string) (n : nat) (l : list string) :
  exists rest, Py.join sep l = Py.join sep (take n l) +:+ rest.
Proof.
  revert n. induction l as [|x l IH]; intros n; [exists ""; by destruct n|].
  destruct n as [|n]; [by eexists|]. cbn [take].
  destruct l as [|y l]; [exists ""; by rewrite take_nil, string_app_nil_r|].
  destruct n as [|n].
  - cbn [take]. by eexists.
  - destruct (IH (S n)) as [rest Hrest]. exists rest.
    change (Py.join sep (x :: y :: l)) with (x +:+ sep +:+ Py.join sep (y :: l)).
    cbn [take] in *.
    change (Py.join sep (x :: y :: take n l))
      with (x +:+ sep +:+ Py.join sep (y :: take n l)).
    rewrite Hrest. by rewrite !string_app_assoc.
Qed.

Lemma resolve_spec_app (t : string) : exists rest, t = resolve_spec t +:+ rest.
Proof.
  unfold resolve_spec. destruct (_ || _); [|apply before_first_app].
  destruct (join_take_app "-" 2 (Py.split "-" t)) as [rest H].
  rewrite join_split_char in H. by exists rest.
Qed.

Lemma has_char_before_first (c d : ascii) (s : string) :
  has_char c s = false -> has_char c (before_first d s) = false.
Proof.
  rewrite !has_char_all. apply all_chars_before_first.
Qed.

Lemma before_first_self (c : ascii) (s : string) : has_char c (before_first c s) = false.
Proof.
  induction s as [|a s IH]; [done|]. cbn [before_first].
  destruct (Ascii.eqb a c) eqn:E; [done|]. cbn [has_char]. by rewrite E.
Qed.

Lemma find_base_article_first (a : string) :
  find_base_article a = Ok (resolve_spec (before_first "+" a)).
Proof.
  unfold find_base_article, resolve_spec. rewrite split_char_head. cbn [rbind].
  rewrite contains_char, lower_has_p.
  destruct (_ || _); cbn [negb]; [done|]. apply split1_head.
Qed.

(** X1: the resolver never raises; every base article is a prefix of its
    article and has no ['+'], and it has no ['-'] either when the article
    has no letter p. *)
Theorem find_base_articles_prefix (articles : list string) :
  exists bases,
    find_base_articles articles = Ok bases
    /\ Forall2 (fun a b =>
                  Py.startswith a b = true
                  /\ has_char "+" b = false
                  /\ (has_char "p" a = false -> has_char "P" a = false ->
                      has_char "-" b = false))
               articles bases.
Proof.
  unfold find_base_articles.
  induction articles as [|a l (bases & IH & Hall)]; [by exists []|].
  cbn [mapM_r]. rewrite find_base_article_first, IH. cbn [rbind].
  eexists. split; [done|]. constructor; [|done].
  set (a0 := before_first "+" a).
  destruct (before_first_app "+" a) as [r1 H1]. fold a0 in H1.
  destruct (resolve_spec_app a0) as [r2 H2].
  split; [|split].
  - apply (startswith_app _ _ (r2 +:+ r1)).
    rewrite <- string_app_assoc, <- H2. exact H1.
  - apply has_char_all, all_chars_resolve_spec; [done|].
    apply has_char_all, before_first_self.
  - intros Hp HP. unfold resolve_spec, a0.
    rewrite !has_char_before_first by done. cbn [orb]. apply before_first_self.
Qed.

(** ** The articles and paragraphs of a case *)

Lemma elem_of_concat {A : Type} (x : A) (ls : list (list A)) :
  x ∈ concat ls <-> exists l, x ∈ l /\ l ∈ ls.
Proof.
  induction ls as [|l ls IH]; cbn [concat].
  - split; [by intros ?%elem_of_nil|]. by intros (l & _ & ?%elem_of_nil).
  - rewrite elem_of_app, IH. split.
    + intros [H|(l' & H1 & H2)]; [exists l; split; [done|by left]|].
      exists l'. split; [done|by right].
    + intros (l' & H1 & [->|H2]%elem_of_cons); [by left|]. right. by exists l'.
Qed.

Lemma list_set_elem (x : string) (l : list string) : x ∈ list_set l -> x ∈ l.
Proof. apply elem_of_remove_dups. Qed.

Lemma list_set_nonempty (l : list string) : l <> [] -> list_set l <> [].
Proof.
  destruct l as [|x l]; [done|]. intros _ H.
  assert (x ∈ list_set (x :: l)) as Hx by (apply elem_of_remove_dups; by left).
  rewrite H in Hx. by apply elem_of_nil in Hx.
Qed.

Lemma tokenize_spec_parts (article tok : string) :
  tok ∈ tokenize_spec article ->
  exists p, p ∈ Py.split "+" article /\ tok = remove_incorrect_prefixes p.
Proof.
  intros [->|Hin]%elem_of_cons.
  - eexists. split; [|done]. apply last_elem_of, split_nonempty.
  - apply list_elem_of_fmap in Hin as (p & -> & Hp).
    exists p. split; [|done]. by apply kept_parts_subset.
Qed.

Lemma article_bases_elem (article b : string) :
  b ∈ article_bases article <->
  exists piece tok, piece ∈ Py.split ";" (Py.lower article)
                    /\ tok ∈ tokenize_spec piece /\ b = resolve_spec tok.
Proof.
  unfold article_bases. rewrite list_elem_of_fmap. split.
  - intros (tok & -> & Htok). apply elem_of_concat in Htok as (toks & Htok & Htoks).
    apply list_elem_of_fmap in Htoks as (piece & -> & Hpiece). by exists piece, tok.
  - intros (piece & tok & Hpiece & Htok & ->). exists tok. split; [done|].
    apply elem_of_concat. exists (tokenize_spec piece). split; [done|].
    apply list_elem_of_fmap. by exists piece.
Qed.

(** X2: [format_article] never raises. It returns, without repetition, the base
    articles of the tokens of the pieces between [';'] of the lower-cased
    string: at least one, each in lower case and free of ['+'] and [';'];
    the case of the letters of the string does not matter; and every
    article is the base article of one of the paragraphs that
    [format_subarticle] gives for the lower-cased string. *)
Theorem format_article_set (article : string) :
  exists l,
    format_article article = Ok l
    /\ l <> [] /\ NoDup l
    /\ (forall b, b ∈ l <->
          exists piece tok, piece ∈ Py.split ";" (Py.lower article)
                            /\ tok ∈ tokenize_spec piece /\ b = resolve_spec tok)
    /\ Forall (fun b => has_char "+" b = false /\ has_char ";" b = false
                        /\ Py.lower b = b) l
    /\ format_article (Py.lower article) = Ok l
    /\ Forall (fun b => exists t, t ∈ format_subarticle (Py.lower article)
                                  /\ b = resolve_spec (remove_incorrect_prefixes t)) l.
Proof.
  exists (list_set (article_bases article)).
  split; [apply format_article_bases|]. split; [|split; [|split; [|split; [|split]]]].
  - apply list_set_nonempty. unfold article_bases.
    pose proof (split_nonempty ";" (Py.lower article)) as Hne.
    destruct (Py.split ";" (Py.lower article)) as [|p ps]; done.
  - apply NoDup_remove_dups.
  - intros b. unfold list_set. rewrite elem_of_remove_dups. apply article_bases_elem.
  - apply Forall_forall. intros b Hb%list_set_elem.
    apply article_bases_elem in Hb as (piece & tok & Hpiece & Htok & ->).
    apply (split_char_pieces ";") in Hpiece as Hsemi.
    apply tokenize_spec_parts in Htok as (p & Hp & ->).
    split; [|split].
    + apply has_char_all, all_chars_resolve_spec; [done|].
      apply all_chars_remove_incorrect_prefixes, has_char_all.
      by apply (split_char_pieces "+" piece).
    + apply has_char_all, all_chars_resolve_spec; [done|].
      apply all_chars_remove_incorrect_prefixes.
      assert (Forall (fun p => all_chars (fun a => negb (Ascii.eqb a ";")) p = true)
                     (Py.split "+" piece)) as Hall
        by (apply all_chars_split; by apply has_char_all).
      rewrite Forall_forall in Hall. by apply Hall.
    + apply lower_all, all_chars_resolve_spec; [done|].
      apply all_chars_remove_incorrect_prefixes.
      assert (Forall (fun p => all_chars (fun a => Ascii.eqb (Py.lower_char a) a) p = true)
                     (Py.split ";" (Py.lower article))) as Hall1
        by (apply all_chars_split, lower_all, lower_idem).
      rewrite Forall_forall in Hall1. specialize (Hall1 _ Hpiece).
      apply (all_chars_split _ "+") in Hall1. rewrite Forall_forall in Hall1.
      by apply Hall1.
  - rewrite format_article_bases. unfold article_bases. by rewrite lower_idem.
  - apply Forall_forall. intros b Hb%list_set_elem.
    apply article_bases_elem in Hb as (piece & tok & Hpiece & Htok & ->).
    apply tokenize_spec_parts in Htok as (p & Hp & ->).
    exists p. split; [|done]. unfold format_subarticle, list_set.
    apply elem_of_remove_dups, elem_of_concat. exists (Py.split "+" piece).
    split; [done|]. apply list_elem_of_fmap. by exists piece.
Qed.

(** X3: [format_subarticle] returns, without repetition, the pieces of the
    string between [';'] and ['+']: at least one, none of which contains a
    separator; a string without separator is returned alone. *)
Theorem format_subarticle_set (article : string) :
  format_subarticle article <> []
  /\ NoDup (format_subarticle article)
  /\ (forall p, p ∈ format_subarticle article <->
        exists piece, piece ∈ Py.split ";" article /\ p ∈ Py.split "+" piece)
  /\ Forall (fun p => has_char ";" p = false /\ has_char "+" p = false)
            (format_subarticle article)
  /\ (has_char ";" article = false -> has_char "+" article = false ->
      format_subarticle article = [article]).
Proof.
  assert (forall p, p ∈ format_subarticle article <->
            exists piece, piece ∈ Py.split ";" article /\ p ∈ Py.split "+" piece) as Helem.
  { intros p. unfold format_subarticle, list_set.
    rewrite elem_of_remove_dups, elem_of_concat. split.
    - intros (ps & Hp & Hps). apply list_elem_of_fmap in Hps as (piece & -> & Hpiece).
      by exists piece.
    - intros (piece & Hpiece & Hp). exists (Py.split "+" piece). split; [done|].
      apply list_elem_of_fmap. by exists piece. }
  split; [|split; [|split; [done|split]]].
  - apply list_set_nonempty.
    pose proof (split_nonempty ";" article) as Hne.
    destruct (Py.split ";" article) as [|p ps]; [done|]. cbn [map concat].
    pose proof (split_nonempty "+" p) as Hne'. by destruct (Py.split "+" p).
  - apply NoDup_remove_dups.
  - apply Forall_forall. intros p (piece & Hpiece & Hp)%Helem. split.
    + apply (split_char_pieces ";") in Hpiece.
      assert (Forall (fun p => all_chars (fun a => negb (Ascii.eqb a ";")) p = true)
                     (Py.split "+" piece)) as Hall
        by (apply all_chars_split; by apply has_char_all).
      rewrite Forall_forall in Hall. by apply has_char_all, Hall.
    + by apply (split_char_pieces "+" piece).
  - intros H1 H2. unfold format_subarticle.
    rewrite split_char_none by done. cbn [map concat].
    by rewrite split_char_none, app_nil_r by done.
Qed.

(** ** Merging conclusion elements *)

Lemma update_self (e : Element) : update e e = e.
Proof. destruct e as [x [t|] [a|] [b|] [d|] [m|]]; reflexivity. Qed.

Lemma dict_get_None {V : Type} (k : string) (d : list (string * V)) :
  dict_get k d = None <-> k ∉ map fst d.
Proof.
  induction d as [|[k' v] d IH]; cbn [dict_get map fst].
  - split; [intros _ ?%elem_of_nil; done|done].
  - rewrite not_elem_of_cons. destruct (String.eqb_spec k' k) as [->|Hne].
    + split; [done|]. by intros [? _].
    + rewrite IH. split; [by intros ?; split|by intros [_ ?]].
Qed.

Lemma dict_alter_fresh {V : Type} (f : V -> V) (k : string) (d : list (string * V)) :
  k ∉ map fst d -> dict_alter f k d = d.
Proof.
  induction d as [|[k' v] d IH]; [done|]. cbn [dict_alter map fst].
  intros [Hne Hk]%not_elem_of_cons.
  destruct (String.eqb_spec k' k) as [->|_]; [done|]. by rewrite IH.
Qed.

Lemma dict_alter_snoc {V : Type} (f : V -> V) (k : string) (v : V)
    (d : list (string * V)) :
  k ∉ map fst d -> dict_alter f k (d ++ [(k, v)]) = d ++ [(k, f v)].
Proof.
  induction d as [|[k' v'] d IH]; cbn [dict_alter map fst app].
  - intros _. by rewrite String.eqb_refl.
  - intros [Hne Hk]%not_elem_of_cons.
    destruct (String.eqb_spec k' k) as [->|_]; [done|]. by rewrite IH.
Qed.

(** A dictionary given by its keys [ks] and the value [g k] of each. *)
Lemma dict_alter_tabulate {V : Type} (f : V -> V) (g : string -> V) (k : string)
    (ks : list string) :
  NoDup ks ->
  dict_alter f k (map (fun k' => (k', g k')) ks)
  = map (fun k' => (k', if decide (k' = k) then f (g k') else g k')) ks.
Proof.
  induction 1 as [|k' ks Hk' Hks IH]; [done|]. cbn [map dict_alter].
  destruct (String.eqb_spec k' k) as [->|Hne].
  - rewrite decide_True by done. f_equal.
    apply map_ext_in. intros k' Hin%list_elem_of_In.
    rewrite decide_False; [done|]. by intros ->.
  - rewrite decide_False by done. by rewrite IH.
Qed.

Lemma first_keys_snoc (elements : list Element) (e : Element) :
  first_keys (elements ++ [e])
  = if decide (merge_key e ∈ map merge_key elements)
    then first_keys elements
    else first_keys elements ++ [merge_key e].
Proof.
  unfold first_keys. rewrite map_app, reverse_app. cbn [map].
  rewrite reverse_singleton. cbn [app remove_dups].
  destruct (decide (merge_key e ∈ map merge_key elements)) as [Hin|Hin];
    destruct (decide_rel elem_of _ _) as [Hin'|Hin'];
    rewrite ?reverse_cons; try done; by rewrite elem_of_reverse in Hin'.
Qed.

Lemma first_keys_elem (elements : list Element) (k : string) :
  k ∈ first_keys elements <-> k ∈ map merge_key elements.
Proof.
  unfold first_keys. by rewrite elem_of_reverse, elem_of_remove_dups, elem_of_reverse.
Qed.

Lemma first_keys_NoDup (elements : list Element) : NoDup (first_keys elements).
Proof. unfold first_keys. rewrite reverse_Permutation. apply NoDup_remove_dups. Qed.

Lemma key_group_snoc (k : string) (elements : list Element) (e : Element) :
  key_group k (elements ++ [e])
  = if decide (merge_key e = k) then key_group k elements ++ [e]
    else key_group k elements.
Proof.
  unfold key_group. rewrite filter_app. rewrite filter_cons, filter_nil.
  destruct (decide (merge_key e = k)); [done|by rewrite app_nil_r].
Qed.

Lemma key_group_nil (k : string) (elements : list Element) :
  key_group k elements = [] <-> k ∉ map merge_key elements.
Proof.
  unfold key_group. induction elements as [|e elements IH]; cbn [map].
  - split; [intros _ ?%elem_of_nil; done|done].
  - rewrite filter_cons, not_elem_of_cons.
    destruct (decide (merge_key e = k)) as [<-|Hne].
    + split; [done|]. by intros [? _].
    + rewrite IH. split; [by intros ?; split|by intros [_ ?]].
Qed.

(** The value filed under a key, with a default for a key that is absent. *)
Lemma merge_dict (elements : list Element) :
  fold_left merge_step elements []
  = map (fun k => (k, default (new_element "") (merged (key_group k elements))))
        (first_keys elements).
Proof.
  induction elements as [|e elements IH] using rev_ind; [done|].
  rewrite fold_left_app. cbn [fold_left]. rewrite IH. clear IH.
  set (g := fun es k => default (new_element "") (merged (key_group k es))).
  change (merge_step (map (fun k => (k, g elements k)) (first_keys elements)) e
          = map (fun k => (k, g (elements ++ [e]) k)) (first_keys (elements ++ [e]))).
  pose proof (first_keys_NoDup elements) as Hnd.
  assert (map fst (map (fun k => (k, g elements k)) (first_keys elements))
          = first_keys elements) as Hkeys.
  { rewrite map_map. cbn [fst]. apply map_id. }
  unfold merge_step. rewrite first_keys_snoc.
  destruct (decide (merge_key e ∈ map merge_key elements)) as [Hin|Hin].
  - destruct (dict_get _ _) as [d|] eqn:Hd.
    2:{ apply dict_get_None in Hd. rewrite Hkeys, first_keys_elem in Hd. done. }
    rewrite dict_alter_tabulate by done. apply map_ext. intros k. f_equal.
    unfold g. rewrite key_group_snoc.
    destruct (decide (k = merge_key e)) as [->|Hne].
    + rewrite decide_True by done.
      destruct (key_group (merge_key e) elements) as [|e0 rest] eqn:Hg.
      { apply key_group_nil in Hg. done. }
      cbn [app merged default]. by rewrite fold_left_app.
    + rewrite decide_False; [done|]. by intros <-.
  - destruct (dict_get _ _) as [d|] eqn:Hd.
    { assert (dict_get (merge_key e)
                (map (fun k => (k, g elements k)) (first_keys elements)) <> None) as Hn
        by (by rewrite Hd).
      rewrite dict_get_None, Hkeys, first_keys_elem in Hn. by destruct Hn. }
    rewrite dict_set_fresh by done.
    rewrite dict_alter_snoc by (by rewrite Hkeys, first_keys_elem).
    rewrite map_app. cbn [map]. f_equal.
    + apply map_ext_in. intros k Hk%list_elem_of_In. f_equal.
      unfold g. rewrite key_group_snoc, decide_False; [done|].
      intros <-. by apply first_keys_elem in Hk.
    + unfold g. rewrite key_group_snoc, decide_True by done.
      apply key_group_nil in Hin. rewrite Hin. cbn. by rewrite update_self.
Qed.

(** X4: [merge_conclusion_elements] groups the elements by key: its result has
    one element for each distinct key, in order of first occurrence, which
    is the first element with this key updated in turn with each later one
    that has it; so the result is never longer than the input. *)
Theorem merge_conclusion_elements_groups (elements : list Element) :
  merge_conclusion_elements elements
  = omap (fun k => merged (key_group k elements)) (first_keys elements)
  /\ length (merge_conclusion_elements elements)
     = length (remove_dups (map merge_key elements))
  /\ length (merge_conclusion_elements elements) <= length elements.
Proof.
  assert (length (merge_conclusion_elements elements)
          = length (remove_dups (map merge_key elements))) as Hlen.
  { unfold merge_conclusion_elements. rewrite merge_dict, !length_map.
    apply Permutation_length, NoDup_Permutation.
    - apply first_keys_NoDup.
    - apply NoDup_remove_dups.
    - intros k. by rewrite first_keys_elem, elem_of_remove_dups. }
  split; [|split; [done|]].
  - unfold merge_conclusion_elements. rewrite merge_dict, map_map. cbn [snd].
    assert (forall ks : list string,
              (forall k, k ∈ ks -> k ∈ map merge_key elements) ->
              map (fun k => default (new_element "") (merged (key_group k elements))) ks
              = omap (fun k => merged (key_group k elements)) ks) as H.
    { induction ks as [|k ks IH]; [done|]. intros Hks. cbn [map].
      rewrite IH by (intros k' Hk'; apply Hks; by right).
      destruct (key_group k elements) as [|e0 rest] eqn:Hg.
      { apply key_group_nil in Hg. destruct Hg. apply Hks. by left. }
      simpl. by rewrite Hg. }
    apply H. intros k. by rewrite first_keys_elem.
  - rewrite Hlen, <- (length_map merge_key elements).
    apply submseteq_length, NoDup_submseteq; [apply NoDup_remove_dups|].
    intros k. by rewrite elem_of_remove_dups.
Qed.

Lemma merge_dict_distinct (elements : list Element) :
  NoDup (map merge_key elements) ->
  fold_left merge_step elements [] = map (fun e => (merge_key e, e)) elements.
Proof.
  induction elements as [|e elements IH] using rev_ind; [done|].
  rewrite map_app. cbn [map]. intros (Hnd & Hnew & _)%NoDup_app.
  rewrite fold_left_app. cbn [fold_left]. rewrite IH by done.
  assert (merge_key e ∉ map fst (map (fun e => (merge_key e, e)) elements)) as Hk.
  { rewrite map_map. cbn [fst]. intros Hin. apply (Hnew _ Hin). by left. }
  unfold merge_step. apply dict_get_None in Hk as Hget. rewrite Hget.
  rewrite dict_set_fresh, dict_alter_snoc by done.
  by rewrite update_self, map_app.
Qed.

(** X5: elements with distinct keys are returned as they are, in the same
    order. *)
Theorem merge_conclusion_elements_distinct (elements : list Element) :
  NoDup (map merge_key elements) -> merge_conclusion_elements elements = elements.
Proof.
  intros H. unfold merge_conclusion_elements.
  rewrite merge_dict_distinct by done. rewrite map_map. cbn [snd]. apply map_id.
Qed.

Lemma merge_conclusion_elements_distinct_witness :
  let a := mkElement "Violation of Article 3" (Some violation) (Some "3") (Some "3")
             None None in
  let b := mkElement "Remainder inadmissible" (Some other) None None None None in
  merge_conclusion_elements [a; b] = [a; b].
Proof.
  intros a b. apply (merge_conclusion_elements_distinct [a; b]).
  apply (bool_decide_unpack (NoDup (map merge_key [a; b]))). vm_compute. exact I.
Defined.

(** ** The domain of the filter pipeline *)

(** A filter that reads the field [k] returns exactly when every case has
    this field, and raises [KeyError] otherwise. *)
Lemma filterM_r_getitem (k : string) (t : value -> bool)
    (cases : list (gmap string value)) :
  match filterM_r (fun i => v <- getitem i k ;; Ok (t v)) cases with
  | Ok _ => Forall (fun c => is_Some (c !! k)) cases
  | Raise e => e = KeyError /\ ~ Forall (fun c => is_Some (c !! k)) cases
  end.
Proof.
  induction cases as [|c cases IH]; [by constructor|].
  cbn [filterM_r]. unfold getitem at 1.
  destruct (c !! k) as [v|] eqn:Hv; cbn [rbind].
  - destruct (filterM_r _ cases) as [ys|e]; cbn [rbind].
    + constructor; [by eexists|done].
    + destruct IH as [-> IH]. split; [done|]. by intros [_ ?]%Forall_cons.
  - split; [done|]. intros [[v Hv'] _]%Forall_cons. congruence.
Qed.

(** X6: on a list that is not empty, [filter_cases] returns exactly when every
    case that reaches a filter has the field that the filter reads, and
    raises [KeyError] otherwise: a field may be missing in a case that an
    earlier filter removes. *)
Theorem filter_cases_domain (cases : list (gmap string value)) :
  cases <> [] ->
  match filter_cases cases with
  | Ok out =>
      staged_fields cases
      /\ out = List.filter not_denied
                 (List.filter has_clear_conclusion
                    (List.filter is_judgment (List.filter is_english cases)))
  | Raise e => e = KeyError /\ ~ staged_fields cases
  end.
Proof.
  intros Hne. unfold filter_cases, staged_fields.
  destruct cases as [|c0 cases0]; [done|]. cbn [length Nat.eqb].
  set (cases := c0 :: cases0). clearbody cases. clear Hne c0 cases0.
  pose proof (filterM_r_getitem "languageisocode"
                (fun v => bool_decide (v = VStr "ENG")) cases) as H1.
  unfold filter_language.
  destruct (filterM_r _ cases) as [o1|e] eqn:E1; cbn [rbind].
  2:{ destruct H1 as [-> H1]. split; [done|]. by intros [? _]. }
  apply (proj2 (filter_language_spec cases)) in E1. subst o1.
  set (s1 := List.filter is_english cases).
  pose proof (filterM_r_getitem "doctype"
                (fun v => bool_decide (v = VStr "HEJUD")) s1) as H2.
  unfold filter_doctype.
  destruct (filterM_r _ s1) as [o2|e] eqn:E2; cbn [rbind].
  2:{ destruct H2 as [-> H2]. split; [done|]. by intros (_ & ? & _). }
  apply (proj2 (filter_doctype_spec s1)) in E2. subst o2.
  set (s2 := List.filter is_judgment s1).
  pose proof (filterM_r_getitem "conclusion"
                (fun v => value_contains "No-violation" v
                          || value_contains "No violation" v
                          || value_contains "Violation" v
                          || value_contains "violation" v) s2) as H3.
  unfold filter_conclusion.
  destruct (filterM_r _ s2) as [o3|e] eqn:E3; cbn [rbind].
  2:{ destruct H3 as [-> H3]. split; [done|]. by intros (_ & _ & ? & _). }
  apply (proj2 (filter_conclusion_spec s2)) in E3. subst o3.
  set (s3 := List.filter has_clear_conclusion s2).
  pose proof (filterM_r_getitem "itemid"
                (fun v => negb (bool_decide (v ∈ denylist))) s3) as H4.
  unfold filter_denylist.
  destruct (filterM_r _ s3) as [o4|e] eqn:E4; cbn [rbind].
  2:{ destruct H4 as [-> H4]. split; [done|]. by intros (_ & _ & _ & ?). }
  apply (proj2 (filter_denylist_spec s3)) in E4. subst o4.
  done.
Qed.

Lemma filter_cases_domain_witness :
  let c : gmap string value := {[ "languageisocode" := VStr "FRE" ]} in
  filter_cases [c] = Ok [].
Proof.
  intros c. pose proof (filter_cases_domain [c]) as H.
  destruct (filter_cases [c]) as [out|e] eqn:E.
  - destruct H as [_ ->]; [done|]. reflexivity.
  - destruct H as [_ H]; [done|]. destruct H.
    unfold staged_fields. split; [|by split].
    constructor; [|done]. by eexists.
Defined.

Lemma filter_all {A : Type} (q : A -> bool) (l : list A) :
  Forall (fun x => q x = true) l -> List.filter q l = l.
Proof.
  induction 1 as [|x l Hx _ IH]; [done|]. cbn [List.filter]. by rewrite Hx, IH.
Qed.

Lemma filter_elem {A : Type} (q : A -> bool) (l : list A) (x : A) :
  x ∈ List.filter q l <-> x ∈ l /\ q x = true.
Proof. rewrite !list_elem_of_In. apply filter_In. Qed.

(** X7: filtering is idempotent: a list that [filter_cases] returns is returned
    unchanged when it is filtered again, unless it is empty, on which
    [filter_cases] exits. *)
Theorem filter_cases_idempotent (cases out : list (gmap string value)) :
  filter_cases cases = Ok out ->
  filter_cases out = if decide (out = []) then Raise (SystemExit 1) else Ok out.
Proof.
  intros H. destruct (decide (out = [])) as [->|Hne]; [done|].
  unfold filter_cases in H. destruct (Nat.eqb (length cases) 0); [done|].
  apply rbind_ok in H as (o1 & H1 & H). apply rbind_ok in H as (o2 & H2 & H).
  apply rbind_ok in H as (o3 & H3 & H). apply rbind_ok in H as (o4 & H4 & H).
  apply Ok_inj in H as <-.
  apply (proj2 (filter_language_spec cases)) in H1. subst o1.
  apply (proj2 (filter_doctype_spec _)) in H2. subst o2.
  apply (proj2 (filter_conclusion_spec _)) in H3. subst o3.
  pose proof (filterM_r_getitem "itemid"
                (fun v => negb (bool_decide (v ∈ denylist)))
                (List.filter has_clear_conclusion
                   (List.filter is_judgment (List.filter is_english cases)))) as Hid.
  cbn beta in Hid. unfold filter_denylist in H4. rewrite H4 in Hid.
  apply (proj2 (filter_denylist_spec _)) in H4. subst o4.
  set (s1 := List.filter is_english cases) in *.
  set (s2 := List.filter is_judgment s1) in *.
  set (s3 := List.filter has_clear_conclusion s2) in *.
  set (out := List.filter not_denied s3) in *.
  assert (Forall (fun c => is_english c = true /\ is_judgment c = true
                           /\ has_clear_conclusion c = true /\ not_denied c = true
                           /\ is_Some (c !! "itemid")) out) as Hall.
  { apply Forall_forall. intros c [Hc3 ?]%filter_elem.
    rewrite Forall_forall in Hid. specialize (Hid _ Hc3).
    apply filter_elem in Hc3 as [Hc2 ?]. apply filter_elem in Hc2 as [Hc1 ?].
    apply filter_elem in Hc1 as [_ ?]. done. }
  assert (Forall has_filter_fields out) as Hwf.
  { eapply Forall_impl; [exact Hall|]. intros c (He & Hj & Hc & _ & Hi).
    unfold is_english, is_judgment, has_clear_conclusion in *.
    apply bool_decide_eq_true in He, Hj.
    split; [by eexists|]. split; [by eexists|]. split; [|done].
    by destruct (c !! "conclusion"). }
  unfold filter_cases. destruct out as [|c0 out0] eqn:Eout; [done|].
  cbn [length Nat.eqb]. rewrite <- Eout in *.
  rewrite (proj1 (filter_language_spec out)) by done. cbn [rbind].
  rewrite filter_all by (eapply Forall_impl; [exact Hall|]; by intros c (? & _)).
  rewrite (proj1 (filter_doctype_spec out)) by done. cbn [rbind].
  rewrite filter_all by (eapply Forall_impl; [exact Hall|]; by intros c (_ & ? & _)).
  rewrite (proj1 (filter_conclusion_spec out)) by done. cbn [rbind].
  rewrite filter_all by (eapply Forall_impl; [exact Hall|]; by intros c (_ & _ & ? & _)).
  rewrite (proj1 (filter_denylist_spec out)) by done. cbn [rbind].
  rewrite filter_all by (eapply Forall_impl; [exact Hall|]; by intros c (_ & _ & _ & ? & _)).
  done.
Qed.

Lemma filter_cases_idempotent_witness :
  let c (lang : string) : gmap string value :=
    <["languageisocode" := VStr lang]> (<["doctype" := VStr "HEJUD"]>
      (<["conclusion" := VStr "No violation of Article 8"]> {["itemid" := VStr "001-2"]})) in
  exists out, filter_cases [c "ENG"; c "FRE"] = Ok out
              /\ length out = 1 /\ filter_cases out = Ok out.
Proof.
  intros c.
  assert (match filter_cases [c "ENG"; c "FRE"] with
          | Ok out => Nat.eqb (length out) 1
          | Raise _ => false
          end = true) as Hlen by (vm_compute; reflexivity).
  destruct (filter_cases [c "ENG"; c "FRE"]) as [out|e] eqn:E; [|discriminate Hlen].
  apply Nat.eqb_eq in Hlen. exists out. split; [reflexivity|]. split; [exact Hlen|].
  rewrite (filter_cases_idempotent _ _ E).
  destruct (decide (out = [])) as [->|_]; [discriminate Hlen|reflexivity].
Defined.

(** ** The clauses of the segmentation *)

Lemma map_alter_same {A B : Type} (g : A -> B) (f : A -> A) (i : nat) (l : list A) :
  (forall d, g (f d) = g d) -> map g (alter f i l) = map g l.
Proof.
  intros Hf. revert i. induction l as [|x l IH]; intros [|i]; cbn; [done..| |].
  - by rewrite Hf.
  - by rewrite IH.
Qed.

Lemma Forall_but_last {A : Type} (P : A -> Prop) (l : list A) :
  Forall P l -> Forall P (Py.but_last l).
Proof.
  unfold Py.but_last. rewrite removelast_firstn_len. apply Forall_take.
Qed.

Lemma last_item_Some {A : Type} (l : list A) (x : A) :
  Py.last_item l = Ok x -> last l = Some x.
Proof. unfold Py.last_item. destruct (last l); congruence. Qed.

(** One turn of the loop adds the last clause text of the chunk, if it has
    one, and leaves the clause texts of the chunk in [articles]. *)
Lemma clause_step_texts (st st' : list Element * option (list string)) (c : string) :
  clause_step st c = Ok st' ->
  map element st'.1 = map element st.1 ++ option_list (last (chunk_texts c))
  /\ st'.2 = Some (chunk_texts c).
Proof.
  destruct (chunk_texts c) as [|t ts] eqn:Ht.
  - cbn [last option_list]. rewrite app_nil_r. destruct (has_char "(" c) eqn:Hc.
    + pose proof (clause_step_group st c Ht Hc) as H.
      pose proof (clause_step_head st c) as (b & _ & Hb & Hstep).
      destruct (Hb Hc) as (x & b' & ->). rewrite Hstep. cbn zeta.
      rewrite Ht. cbn [length Nat.eqb]. clear H Hstep.
      destruct st.1 as [|e fc] eqn:Hfc; [done|]. cbn [update_last rbind].
      intros [= <-]. cbn [fst snd]. split; [|done].
      apply map_alter_same. intros d. by destruct (mentions d).
    + rewrite clause_step_blank by done. by intros [= <-].
  - destruct (clause_step_head st c) as (b & _ & _ & ->). cbn zeta.
    rewrite Ht. cbn [length Nat.eqb].
    destruct (last_item_elem (t :: ts)) as (lst & Hlast & Hin); [done|].
    rewrite Hlast. apply last_item_Some in Hlast. rewrite Hlast.
    rewrite <- Ht in Hin. apply chunk_texts_elem in Hin as (Hl & Hstrip & Hsemi).
    cbn [rbind]. rewrite (startswith_has_char ";") by done. cbn [negb].
    rewrite Hstrip, length_nonempty by done.
    intros [= <-]. cbn [fst snd option_list]. rewrite map_app. cbn [map].
    split; [|done]. by destruct b as [[|]|].
Qed.

Lemma omap_cons_option_list {A B : Type} (f : A -> option B) (x : A) (l : list A) :
  omap f (x :: l) = option_list (f x) ++ omap f l.
Proof. simpl. by destruct (f x). Qed.

Lemma clause_loop_texts (chunks : list string)
    (st st' : list Element * option (list string)) :
  foldM clause_step chunks st = Ok st' ->
  map element st'.1
  = map element st.1 ++ omap (fun c => last (chunk_texts c)) chunks
  /\ st'.2 = match last chunks with
             | Some c => Some (chunk_texts c)
             | None => st.2
             end.
Proof.
  revert st. induction chunks as [|c chunks IH]; intros st.
  - intros [= <-]. by rewrite app_nil_r.
  - cbn [foldM]. intros (st1 & H1 & H)%rbind_ok.
    apply clause_step_texts in H1 as [Ht1 Ha1]. apply IH in H as [Ht Ha].
    rewrite omap_cons_option_list, Ht, Ht1, <- app_assoc. split; [done|].
    rewrite last_cons, Ha, Ha1. by destruct (last chunks).
Qed.

Lemma filter_nonempty_all (l : list string) :
  Forall (fun x => x <> "") l -> filter (fun a => Py.nonempty a) l = l.
Proof.
  induction 1 as [|x l Hx _ IH]; [done|].
  rewrite filter_cons, IH. by destruct x.
Qed.

Lemma chunk_texts_Forall (c : string) :
  Forall (fun x => x <> "" /\ Py.strip x = x /\ has_char ";" x = false) (chunk_texts c).
Proof. apply Forall_forall. intros x. apply chunk_texts_elem. Qed.

Lemma conclusion_clauses_segments (ccl : string) (clauses : list Element) :
  conclusion_clauses ccl = Ok clauses ->
  map element clauses = segment_texts (clause_chunks ccl).
Proof.
  unfold conclusion_clauses, segment_texts.
  intros ([fc arts] & Hloop & H)%rbind_ok.
  apply clause_loop_texts in Hloop as [Ht Ha]. cbn [fst snd map app] in Ht, Ha.
  destruct arts as [arts|]; [|done].
  destruct (last (clause_chunks ccl)) as [c|]; [|done]. injection Ha as ->.
  destruct (Nat.ltb 1 (length (chunk_texts c))) eqn:Hlen; injection H as <-.
  - rewrite map_app, Ht, map_map. cbn [element new_element]. rewrite map_id.
    f_equal. apply filter_nonempty_all, Forall_but_last.
    eapply Forall_impl; [apply chunk_texts_Forall|]. by intros x [? _].
  - apply Nat.ltb_ge in Hlen. rewrite Ht.
    destruct (chunk_texts c) as [|? [|? ?]]; cbn in *; [by rewrite app_nil_r..|lia].
Qed.

Lemma Forall_filter_2 {A : Type} (P : A -> Prop) (Q : A -> Prop)
    `{!forall x, Decision (Q x)} (l : list A) :
  Forall P l -> Forall P (filter Q l).
Proof.
  intros Hl. apply Forall_forall. intros x [_ Hx]%list_elem_of_filter.
  rewrite Forall_forall in Hl. by apply Hl.
Qed.

(** No chunk contains [')']. *)
Lemma clause_chunks_no_close (ccl : string) :
  Forall (fun c => has_char ")" c = false) (clause_chunks ccl).
Proof.
  unfold clause_chunks. apply Forall_filter_2.
  assert (forall chunks acc : list string,
            Forall (fun c => has_char ")" c = false) chunks ->
            Forall (fun c => has_char ")" c = false) acc ->
            Forall (fun c => has_char ")" c = false)
                   (fold_left (fun art c =>
                                 if negb (Py.contains "(" c) then art ++ Py.split ";" c
                                 else art ++ [c]) chunks acc)) as Hfold.
  { induction chunks as [|c chunks IH]; intros acc Hch Hacc; [done|].
    apply Forall_cons in Hch as [Hc Hch]. cbn [fold_left]. apply IH; [done|].
    destruct (negb _); apply Forall_app; split; try done.
    - apply has_char_all in Hc. apply (all_chars_split _ ";") in Hc.
      eapply Forall_impl; [exact Hc|]. intros p. apply has_char_all.
    - by repeat constructor. }
  apply Hfold; [|constructor]. apply Forall_filter_2, Forall_forall.
  intros c. apply split_char_pieces.
Qed.

Lemma chunk_texts_clause_text (c x : string) :
  has_char ")" c = false -> x ∈ chunk_texts c -> clause_text x.
Proof.
  intros Hc Hx. destruct (chunk_texts_elem c x Hx) as (Hne & Hstrip & Hsemi).
  split; [done|]. split; [done|]. split; [done|].
  unfold chunk_texts in Hx. apply list_elem_of_filter in Hx as [_ Hx].
  apply list_elem_of_fmap in Hx as (p & -> & Hp).
  split; apply has_char_strip, has_char_all.
  - pose proof (all_chars_split (fun a => negb (Ascii.eqb a "(")) ";"
                  (before_first "(" c)) as H.
    rewrite Forall_forall in H. apply H; [|done]. apply has_char_all, before_first_self.
  - pose proof (all_chars_split (fun a => negb (Ascii.eqb a ")")) ";"
                  (before_first "(" c)) as H.
    rewrite Forall_forall in H. apply H; [|done].
    by apply has_char_all, has_char_before_first.
Qed.

Lemma elem_of_but_last {A : Type} (x : A) (l : list A) : x ∈ Py.but_last l -> x ∈ l.
Proof.
  unfold Py.but_last. rewrite removelast_firstn_len. intros H.
  eapply elem_of_sublist; [exact H|apply sublist_take].
Qed.

Lemma segment_texts_clause_text (ccl : string) :
  Forall clause_text (segment_texts (clause_chunks ccl)).
Proof.
  pose proof (clause_chunks_no_close ccl) as Hclose. rewrite Forall_forall in Hclose.
  unfold segment_texts. apply Forall_app. split.
  - apply Forall_forall. intros x (c & Hc & Hx)%list_elem_of_omap.
    apply (chunk_texts_clause_text c); [by apply Hclose|]. by apply last_Some_elem_of.
  - destruct (last (clause_chunks ccl)) as [c|] eqn:Hl; [|constructor].
    apply last_Some_elem_of in Hl. apply Forall_forall. intros x Hx%elem_of_but_last.
    apply (chunk_texts_clause_text c); [by apply Hclose|done].
Qed.

(** X8: whenever the segmentation returns, the element texts of its clauses are
    the last clause text of each chunk, in order, followed by the other
    clause texts of the last chunk: a clause text that is neither the last
    of its chunk nor in the last chunk is dropped. Every element text is
    trimmed, not empty, and free of [';'] and parentheses. *)
Theorem conclusion_clauses_texts (ccl : string) (clauses : list Element) :
  conclusion_clauses ccl = Ok clauses ->
  map element clauses = segment_texts (clause_chunks ccl)
  /\ Forall (fun e => clause_text (element e)) clauses.
Proof.
  intros H%conclusion_clauses_segments. split; [done|].
  pose proof (segment_texts_clause_text ccl) as Ht. rewrite <- H in Ht.
  rewrite Forall_forall in Ht. apply Forall_forall. intros e He.
  apply Ht, list_elem_of_fmap. by exists e.
Qed.

Lemma conclusion_clauses_texts_witness :
  exists clauses,
    conclusion_clauses
      "Violation of Art. 3; Violation of Art. 5 (Article 5-1); Violation of Art. 6"
    = Ok clauses
    /\ map element clauses = ["Violation of Art. 5"; "Violation of Art. 6"].
Proof.
  eexists. split; [vm_compute; reflexivity|].
  match goal with
  | |- map element ?l = _ =>
      rewrite (proj1 (conclusion_clauses_texts
        "Violation of Art. 3; Violation of Art. 5 (Article 5-1); Violation of Art. 6"
        l eq_refl))
  end.
  vm_compute. reflexivity.
Defined.

(** *** Narratives without parenthesis *)

Lemma chunk_texts_plain (p : string) :
  has_char ";" p = false -> has_char "(" p = false ->
  chunk_texts p = filter (fun a => Py.nonempty a) [Py.strip p].
Proof.
  intros H1 H2. unfold chunk_texts.
  by rewrite before_first_none, split_char_none by done.
Qed.

Lemma clause_step_plain (st : list Element * option (list string)) (p : string) :
  has_char ";" p = false -> has_char "(" p = false ->
  clause_step st p
  = Ok (st.1 ++ map new_element (filter (fun a => Py.nonempty a) [Py.strip p]),
        Some (chunk_texts p)).
Proof.
  intros H1 H2. pose proof (chunk_texts_plain p H1 H2) as Ht.
  destruct (Py.strip p) as [|a s] eqn:Hs.
  - rewrite clause_step_blank by done. cbn. by rewrite app_nil_r, Ht.
  - rewrite filter_nonempty_singleton in Ht |- * by done.
    destruct (clause_step_head st p) as (b & Hb & _ & ->). cbn zeta.
    rewrite (Hb H2), Ht. cbn [length Nat.eqb Py.last_item last rbind].
    rewrite (startswith_has_char ";")
      by (rewrite <- Hs; by apply has_char_strip).
    cbn [negb]. rewrite <- Hs, strip_idem, Hs. done.
Qed.

Lemma clause_loop_plain (chunks : list string)
    (st : list Element * option (list string)) :
  Forall (fun p => has_char ";" p = false /\ has_char "(" p = false) chunks ->
  foldM clause_step chunks st
  = Ok (st.1 ++ map new_element
                    (filter (fun a => Py.nonempty a) (map Py.strip chunks)),
        match last chunks with
        | Some c => Some (chunk_texts c)
        | None => st.2
        end).
Proof.
  intros H. revert st. induction H as [|p chunks [H1 H2] _ IH]; intros st.
  - cbn. rewrite app_nil_r. by destruct st.
  - cbn [foldM]. rewrite clause_step_plain by done. cbn [rbind].
    rewrite IH. cbn [fst snd map]. rewrite last_cons. f_equal. f_equal.
    + rewrite <- app_assoc, <- map_app. f_equal. f_equal.
      rewrite (filter_cons _ (Py.strip p)). rewrite filter_cons, filter_nil.
      by destruct (decide _).
    + by destruct (last chunks).
Qed.

Lemma filter_strip_nonempty (l : list string) :
  filter (fun a => Py.nonempty a) (map Py.strip (filter (fun a => Py.nonempty a) l))
  = filter (fun a => Py.nonempty a) (map Py.strip l).
Proof.
  induction l as [|x l IH]; [done|]. rewrite filter_cons.
  destruct x as [|a x]; [by rewrite decide_False by (by intros [])|].
  rewrite decide_True by done. cbn [map]. by rewrite !filter_cons, IH.
Qed.

Lemma clause_chunks_plain (ccl : string) :
  has_char "(" ccl = false -> has_char ")" ccl = false ->
  clause_chunks ccl = filter (fun a => Py.nonempty a) (Py.split ";" ccl).
Proof.
  intros H1 H2. unfold clause_chunks. rewrite (split_char_none ")") by done.
  destruct ccl as [|a s]; [done|].
  rewrite filter_nonempty_singleton by done. cbn [fold_left app].
  by rewrite contains_char, H1.
Qed.

(** X9: a narrative without parenthesis is cut at every [';']: each piece that
    is not blank gives one clause, whose text is the trimmed piece and which
    has no details; the narrative raises [UnboundLocalError] when all its
    pieces are empty. *)
Theorem conclusion_clauses_plain (ccl : string) :
  has_char "(" ccl = false -> has_char ")" ccl = false ->
  conclusion_clauses ccl
  = match filter (fun a => Py.nonempty a) (Py.split ";" ccl) with
    | [] => Raise UnboundLocalError
    | _ :: _ =>
        Ok (map new_element
              (filter (fun a => Py.nonempty a) (map Py.strip (Py.split ";" ccl))))
    end.
Proof.
  intros H1 H2. unfold conclusion_clauses. rewrite clause_chunks_plain by done.
  rewrite clause_loop_plain.
  2:{ apply Forall_filter_2, Forall_forall. intros p Hp. split.
      - by apply (split_char_pieces ";" ccl).
      - apply has_char_all.
        pose proof (all_chars_split (fun a => negb (Ascii.eqb a "(")) ";" ccl) as H.
        rewrite Forall_forall in H. apply H; [by apply has_char_all|done]. }
  cbn [rbind fst snd app]. rewrite filter_strip_nonempty.
  destruct (filter (fun a => Py.nonempty a) (Py.split ";" ccl)) as [|c chunks] eqn:Hch;
    [done|].
  assert (exists p, last (c :: chunks) = Some p /\ p ∈ c :: chunks) as (p & Hl & Hp).
  { destruct (last (c :: chunks)) as [p|] eqn:Hl; [|by apply last_None in Hl].
    exists p. split; [done|]. by apply last_Some_elem_of. }
  rewrite Hl. rewrite <- Hch in Hp. apply list_elem_of_filter in Hp as [_ Hp].
  rewrite chunk_texts_plain.
  - rewrite filter_cons, filter_nil. by destruct (decide _).
  - by apply (split_char_pieces ";" ccl).
  - apply has_char_all.
    pose proof (all_chars_split (fun a => negb (Ascii.eqb a "(")) ";" ccl) as H.
    rewrite Forall_forall in H. apply H; [by apply has_char_all|done].
Qed.

Lemma conclusion_clauses_plain_witness :
  conclusion_clauses "Violation of Art. 3;  ; No violation of Art. 13 "
  = Ok [new_element "Violation of Art. 3"; new_element "No violation of Art. 13"].
Proof.
  rewrite conclusion_clauses_plain by reflexivity. reflexivity.
Defined.

(** ** The narratives on which the parser returns *)

Lemma item_m2_length {A : Type} (l : list A) :
  is_ok (Py.item_m2 l) = Nat.leb 2 (length l).
Proof.
  unfold Py.item_m2. rewrite <- (length_rev l).
  by destruct (rev l) as [|? [|? ?]].
Qed.

(** The protocol article is found exactly when the text has the words it is
    made of. *)
Lemma protocol_article_words (text : string) :
  is_ok (protocol_article text) = protocol_words (Py.lower text).
Proof.
  unfold protocol_article, protocol_words.
  pose proof (split_nonempty "protocol no." (Py.lower text)) as Hne.
  destruct (Py.split "protocol no." (Py.lower text)) as [|p0 [|p1 rest]]; [done| |].
  - cbn [Py.item lookup list_lookup rbind].
    destruct (Py.item_m2 (Py.words p0)); done.
  - cbn [Py.item lookup list_lookup rbind].
    pose proof (item_m2_length (Py.words p0)) as H0.
    destruct (Py.item_m2 (Py.words p0)) as [f1|]; cbn [is_ok rbind] in *;
      rewrite <- H0; [|done].
    by destruct (Py.words p1).
Qed.

(** A word has no whitespace. *)
Lemma words_no_space (s : string) :
  Forall (fun w => all_chars (fun c => negb (Py.isspace c)) w = true) (Py.words s).
Proof.
  induction s as [|c s IH]; [constructor|]. cbn [Py.words].
  destruct (Py.isspace c) eqn:Hc; [done|].
  destruct s as [|c' s']; [repeat constructor; cbn; by rewrite Hc|].
  destruct (Py.isspace c') eqn:Hc'.
  - constructor; [cbn; by rewrite Hc|done].
  - apply all_chars_cons_head; [by rewrite Hc|done].
Qed.

Lemma lower_char_space (c : ascii) :
  Ascii.eqb (Py.lower_char c) " " = Ascii.eqb c " ".
Proof. destruct c as [[] [] [] [] [] [] [] []]; reflexivity. Qed.

Lemma lower_char_dot (c : ascii) :
  Ascii.eqb (Py.lower_char c) "." = Ascii.eqb c ".".
Proof. destruct c as [[] [] [] [] [] [] [] []]; reflexivity. Qed.

Lemma startswith_cons (a c : ascii) (s p : string) :
  Py.startswith (String a s) (String c p) = Ascii.eqb a c && Py.startswith s p.
Proof.
  unfold Py.startswith. simpl. destruct (ascii_dec c a) as [->|Hne].
  - by rewrite Ascii.eqb_refl.
  - apply not_eq_sym, Ascii.eqb_neq in Hne. by rewrite Hne.
Qed.

Lemma startswith_nil (p : string) : Py.startswith "" p = negb (Py.nonempty p).
Proof. by destruct p. Qed.

(** For a word that starts with ["art"], the test of the code for the form
    ["art.X"] is the test on the word itself. *)
Lemma art_dot_test (a : string) :
  all_chars (fun c => negb (Py.isspace c)) a = true ->
  Py.startswith a "art" = true ->
  Py.startswith (Py.lower a) "art."
  && negb (Py.startswith (Py.lower a) "art. ")
  && Nat.ltb 4 (String.length a)
  = Py.startswith a "art." && Nat.ltb 4 (String.length a).
Proof.
  intros Hsp Hart.
  destruct a as [|c1 a]; [done|]. rewrite startswith_cons in Hart.
  apply andb_true_iff in Hart as [->%Ascii.eqb_eq Hart].
  destruct a as [|c2 a]; [done|]. rewrite startswith_cons in Hart.
  apply andb_true_iff in Hart as [->%Ascii.eqb_eq Hart].
  destruct a as [|c3 a]; [done|]. rewrite startswith_cons in Hart.
  apply andb_true_iff in Hart as [->%Ascii.eqb_eq _].
  destruct a as [|c4 a]; [done|].
  cbn [Py.lower]. rewrite !startswith_cons, lower_char_dot.
  change (Py.lower_char "a") with "a"%char.
  change (Py.lower_char "r") with "r"%char.
  change (Py.lower_char "t") with "t"%char.
  rewrite !Ascii.eqb_refl. cbn [andb].
  destruct (Ascii.eqb c4 ".") eqn:H4; [|done]. cbn [andb].
  destruct a as [|c5 a]; [done|].
  cbn [Py.lower]. rewrite !startswith_cons, lower_char_space.
  cbn [all_chars] in Hsp. rewrite !andb_true_iff in Hsp.
  destruct Hsp as (_ & _ & _ & _ & H5 & _).
  destruct (Ascii.eqb c5 " ") eqn:Hc5.
  - apply Ascii.eqb_eq in Hc5 as ->. done.
  - cbn [andb negb]. unfold Py.startswith. by rewrite !prefix_empty.
Qed.

(** The search for the article string returns exactly when the first word
    that starts with ["art"] is followed by a word or has the form
    ["art.X"]. *)
Lemma find_art_words (b : list string) :
  Forall (fun w => all_chars (fun c => negb (Py.isspace c)) w = true) b ->
  is_ok (find_art b) = article_word b.
Proof.
  unfold article_word. induction 1 as [|a rest Ha _ IH]; [done|].
  cbn [find_art list_find length]. 
  destruct (Py.startswith a "art") eqn:Hart.
  - rewrite decide_True by done. rewrite (art_dot_test a Ha Hart).
    set (t := Py.startswith a "art." && Nat.ltb 4 (String.length a)).
    destruct rest as [|nxt rest].
    + change (Nat.ltb 1 (length [a])) with false. by destruct t.
    + change (Nat.ltb 1 (length (a :: nxt :: rest))) with true. by destruct t.
  - rewrite decide_False by done. rewrite IH.
    destruct (list_find _ rest) as [[j w]|]; [|done]. done.
Qed.

(** The classification of an element text returns exactly on the texts
    described by [classifiable_text]. *)
Lemma classifiable_words (text : string) :
  classifiable text = classifiable_text text.
Proof.
  unfold classifiable, classifiable_text. cbn zeta.
  rewrite protocol_article_words, find_art_words by apply words_no_space.
  done.
Qed.

(** C1, as amended: the parser is not total, and it returns a list on every
    narrative that has a chunk, where no chunk with a parenthesis and
    without clause text comes before the first clause text, and where every
    element text of the segmentation has the words that its classification
    reads. An unmatched ['('] is not treated apart: in a narrative [x(d]
    without any other parenthesis, where [x] has no [';'] and is not blank,
    the text [d] is split on [';'] into the details of the single clause
    [x]. *)
Theorem C1_parser_domain :
  (forall ccl,
      clause_chunks ccl <> [] ->
      group_before_text (clause_chunks ccl) = false ->
      forallb classifiable_text (segment_texts (clause_chunks ccl)) = true ->
      exists l, format_conclusion ccl = Ok l)
  /\ (forall x d,
        has_char "(" x = false -> has_char ")" x = false -> has_char ";" x = false ->
        has_char "(" d = false -> has_char ")" d = false ->
        Py.strip x <> "" ->
        conclusion_clauses (x +:+ "(" +:+ d)
        = Ok [set_details (Py.split ";" d) (new_element (Py.strip x))]).
Proof.
  split; [|apply conclusion_clauses_unmatched].
  intros ccl Hne Hgroup Htexts.
  pose proof (conclusion_clauses_domain ccl) as Hd.
  destruct (conclusion_clauses ccl) as [clauses|err] eqn:Hcl.
  - pose proof (format_conclusion_classifies ccl clauses Hcl) as Hc.
    pose proof (conclusion_clauses_segments ccl clauses Hcl) as Hseg.
    destruct (format_conclusion ccl) as [l|err]; [by exists l|].
    destruct Hc as [Hc _]. rewrite <- Hseg in Htexts.
    rewrite forallb_forall in Htexts.
    apply Bool.not_true_iff_false in Hc. destruct Hc.
    apply forallb_forall. intros e He. rewrite classifiable_words.
    apply Htexts, in_map, He.
  - destruct Hd as [[Hd _]|[Hd _]]; congruence.
Qed.

Lemma C1_parser_domain_witness :
  (exists l,
     format_conclusion
       "Violation of Art. 6-1 (Fair hearing);No violation of Article 1 of Protocol No. 1;Remainder inadmissible"
     = Ok l)
  /\ conclusion_clauses "Violation of Article 3 (abc;de"
     = Ok [mkElement "Violation of Article 3" None None None (Some ["abc"; "de"]) None].
Proof.
  split.
  - apply (proj1 C1_parser_domain);
      [discriminate|reflexivity|reflexivity].
  - exact (proj2 C1_parser_domain "Violation of Article 3 " "abc;de"
             eq_refl eq_refl eq_refl eq_refl eq_refl ltac:(discriminate)).
Defined.

(** C1 as stated fails: the parser raises on a narrative that opens with a
    parenthesis, and it takes the text after an unmatched ['('] for the
    details of the clause. *)
Lemma C1_counterexample :
  format_conclusion "(a)" = Raise IndexError
  /\ format_conclusion "Violation of Article 3 (abc"
     = Ok [ mkElement "Violation of Article 3" (Some violation) (Some "3") (Some "3")
              (Some ["abc"]) None ].
Proof. split; vm_compute; reflexivity. Qed.

Example format_conclusion_raises :
  format_conclusion "" = Raise UnboundLocalError
  /\ format_conclusion "Violation of Article" = Raise IndexError
  /\ format_conclusion "Violation of Protocol 1" = Raise IndexError.
Proof. repeat split; vm_compute; reflexivity. Qed.

(** ** The elements of a clause *)

Lemma mapM_r_app {A B : Type} (f : A -> result B) (l1 l2 : list A) (ys1 ys2 : list B) :
  mapM_r f l1 = Ok ys1 -> mapM_r f l2 = Ok ys2 ->
  mapM_r f (l1 ++ l2) = Ok (ys1 ++ ys2).
Proof.
  revert ys1. induction l1 as [|x l1 IH]; intros ys1.
  - by intros [= <-].
  - cbn [mapM_r app]. intros (y & -> & H)%rbind_ok.
    apply rbind_ok in H as (ys & H1 & [= <-]). intros H2. cbn [rbind].
    by rewrite (IH ys H1 H2).
Qed.

Lemma resolve_items (final_ccl : list Element) (cur : Element) (tokens : list string) :
  mapM_r (resolve final_ccl) (items_of cur tokens)
  = Ok (map (fun art => set_base_article (resolve_spec art) (set_article art cur))
            tokens).
Proof.
  unfold items_of. induction tokens as [|t tokens IH]; [done|].
  cbn [map mapM_r resolve rbind]. by rewrite IH.
Qed.

Lemma resolve_own (final_ccl : list Element) (i : nat) (t : ElemType) (d : Element) :
  final_ccl !! i = Some d ->
  mapM_r (resolve final_ccl) (own_entry i t)
  = Ok (if decide (t = other) then [d] else []).
Proof.
  intros Hd. unfold own_entry. destruct (decide (t = other)); [|done].
  cbn [mapM_r resolve]. unfold Py.item. by rewrite Hd.
Qed.

(** What [format_conclusion_elements] returns for a clause that has no
    article yet, once its entries are read in a store that holds the
    clause as it leaves it. *)
Lemma format_conclusion_elements_exact (i : nat) (e : Element)
    (final_ccl : list Element) :
  final_ccl !! i = Some e -> article e = None ->
  match clause_elements e with
  | Ok part =>
      exists fc1 more d,
        format_conclusion_elements i e final_ccl = Ok (fc1, more)
        /\ length fc1 = length final_ccl
        /\ (forall j, j <> i -> fc1 !! j = final_ccl !! j)
        /\ fc1 !! i = Some d
        /\ forall fc2, fc2 !! i = Some d -> mapM_r (resolve fc2) more = Ok part
  | Raise err => format_conclusion_elements i e final_ccl = Raise err
  end.
Proof.
  intros Hi Ha. unfold clause_elements.
  destruct (Py.contains "protocol" (Py.lower (element e))) eqn:Hp.
  - destruct (protocol_article (element e)) as [tok|err] eqn:Htok; cbn [rbind].
    + rewrite (format_conclusion_elements_protocol i e final_ccl tok) by done.
      eexists _, _, _. split; [reflexivity|]. split; [by rewrite !length_alter|].
      split; [intros j Hj; by rewrite !list_lookup_alter_ne|].
      split; [by rewrite !list_lookup_alter_eq, Hi|].
      intros fc2 Hd. apply mapM_r_app; [by apply resolve_own|apply resolve_items].
    + unfold format_conclusion_elements. by rewrite Hp, Htok.
  - destruct (decide (clause_type e = other)) as [Ht|Ht].
    + rewrite format_conclusion_elements_other by done.
      eexists _, _, _. split; [reflexivity|]. split; [by rewrite length_alter|].
      split; [intros j Hj; by rewrite list_lookup_alter_ne|].
      split; [by rewrite list_lookup_alter_eq, Hi|].
      intros fc2 Hd. cbn [mapM_r resolve]. unfold Py.item. by rewrite Hd.
    + rewrite format_conclusion_elements_search by done.
      destruct (find_art _) as [art|err]; cbn [rbind]; [|done].
      eexists _, _, _. split; [reflexivity|]. split; [by rewrite length_alter|].
      split; [intros j Hj; by rewrite list_lookup_alter_ne|].
      split; [by rewrite list_lookup_alter_eq, Hi|].
      intros fc2 _. destruct art; [apply resolve_items|done].
Qed.

Lemma drop_S_agree {A : Type} (i : nat) (l1 l2 : list A) :
  (forall j, j <> i -> l1 !! j = l2 !! j) -> drop (S i) l1 = drop (S i) l2.
Proof.
  intros H. apply list_eq. intros j. rewrite !lookup_drop. apply H. lia.
Qed.

(** The loop that classifies the clauses from the [i]-th on. *)
Lemma classify_loop_exact (k i : nat) (final_ccl : list Element)
    (to_append : list entry) :
  i + k = length final_ccl ->
  (forall j e, i <= j -> final_ccl !! j = Some e -> article e = None) ->
  match mapM_r clause_elements (drop i final_ccl) with
  | Ok parts =>
      exists fc' more,
        foldM (fun '(final_ccl, to_append) i =>
                 e <- Py.item final_ccl i ;;
                 r <- format_conclusion_elements i e final_ccl ;;
                 Ok (fst r, to_append ++ snd r))
              (seq i k) (final_ccl, to_append)
        = Ok (fc', to_append ++ more)
        /\ length fc' = length final_ccl
        /\ (forall j, j < i -> fc' !! j = final_ccl !! j)
        /\ forall fc2, (forall j, i <= j -> fc2 !! j = fc' !! j) ->
                       mapM_r (resolve fc2) more = Ok (concat parts)
  | Raise err =>
      foldM (fun '(final_ccl, to_append) i =>
               e <- Py.item final_ccl i ;;
               r <- format_conclusion_elements i e final_ccl ;;
               Ok (fst r, to_append ++ snd r))
            (seq i k) (final_ccl, to_append)
      = Raise err
  end.
Proof.
  revert i final_ccl to_append.
  induction k as [|k IH]; intros i fc ta Hlen Hart.
  - rewrite drop_ge by lia. cbn [mapM_r seq foldM].
    exists fc, []. split; [by rewrite app_nil_r|]. split; [done|]. split; [done|].
    by intros.
  - destruct (lookup_lt_is_Some_2 fc i) as [e Hi]; [lia|].
    rewrite (drop_S _ _ _ Hi). cbn [mapM_r].
    match goal with |- context [foldM ?f _ _] => set (F := f) in * end.
    assert (foldM F (seq i (S k)) (fc, ta)
            = (r <- format_conclusion_elements i e fc ;;
               foldM F (seq (S i) k) (fst r, ta ++ snd r))) as Hfold.
    { cbn [seq foldM]. unfold F at 1. unfold Py.item. rewrite Hi. cbn [rbind].
      by destruct (format_conclusion_elements i e fc). }
    rewrite !Hfold. clear Hfold.
    pose proof (format_conclusion_elements_exact i e fc Hi (Hart i e (le_n _) Hi)) as Hstep.
    destruct (clause_elements e) as [part|err]; cbn [rbind].
    2:{ by rewrite Hstep. }
    destruct Hstep as (fc1 & more1 & d & -> & Hlen1 & Hother & Hd & Hres1).
    cbn [rbind fst snd].
    specialize (IH (S i) fc1 (ta ++ more1)).
    rewrite (drop_S_agree i fc1 fc Hother) in IH.
    destruct (mapM_r clause_elements (drop (S i) fc)) as [parts|err]; cbn [rbind].
    + destruct IH as (fc' & more & -> & Hlen' & Hbelow & Hres); [lia| |].
      { intros j e' Hj He'. rewrite Hother in He' by lia. apply (Hart j); [lia|done]. }
      exists fc', (more1 ++ more). split; [by rewrite app_assoc|].
      split; [lia|]. split.
      { intros j Hj. rewrite Hbelow by lia. apply Hother. lia. }
      intros fc2 Hfc2. cbn [concat]. apply mapM_r_app.
      * apply Hres1. rewrite Hfc2 by lia. rewrite Hbelow by lia. done.
      * apply Hres. intros j Hj. apply Hfc2. lia.
    + apply IH; [lia|].
      intros j e' Hj He'. rewrite Hother in He' by lia. apply (Hart j); [lia|done].
Qed.

Lemma classify_clauses_exact (clauses : list Element) :
  Forall (fun e => article e = None) clauses ->
  match mapM_r clause_elements clauses with
  | Ok parts =>
      exists fc to_append,
        classify_clauses clauses = Ok (fc, to_append)
        /\ mapM_r (resolve fc) to_append = Ok (concat parts)
  | Raise err => classify_clauses clauses = Raise err
  end.
Proof.
  intros Hart. unfold classify_clauses.
  assert (forall j e, 0 <= j -> clauses !! j = Some e -> article e = None) as Hart'.
  { intros j e _ He. rewrite Forall_forall in Hart. apply Hart.
    by eapply list_elem_of_lookup_2. }
  pose proof (classify_loop_exact (length clauses) 0 clauses [] eq_refl Hart') as Hloop.
  change (drop 0 clauses) with clauses in Hloop.
  destruct (mapM_r clause_elements clauses) as [parts|err]; [|done].
  destruct Hloop as (fc' & more & Hfold & _ & _ & Hres).
  exists fc', more. split; [done|]. by apply Hres.
Qed.

(** X10: [format_conclusion] treats every clause of the segmentation by itself:
    its result is the merge of the elements that each clause gives, in
    order, and it raises what the first clause that cannot be classified
    raises. *)
Theorem format_conclusion_by_clause (ccl : string) :
  format_conclusion ccl
  = (clauses <- conclusion_clauses ccl ;;
     parts <- mapM_r clause_elements clauses ;;
     Ok (merge_conclusion_elements (concat parts))).
Proof.
  unfold format_conclusion. pose proof (conclusion_clauses_domain ccl) as Hd.
  destruct (conclusion_clauses ccl) as [clauses|err]; cbn [rbind]; [|done].
  destruct Hd as (_ & _ & Hart).
  pose proof (classify_clauses_exact clauses Hart) as Hcl.
  destruct (mapM_r clause_elements clauses) as [parts|err]; cbn [rbind].
  - destruct Hcl as (fc & to_append & -> & Hres). cbn [rbind]. by rewrite Hres.
  - by rewrite Hcl.
Qed.

(** ** What every parsed element satisfies *)

Lemma update_parsed (d e : Element) :
  parsed_element d -> parsed_element e -> parsed_element (update d e).
Proof.
  intros [_ (td & Htd & Hd)] [Htext (te & Hte & He)].
  split; [done|]. exists te. cbn [update type article base_article].
  rewrite Hte. split; [done|]. intros Hne. destruct (He Hne) as [[a ->] [b ->]].
  split; by eexists.
Qed.

Lemma merge_step_Forall (P : Element -> Prop)
    (final_elements : list (string * Element)) (e : Element) :
  (forall d e, P d -> P e -> P (update d e)) ->
  Forall (fun kv => P kv.2) final_elements -> P e ->
  Forall (fun kv => P kv.2) (merge_step final_elements e).
Proof.
  intros Hupd Hd He. unfold merge_step.
  assert (forall d' : list (string * Element),
            Forall (fun kv => P kv.2) d' ->
            Forall (fun kv => P kv.2)
                   (dict_alter (fun d => update d e) (merge_key e) d')) as Halter.
  { induction 1 as [|[k v] d' Hv Hd' IH]; [constructor|].
    cbn [dict_alter]. destruct (String.eqb k (merge_key e)).
    - constructor; [|done]. cbn [snd]. by apply Hupd.
    - by constructor. }
  apply Halter. destruct (dict_get (merge_key e) final_elements) eqn:Hg; [done|].
  unfold dict_set. rewrite Hg. apply Forall_app. split; [done|]. by repeat constructor.
Qed.

Lemma merge_conclusion_elements_Forall (P : Element -> Prop) (elements : list Element) :
  (forall d e, P d -> P e -> P (update d e)) ->
  Forall P elements -> Forall P (merge_conclusion_elements elements).
Proof.
  intros Hupd Hes. unfold merge_conclusion_elements. apply Forall_fmap.
  assert (forall d0 : list (string * Element),
            Forall (fun kv => P kv.2) d0 ->
            Forall (fun kv => P kv.2) (fold_left merge_step elements d0)) as H.
  { induction Hes as [|e es He _ IH]; intros d0 Hd0; [done|].
    cbn [fold_left]. apply IH. by apply merge_step_Forall. }
  apply (H []). constructor.
Qed.

Lemma clause_elements_parsed (e : Element) (part : list Element) :
  clause_text (element e) -> clause_elements e = Ok part -> Forall parsed_element part.
Proof.
  intros Htext. unfold clause_elements.
  assert (forall t cur, element cur = element e -> type cur = Some t ->
            forall toks,
              Forall parsed_element
                (map (fun art => set_base_article (resolve_spec art) (set_article art cur))
                     toks)) as Hitems.
  { intros t cur Hel Ht toks. apply Forall_fmap, Forall_forall. intros art _.
    split; [cbn; by rewrite Hel|]. exists t. cbn. split; [done|]. intros _.
    split; by eexists. }
  destruct (Py.contains "protocol" (Py.lower (element e))).
  - intros (tok & _ & H)%rbind_ok. apply Ok_inj in H as <-. apply Forall_app. split.
    + destruct (decide (clause_type e = other)) as [Ht|Ht]; [|constructor].
      constructor; [|constructor]. split; [done|]. exists other. cbn. by rewrite Ht.
    + by apply (Hitems (clause_type e)).
  - destruct (decide (clause_type e = other)) as [Ht|Ht].
    + intros [= <-]. constructor; [|constructor]. split; [done|]. by exists other.
    + intros ([art|] & _ & H)%rbind_ok; apply Ok_inj in H as <-; [|constructor].
      by apply (Hitems (clause_type e)).
Qed.

Lemma clause_elements_all_parsed (clauses : list Element) (parts : list (list Element)) :
  Forall (fun e => clause_text (element e)) clauses ->
  mapM_r clause_elements clauses = Ok parts ->
  Forall parsed_element (concat parts).
Proof.
  intros Ht Hparts. apply Forall_concat. revert parts Hparts.
  induction Ht as [|e clauses He _ IH]; intros parts.
  - intros [= <-]. constructor.
  - cbn [mapM_r]. intros (part & Hpart & H)%rbind_ok.
    apply rbind_ok in H as (parts' & Hparts' & [= <-]).
    constructor; [by eapply clause_elements_parsed|by apply IH].
Qed.

(** X11: every element that [format_conclusion] returns has a text that is not
    empty, trimmed and free of [';'] and parentheses, and has a type; and
    an element of type violation or no-violation carries an article and a
    base article (a clause of one of these types in which no article is
    found gives no element). *)
Theorem format_conclusion_parsed (ccl : string) (l : list Element) :
  format_conclusion ccl = Ok l -> Forall parsed_element l.
Proof.
  unfold format_conclusion. intros (clauses & Hcl & H)%rbind_ok.
  apply rbind_ok in H as ([fc to_append] & Hclass & H).
  apply rbind_ok in H as (es & Hes & H). apply Ok_inj in H as <-.
  pose proof (conclusion_clauses_domain ccl) as Hd. rewrite Hcl in Hd.
  destruct Hd as (_ & _ & Hart).
  pose proof (classify_clauses_exact clauses Hart) as Hex.
  destruct (mapM_r clause_elements clauses) as [parts|err] eqn:Hparts; [|congruence].
  destruct Hex as (fc' & ta' & Hclass' & Hres).
  assert (es = concat parts) as -> by congruence.
  apply merge_conclusion_elements_Forall; [apply update_parsed|].
  apply (clause_elements_all_parsed clauses); [|done].
  apply conclusion_clauses_segments in Hcl.
  pose proof (segment_texts_clause_text ccl) as Ht. rewrite <- Hcl in Ht.
  rewrite Forall_forall in Ht. apply Forall_forall. intros e He.
  apply Ht, list_elem_of_fmap. by exists e.
Qed.

Lemma format_conclusion_parsed_witness :
  exists l,
    format_conclusion "Violation of Art. 6-1; Remainder inadmissible (Art. 35)" = Ok l
    /\ Forall parsed_element l.
Proof.
  assert (is_ok (format_conclusion
                   "Violation of Art. 6-1; Remainder inadmissible (Art. 35)") = true)
    as Hok by (vm_compute; reflexivity).
  destruct (format_conclusion _) as [l|e] eqn:E; [|discriminate Hok].
  exists l. split; [reflexivity|]. exact (format_conclusion_parsed _ l E).
Defined.

(** ** The tally *)

Lemma foldM_app {A S : Type} (f : S -> A -> result S) (l1 l2 : list A) (s : S) :
  foldM f (l1 ++ l2) s = (s' <- foldM f l1 s ;; foldM f l2 s').
Proof.
  revert s. induction l1 as [|x l1 IH]; intros s; [done|].
  cbn [app foldM]. destruct (f s x); [cbn [rbind]; apply IH|done].
Qed.

Lemma foldM_pair {S : Type} (f : nat -> S -> Element -> result S) (r : nat)
    (ccl : list Element) (s : S) :
  foldM (fun st (re : nat * Element) => f re.1 st re.2) (map (pair r) ccl) s
  = foldM (f r) ccl s.
Proof.
  revert s. induction ccl as [|e ccl IH]; intros s; [done|].
  cbn [map foldM fst snd]. destruct (f r s e); [cbn [rbind]; apply IH|done].
Qed.

(** The two loops of the tally are one loop over the elements. *)
Lemma tally_flat (n : nat) (cases : list Case) (st : tally_state) :
  foldM (fun st '(r, c) => foldM (tally_element r) (conclusion c) st)
        (zip (seq n (length cases)) cases) st
  = foldM (fun st (re : nat * Element) => tally_element re.1 st re.2)
          (events_from n cases) st.
Proof.
  revert n st. induction cases as [|c cases IH]; intros n st; [done|].
  cbn [length seq zip zip_with foldM events_from].
  rewrite foldM_app, foldM_pair.
  destruct (foldM (tally_element n) (conclusion c) st); [cbn [rbind]; apply IH|done].
Qed.

Lemma tally_element_step (r : nat) (st st' : tally_state) (e : Element) :
  tally_element r st e = Ok st' ->
  st' = match outcome_of e with
        | Some (a, b) =>
            (dict_upsert (bump (if b then violation else no_violation)) a
                         (mkTally 0 0 0) st.1,
             dict_upsert (fun l => l ++ [r]) a [] st.2)
        | None => st
        end.
Proof.
  destruct st as [outcomes cpa]. unfold tally_element, gettype, outcome_of.
  destruct (type e) as [[]|]; [| | |done]; cbn [rbind];
    match goal with
    | |- context [is_outcome ?t] =>
        let b := eval vm_compute in (is_outcome t) in
        change (is_outcome t) with b
    end; cbn [rbind]; destruct (article e); by intros [= <-].
Qed.

Lemma dict_upsert_keys {V : Type} (f : V -> V) (a : string) (v : V)
    (d : list (string * V)) :
  map fst (dict_upsert f a v d)
  = if decide (a ∈ map fst d) then map fst d else map fst d ++ [a].
Proof.
  assert (forall d' : list (string * V), map fst (dict_alter f a d') = map fst d') as Halter.
  { induction d' as [|[k x] d' IH]; [done|]. cbn [dict_alter].
    destruct (String.eqb k a); cbn [map fst]; [done|]. by rewrite IH. }
  unfold dict_upsert. rewrite Halter.
  destruct (dict_get a d) as [x|] eqn:Hg.
  - rewrite decide_True; [done|].
    destruct (decide (a ∈ map fst d)) as [|Hn]; [done|].
    apply dict_get_None in Hn. congruence.
  - rewrite decide_False by (by apply dict_get_None).
    rewrite dict_set_fresh by done. by rewrite map_app.
Qed.

Lemma dict_upsert_NoDup {V : Type} (f : V -> V) (a : string) (v : V)
    (d : list (string * V)) :
  NoDup (map fst d) -> NoDup (map fst (dict_upsert f a v d)).
Proof.
  intros H. rewrite dict_upsert_keys. destruct (decide _) as [|Hn]; [done|].
  apply NoDup_app. split; [done|]. split; [|apply NoDup_singleton].
  intros x Hx ->%list_elem_of_singleton. done.
Qed.

Lemma event_count_snoc (a : string) (b : bool) (evs : list (nat * Element))
    (re : nat * Element) :
  event_count a b (evs ++ [re])
  = event_count a b evs + (if decide (outcome_of re.2 = Some (a, b)) then 1 else 0).
Proof.
  unfold event_count. rewrite filter_app, length_app, filter_cons, filter_nil.
  by destruct (decide _).
Qed.

Lemma event_refs_snoc (a : string) (evs : list (nat * Element)) (re : nat * Element) :
  event_refs a (evs ++ [re])
  = event_refs a evs
    ++ (if decide (fst <$> outcome_of re.2 = Some a) then [re.1] else []).
Proof.
  unfold event_refs. rewrite filter_app, map_app, filter_cons, filter_nil.
  by destruct (decide _).
Qed.

Lemma event_refs_length (a : string) (evs : list (nat * Element)) :
  length (event_refs a evs) = event_count a true evs + event_count a false evs.
Proof.
  induction evs as [|re evs IH] using rev_ind; [done|].
  rewrite event_refs_snoc, !event_count_snoc, length_app, IH.
  destruct (outcome_of re.2) as [[a' []]|]; cbn [fmap option_fmap option_map fst];
    repeat (destruct (decide _); simplify_eq); cbn [length]; lia.
Qed.

Lemma tally_entry_bump (v n : nat) (b : bool) :
  Some (bump (if b then violation else no_violation)
             (default (mkTally 0 0 0) (tally_entry v n)))
  = tally_entry (v + (if b then 1 else 0)) (n + (if b then 0 else 1)).
Proof.
  unfold tally_entry.
  destruct b, v as [|v], n as [|n]; cbn; f_equal; f_equal; lia.
Qed.

(** The state of the tally after the elements [evs]. *)
Lemma tally_events (evs : list (nat * Element)) (st : tally_state) :
  foldM (fun st (re : nat * Element) => tally_element re.1 st re.2) evs ([], []) = Ok st ->
  NoDup (map fst st.1) /\ NoDup (map fst st.2)
  /\ forall a,
       dict_get a st.1
       = tally_entry (event_count a true evs) (event_count a false evs)
       /\ dict_get a st.2
          = match event_refs a evs with
            | [] => None
            | refs => Some refs
            end.
Proof.
  revert st. induction evs as [|[r e] evs IH] using rev_ind; intros st.
  - intros [= <-]. split; [constructor|]. split; [constructor|]. done.
  - rewrite foldM_app. intros (st1 & H1 & H)%rbind_ok.
    destruct (IH st1 H1) as (Hnd1 & Hnd2 & Hget). clear IH H1.
    cbn [foldM fst snd] in H. apply rbind_ok in H as (st2 & H & [= <-]).
    apply tally_element_step in H. subst st2.
    destruct (outcome_of e) as [[a0 b0]|] eqn:Ho.
    + cbn [fst snd]. split; [by apply dict_upsert_NoDup|].
      split; [by apply dict_upsert_NoDup|]. intros a.
      destruct (Hget a) as [Hg1 Hg2].
      rewrite !dict_get_upsert, !event_count_snoc, event_refs_snoc. cbn [fst snd].
      rewrite Ho. cbn [fmap option_fmap option_map fst].
      destruct (String.eqb_spec a0 a) as [->|Hne].
      * rewrite Hg1, Hg2. rewrite (decide_True (P := Some a = Some a)) by done.
        split.
        { rewrite tally_entry_bump.
          destruct b0; repeat (destruct (decide _); simplify_eq); done. }
        { by destruct (event_refs a evs). }
      * rewrite (decide_False (P := Some a0 = Some a)) by congruence.
        rewrite app_nil_r. split; [|done]. rewrite Hg1.
        repeat (destruct (decide _); simplify_eq). by rewrite !Nat.add_0_r.
    + split; [done|]. split; [done|]. intros a. destruct (Hget a) as [Hg1 Hg2].
      rewrite !event_count_snoc, event_refs_snoc. cbn [fst snd]. rewrite Ho.
      cbn [fmap option_fmap option_map].
      repeat (destruct (decide _); simplify_eq).
      by rewrite !Nat.add_0_r, app_nil_r.
Qed.

Lemma events_from_snd (n : nat) (cases : list Case) :
  map snd (events_from n cases) = concat (map conclusion cases).
Proof.
  revert n. induction cases as [|c cases IH]; intros n; [done|].
  cbn [events_from map concat]. rewrite map_app, map_map, IH. cbn [snd].
  by rewrite map_id.
Qed.

Lemma events_from_elem (n r : nat) (e : Element) (cases : list Case) :
  (r, e) ∈ events_from n cases
  <-> exists c, n <= r /\ cases !! (r - n) = Some c /\ e ∈ conclusion c.
Proof.
  revert n. induction cases as [|c cases IH]; intros n; cbn [events_from].
  - split; [by intros ?%elem_of_nil|]. by intros (c & _ & ? & _).
  - rewrite elem_of_app, IH, list_elem_of_fmap. split.
    + intros [(e' & [= -> ->] & He)|(c' & Hle & Hc' & He)].
      * exists c. rewrite Nat.sub_diag. done.
      * exists c'. split; [lia|]. split; [|done].
        replace (r - n) with (S (r - S n)) by lia. done.
    + intros (c' & Hle & Hc' & He). destruct (decide (r = n)) as [->|Hne].
      * left. rewrite Nat.sub_diag in Hc'. injection Hc' as <-. by exists e.
      * right. exists c'. split; [lia|]. split; [|done].
        replace (r - n) with (S (r - S n)) in Hc' by lia. done.
Qed.

Lemma event_count_snd (a : string) (b : bool) (evs : list (nat * Element)) :
  event_count a b evs
  = length (filter (fun e => outcome_of e = Some (a, b)) (map snd evs)).
Proof.
  unfold event_count. induction evs as [|re evs IH]; [done|].
  cbn [map]. rewrite !filter_cons. destruct (decide _); cbn [length]; by rewrite IH.
Qed.

Lemma event_refs_elem (a : string) (r : nat) (evs : list (nat * Element)) :
  r ∈ event_refs a evs
  <-> exists e b, (r, e) ∈ evs /\ outcome_of e = Some (a, b).
Proof.
  unfold event_refs. rewrite list_elem_of_fmap. split.
  - intros ([r' e] & -> & [Ho Hin]%list_elem_of_filter). cbn [fst snd] in *.
    destruct (outcome_of e) as [[a' b]|] eqn:He; [|done].
    injection Ho as ->. by exists e, b.
  - intros (e & b & Hin & Ho). exists (r, e). split; [done|].
    apply list_elem_of_filter. split; [|done]. cbn [snd]. by rewrite Ho.
Qed.

Lemma tally_counts_events (filtered : list Case) (outcomes : list (string * Tally))
    (cpa : list (string * list nat)) :
  tally filtered = Ok (outcomes, cpa) ->
  NoDup (map fst outcomes) /\ NoDup (map fst cpa)
  /\ forall a,
       dict_get a outcomes
       = tally_entry (outcome_count a true filtered) (outcome_count a false filtered)
       /\ dict_get a cpa
          = match event_refs a (events_from 0 filtered) with
            | [] => None
            | refs => Some refs
            end.
Proof.
  unfold tally, enumerate. rewrite tally_flat. intros H%tally_events.
  destruct H as (H1 & H2 & H). split; [done|]. split; [done|]. intros a.
  destruct (H a) as [Ho Hc]. cbn [fst snd] in *.
  rewrite !event_count_snd, events_from_snd in Ho. done.
Qed.

(** X12: the tally counts, for every article, the elements of the filtered cases
    that have this article and the type violation, and those that have the
    type no-violation; the total is their sum; an article has an entry
    exactly when the sum is not zero; and the cases filed under an article
    are, once for each such element, the cases that have one. *)
Theorem tally_counts (filtered : list Case) (outcomes : list (string * Tally))
    (cpa : list (string * list nat)) :
  tally filtered = Ok (outcomes, cpa) ->
  NoDup (map fst outcomes) /\ NoDup (map fst cpa)
  /\ forall a,
       let v := outcome_count a true filtered in
       let n := outcome_count a false filtered in
       dict_get a outcomes = (if Nat.eqb (v + n) 0 then None
                              else Some (mkTally v n (v + n)))
       /\ match dict_get a cpa with
          | Some refs =>
              length refs = v + n /\ 0 < v + n
              /\ forall r, r ∈ refs <->
                   exists c e b, filtered !! r = Some c /\ e ∈ conclusion c
                                 /\ outcome_of e = Some (a, b)
          | None => v + n = 0
          end.
Proof.
  intros (H1 & H2 & H)%tally_counts_events. split; [done|]. split; [done|].
  intros a v n. destruct (H a) as [Ho Hc]. split; [done|]. rewrite Hc.
  pose proof (event_refs_length a (events_from 0 filtered)) as Hlen.
  rewrite !event_count_snd, events_from_snd in Hlen. fold (outcome_count a true filtered) in Hlen.
  fold (outcome_count a false filtered) in Hlen. fold v n in Hlen.
  destruct (event_refs a (events_from 0 filtered)) as [|r0 refs] eqn:Hrefs.
  - cbn [length] in Hlen. lia.
  - split; [done|]. split; [cbn [length] in Hlen; lia|]. intros r.
    rewrite <- Hrefs, event_refs_elem. split.
    + intros (e & b & (c & _ & Hc' & He)%events_from_elem & Hb).
      rewrite Nat.sub_0_r in Hc'. by exists c, e, b.
    + intros (c & e & b & Hc' & He & Hb). exists e, b. split; [|done].
      apply events_from_elem. exists c. rewrite Nat.sub_0_r. split; [lia|done].
Qed.

Lemma tally_counts_witness :
  exists outcomes cpa,
    tally sample_cases = Ok (outcomes, cpa)
    /\ dict_get "3" outcomes = Some (mkTally 2 0 2)
    /\ dict_get "13" outcomes = Some (mkTally 0 2 2)
    /\ dict_get "5" outcomes = None.
Proof.
  destruct (tally sample_cases) as [[outcomes cpa]|e] eqn:E; [|by vm_compute in E].
  exists outcomes, cpa. split; [reflexivity|].
  destruct (tally_counts sample_cases outcomes cpa E) as (_ & _ & H).
  split; [|split].
  - destruct (H "3") as [-> _]. reflexivity.
  - destruct (H "13") as [-> _]. reflexivity.
  - destruct (H "5") as [-> _]. reflexivity.
Defined.

(** ** The multilabel listing *)

Lemma unique_loop (ml : list Case) (acc : list Case) (idx : gset string) :
  NoDup (map itemid acc) -> (forall c, c ∈ acc -> itemid c ∉ idx) ->
  let r := fold_left (fun st c =>
                        if decide (itemid c ∈ st.2)
                        then (st.1 ++ [c], st.2 ∖ {[itemid c]})
                        else st) ml (acc, idx) in
  NoDup (map itemid r.1)
  /\ (forall c, c ∈ r.1 -> c ∈ acc \/ c ∈ ml)
  /\ (forall c, c ∈ acc -> c ∈ r.1)
  /\ (forall c, c ∈ ml -> itemid c ∈ idx -> itemid c ∈ map itemid r.1).
Proof.
  revert acc idx. induction ml as [|c ml IH]; intros acc idx Hnd Hdis; cbn [fold_left].
  - split; [done|]. split; [by left|]. split; [done|]. by intros c ?%elem_of_nil.
  - cbn [fst snd]. destruct (decide (itemid c ∈ idx)) as [Hin|Hout].
    + destruct (IH (acc ++ [c]) (idx ∖ {[itemid c]})) as (H1 & H2 & H3 & H4).
      { rewrite map_app. apply NoDup_app. split; [done|].
        split; [|apply NoDup_singleton].
        intros x (c' & -> & Hc')%list_elem_of_fmap Heq%list_elem_of_singleton.
        apply (Hdis c' Hc'). by rewrite Heq. }
      { intros c' [Hc'|Hc']%elem_of_app.
        - specialize (Hdis c' Hc'). rewrite elem_of_difference. by intros [? _].
        - apply list_elem_of_singleton in Hc' as ->.
          rewrite elem_of_difference, elem_of_singleton. by intros [_ ?]. }
      split; [done|]. split; [|split].
      * intros c' [[?|Hc']%elem_of_app|?]%H2; [by left| |right; by right].
        apply list_elem_of_singleton in Hc' as ->. right. by left.
      * intros c' Hc'. apply H3, elem_of_app. by left.
      * intros c' [->|Hc']%elem_of_cons Hid.
        { apply list_elem_of_fmap. exists c. split; [done|].
          apply H3, elem_of_app. right. by left. }
        destruct (decide (itemid c' = itemid c)) as [Heq|Hne].
        { rewrite Heq. apply list_elem_of_fmap. exists c. split; [done|].
          apply H3, elem_of_app. right. by left. }
        apply H4; [done|]. apply elem_of_difference. split; [done|].
        by rewrite elem_of_singleton.
    + destruct (IH acc idx Hnd Hdis) as (H1 & H2 & H3 & H4).
      split; [done|]. split; [|split; [done|]].
      * intros c' [?|?]%H2; [by left|right; by right].
      * intros c' [->|Hc']%elem_of_cons Hid; [done|by apply H4].
Qed.

Lemma multilabel_cases_unique_spec (ml : list Case) :
  let out := multilabel_cases_unique ml (list_to_set (map itemid ml)) in
  NoDup (map itemid out)
  /\ (forall c, c ∈ out -> c ∈ ml)
  /\ (forall c, c ∈ ml -> itemid c ∈ map itemid out).
Proof.
  unfold multilabel_cases_unique.
  destruct (unique_loop ml [] (list_to_set (map itemid ml))) as (H1 & H2 & _ & H4).
  { constructor. }
  { by intros c ?%elem_of_nil. }
  split; [done|]. split.
  - intros c [?%elem_of_nil|?]%H2; done.
  - intros c Hc. apply H4; [done|]. apply elem_of_list_to_set, list_elem_of_fmap.
    by exists c.
Qed.

Lemma mapM_item_elem_2 {A : Type} (l : list A) (refs : list nat) (out : list A)
    (r : nat) (x : A) :
  mapM_r (Py.item l) refs = Ok out -> r ∈ refs -> l !! r = Some x -> x ∈ out.
Proof.
  revert out. induction refs as [|r' refs IH]; intros out; [by intros _ ?%elem_of_nil|].
  cbn [mapM_r]. intros (y & Hy & H)%rbind_ok.
  apply rbind_ok in H as (ys & Hys & [= <-]).
  intros [->|Hr]%elem_of_cons Hx.
  - unfold Py.item in Hy. rewrite Hx in Hy. injection Hy as <-. by left.
  - right. by eapply IH.
Qed.

(** The cases of [multilabel_cases]: those filed under a key of
    [outcomes]. *)
Lemma multilabel_cases_elem (ks : list string) (cpa : list (string * list nat))
    (filtered : list Case) (acc ml : list Case) (c : Case) :
  foldM (fun multilabel_cases k =>
           refs <- dict_getitem k cpa ;;
           cs <- mapM_r (Py.item filtered) refs ;;
           Ok (multilabel_cases ++ cs)) ks acc = Ok ml ->
  c ∈ ml <->
  c ∈ acc \/ exists k refs r, k ∈ ks /\ dict_get k cpa = Some refs /\ r ∈ refs
                             /\ filtered !! r = Some c.
Proof.
  revert acc. induction ks as [|k ks IH]; intros acc.
  - intros [= <-]. split; [by left|]. intros [?|(k & _ & _ & ?%elem_of_nil & _)]; done.
  - cbn [foldM]. intros (acc1 & H1 & H)%rbind_ok. rewrite (IH _ H). clear IH H.
    apply rbind_ok in H1 as (refs & Hrefs & H1).
    apply rbind_ok in H1 as (cs & Hcs & [= <-]).
    unfold dict_getitem in Hrefs. destruct (dict_get k cpa) as [refs'|] eqn:Hk; [|done].
    injection Hrefs as ->. rewrite elem_of_app. split.
    + intros [[?|Hc]|(k' & refs' & r & Hk' & Hg & Hr & Hl)].
      * by left.
      * right. destruct (mapM_item_elem _ _ _ _ Hcs Hc) as (r & Hr & Hl).
        exists k, refs, r. split; [by left|done].
      * right. exists k', refs', r. split; [by right|done].
    + intros [?|(k' & refs' & r & [->|Hk']%elem_of_cons & Hg & Hr & Hl)].
      * left. by left.
      * left. right. assert (refs' = refs) as -> by congruence.
        by eapply mapM_item_elem_2.
      * right. by exists k', refs', r.
Qed.

Lemma filterM_r_true {A : Type} (p : A -> result bool) (l out : list A) (x : A) :
  filterM_r p l = Ok out -> x ∈ out -> p x = Ok true.
Proof.
  revert out. induction l as [|y l IH]; intros out.
  - intros [= <-]. by intros ?%elem_of_nil.
  - cbn [filterM_r]. intros (b & Hb & H)%rbind_ok.
    apply rbind_ok in H as (ys & Hys & [= <-]).
    destruct b; [intros [->|Hx]%elem_of_cons|]; eauto.
Qed.

Lemma case_labels_loop_typed (ccl : list Element) (acc classes : list string) :
  foldM (fun classes e =>
           t <- gettype e ;;
           if is_outcome t then
             match article e with
             | Some g => Ok (classes ++ [class_label g t])
             | None => Ok classes
             end
           else Ok classes) ccl acc = Ok classes ->
  Forall (fun e => is_Some (type e)) ccl.
Proof.
  revert acc. induction ccl as [|e ccl IH]; intros acc; [constructor|].
  cbn [foldM]. intros (acc1 & H1 & H)%rbind_ok. constructor; [|exact (IH _ H)].
  unfold gettype in H1. destruct (type e); [by eexists|done].
Qed.

Lemma case_labels_typed (ccl : list Element) (classes : list string) :
  case_labels ccl = Ok classes -> Forall (fun e => is_Some (type e)) ccl.
Proof. apply case_labels_loop_typed. Qed.

(** A case of the outcome-consistent subset has an element with an
    outcome. *)
Lemma outcome_consistent_true (c : Case) :
  outcome_consistent c = Ok true ->
  typed_case c
  /\ exists e a b, e ∈ conclusion c /\ outcome_of e = Some (a, b).
Proof.
  unfold outcome_consistent. intros (classes & Hcl & H)%rbind_ok.
  apply case_labels_typed in Hcl as Ht. split; [done|].
  rewrite case_labels_spec in Hcl by done. injection Hcl as <-.
  apply rbind_ok in H as (opposed & _ & [= H]).
  apply andb_true_iff in H as [H _]. apply Nat.ltb_lt in H.
  destruct (outcome_labels (conclusion c)) as [|[a b] labels] eqn:Hl; [cbn in H; lia|].
  assert ((a, b) ∈ outcome_labels (conclusion c)) as Hin by (rewrite Hl; by left).
  apply list_elem_of_omap in Hin as (e & He & Ho). by exists e, a, b.
Qed.

Lemma multilabel_cases_total (ks : list string) (cpa : list (string * list nat))
    (filtered : list Case) (acc : list Case) :
  refs_ok filtered cpa ->
  (forall k, k ∈ ks -> is_Some (dict_get k cpa)) ->
  exists ml,
    foldM (fun multilabel_cases k =>
             refs <- dict_getitem k cpa ;;
             cs <- mapM_r (Py.item filtered) refs ;;
             Ok (multilabel_cases ++ cs)) ks acc = Ok ml.
Proof.
  intros Hok. revert acc. induction ks as [|k ks IH]; intros acc Hks; [by eexists|].
  cbn [foldM]. destruct (Hks k) as [refs Hrefs]; [by left|].
  unfold dict_getitem at 1. rewrite Hrefs. cbn [rbind].
  destruct (mapM_item_total filtered refs) as [cs ->].
  { intros r Hr. destruct (Hok k refs r Hrefs Hr) as (c & _ & -> & _). by eexists. }
  cbn [rbind]. apply IH. intros k' Hk'. apply Hks. by right.
Qed.

Lemma multilabel_spec (cases out : list Case) :
  multilabel cases = Ok out ->
  exists filtered,
    filtered_cases cases = Ok filtered
    /\ NoDup (map itemid out)
    /\ (forall c, c ∈ out -> c ∈ filtered)
    /\ (forall c, c ∈ filtered -> itemid c ∈ map itemid out).
Proof.
  unfold multilabel. intros (filtered & Hf & H)%rbind_ok.
  apply rbind_ok in H as ([outcomes cpa] & Ht & H).
  apply rbind_ok in H as (ml & Hml & H). apply Ok_inj in H as <-.
  exists filtered. split; [done|].
  destruct (multilabel_cases_unique_spec ml) as (Hnd & Hsub & Hall).
  assert (forall c, c ∈ ml <->
            exists k refs r, k ∈ map fst outcomes /\ dict_get k cpa = Some refs
                             /\ r ∈ refs /\ filtered !! r = Some c) as Helem.
  { intros c. unfold multilabel_cases in Hml.
    rewrite (multilabel_cases_elem _ _ _ _ _ c Hml). split; [|by right].
    by intros [?%elem_of_nil|?]. }
  split; [done|]. split.
  - intros c (k & refs & r & _ & _ & _ & Hr)%Hsub%Helem. by eapply list_elem_of_lookup_2.
  - intros c Hc. apply Hall, Helem.
    apply (filterM_r_true _ _ _ _ Hf) in Hc as Hcons.
    apply outcome_consistent_true in Hcons as (_ & e & a & b & He & Ho).
    apply list_elem_of_lookup_1 in Hc as [r Hr].
    destruct (tally_counts_events _ _ _ Ht) as (_ & _ & Hget).
    destruct (Hget a) as [Hout Hcpa].
    assert (r ∈ event_refs a (events_from 0 filtered)) as Hin.
    { apply event_refs_elem. exists e, b. split; [|done].
      apply events_from_elem. exists c. rewrite Nat.sub_0_r. split; [lia|done]. }
    destruct (event_refs a (events_from 0 filtered)) as [|r0 refs] eqn:Hrefs;
      [by apply elem_of_nil in Hin|].
    exists a, (r0 :: refs), r. split; [|done].
    destruct (decide (a ∈ map fst outcomes)) as [|Hn]; [done|].
    apply dict_get_None in Hn. rewrite Hn in Hout.
    pose proof (event_refs_length a (events_from 0 filtered)) as Hlen.
    rewrite Hrefs, !event_count_snd, events_from_snd in Hlen.
    unfold tally_entry, outcome_count in Hout. cbn [length] in Hlen.
    destruct (Nat.eqb_spec (length (filter (fun e => outcome_of e = Some (a, true))
                                      (concat (map conclusion filtered)))
                            + length (filter (fun e => outcome_of e = Some (a, false))
                                        (concat (map conclusion filtered)))) 0);
      [lia|done].
Qed.

(** X13: the multilabel listing is computed on cases whose elements all have a
    type. Whenever it is computed, it consists of cases of the
    outcome-consistent subset, no two of which have the same identifier,
    and it has a case for the identifier of every case of the subset: when
    the identifiers of the subset are distinct it is the subset, in another
    order. *)
Theorem multilabel_listing :
  (forall cases, Forall typed_case cases -> exists out, multilabel cases = Ok out)
  /\ (forall cases out,
        multilabel cases = Ok out ->
        exists filtered,
          filtered_cases cases = Ok filtered
          /\ NoDup (map itemid out)
          /\ (forall c, c ∈ out -> c ∈ filtered)
          /\ (forall c, c ∈ filtered -> itemid c ∈ map itemid out)
          /\ (NoDup (map itemid filtered) -> out ≡ₚ filtered)).
Proof.
  split.
  - intros cases Ht. unfold multilabel.
    destruct (filtered_cases_total cases Ht) as (filtered & -> & Htf). cbn [rbind].
    destruct (tally_total filtered Htf) as ([outcomes cpa] & Htally & Hkeys).
    rewrite Htally. cbn [rbind]. unfold multilabel_cases.
    destruct (multilabel_cases_total (map fst outcomes) cpa filtered []) as [ml ->].
    { by apply tally_refs in Htally. }
    { intros k Hk. apply Hkeys. cbn [fst].
      destruct (dict_get k outcomes) eqn:Hg; [by eexists|].
      by apply dict_get_None in Hg. }
    by eexists.
  - intros cases out (filtered & Hf & Hnd & Hsub & Hall)%multilabel_spec.
    exists filtered. do 4 (split; [done|]). intros Hids.
    apply NoDup_Permutation.
    + by eapply NoDup_fmap_1.
    + by eapply NoDup_fmap_1.
    + intros c. split; [apply Hsub|]. intros Hc.
      destruct (proj1 (list_elem_of_fmap _ _ _) (Hall c Hc)) as (c' & Hid & Hc').
      assert (c' = c) as <-; [|done].
      apply Hsub in Hc' as Hc''.
      apply list_elem_of_lookup_1 in Hc as [i Hi].
      apply list_elem_of_lookup_1 in Hc'' as [j Hj].
      assert (i = j) as ->; [|congruence].
      eapply NoDup_lookup; [exact Hids| |].
      * rewrite list_lookup_fmap, Hi. done.
      * rewrite list_lookup_fmap, Hj. cbn. by rewrite Hid.
Qed.

Lemma multilabel_listing_witness :
  exists out, multilabel sample_cases = Ok out
              /\ map itemid out = ["001-1"; "001-2"; "001-3"].
Proof.
  destruct (proj1 multilabel_listing sample_cases) as [out E].
  { repeat constructor; by eexists. }
  exists out. split; [exact E|].
  vm_compute in E. injection E as <-. reflexivity.
Defined.

(** ** The identifiers of the multiclass listing *)

Lemma foldM_invariant {A S : Type} (P : S -> Prop) (f : S -> A -> result S)
    (l : list A) (s s' : S) :
  (forall s x s', f s x = Ok s' -> P s -> P s') ->
  P s -> foldM f l s = Ok s' -> P s'.
Proof.
  intros Hf. revert s. induction l as [|x l IH]; intros s Hs.
  - by intros [= <-].
  - cbn [foldM]. intros (s1 & H1 & H)%rbind_ok. eapply IH; [|exact H]. by eapply Hf.
Qed.

Lemma omap_snoc {A B : Type} (f : A -> option B) (l : list A) (x : A) :
  omap f (l ++ [x]) = omap f l ++ option_list (f x).
Proof. rewrite omap_app. simpl. by destruct (f x). Qed.

Lemma multiclass_visit_distinct (k : string) (st st' : mc_state) (r : nat) :
  multiclass_visit k st r = Ok st' -> mc_distinct st -> mc_distinct st'.
Proof.
  unfold multiclass_visit. intros (c & Hc & H)%rbind_ok.
  unfold Py.item in Hc. destruct (store st !! r) as [c'|] eqn:Hr; [|done].
  injection Hc as ->.
  destruct (multiclass_index st !! itemid c) as [k'|] eqn:Hidx; [by injection H as <-|].
  destruct (Nat.eqb _ 1); [|by injection H as <-].
  set (store' := match find _ (conclusion c) with
                 | Some cc => alter (set_mc_conclusion cc) r (store st)
                 | None => store st
                 end) in H.
  assert (map itemid store' = map itemid (store st)) as Hids.
  { unfold store'. destruct (find _ _) as [cc|]; [|done].
    apply map_alter_same. by intros []. }
  apply rbind_ok in H as (c1 & Hc1 & H).
  assert (itemid c1 = itemid c) as Hid1.
  { unfold Py.item in Hc1. destruct (store' !! r) as [c2|] eqn:Hr'; [|done].
    injection Hc1 as ->.
    assert (map itemid store' !! r = Some (itemid c1)) as H1
      by (by rewrite list_lookup_fmap, Hr').
    rewrite Hids, list_lookup_fmap, Hr in H1. by injection H1. }
  intros [Hnd Hkeys]. unfold mc_distinct in *.
  destruct (mc_conclusion c1); injection H as <-;
    cbn [store multiclass_index multiclass_cases]; rewrite Hids.
  - split.
    + rewrite omap_snoc, list_lookup_fmap, Hr. cbn [fmap option_fmap option_map option_list].
      apply NoDup_app. split; [done|]. split; [|apply NoDup_singleton].
      intros id (r' & Hr' & Hid)%list_elem_of_omap Heq%list_elem_of_singleton.
      subst id. destruct (Hkeys r' _ Hr' Hid) as [? ?]. congruence.
    + intros r' id [Hr'|Hr']%elem_of_app Hid.
      * rewrite Hid1. apply lookup_insert_is_Some'. right. by eapply Hkeys.
      * apply list_elem_of_singleton in Hr' as ->.
        rewrite list_lookup_fmap, Hr in Hid. injection Hid as <-.
        rewrite Hid1, lookup_insert_eq. by eexists.
  - done.
Qed.

Lemma multiclass_distinct_inv (order : list string) (cpa : list (string * list nat))
    (filtered : list Case) (st : mc_state) :
  multiclass order cpa filtered = Ok st -> mc_distinct st.
Proof.
  unfold multiclass. intros H. eapply (foldM_invariant mc_distinct); [| |exact H].
  - intros s k s' (refs & _ & H')%rbind_ok Hs.
    eapply (foldM_invariant mc_distinct); [|exact Hs|exact H'].
    intros s1 r s2. apply multiclass_visit_distinct.
  - split; [constructor|]. by intros r id ?%elem_of_nil.
Qed.

Lemma mapM_item_ids (l : list Case) (refs : list nat) (out : list Case) :
  mapM_r (Py.item l) refs = Ok out ->
  map itemid out = omap (fun r => map itemid l !! r) refs.
Proof.
  revert out. induction refs as [|r refs IH]; intros out.
  - by intros [= <-].
  - cbn [mapM_r]. intros (c & Hc & H)%rbind_ok.
    apply rbind_ok in H as (cs & Hcs & [= <-]).
    unfold Py.item in Hc. destruct (l !! r) as [c'|] eqn:Hr; [|done]. injection Hc as ->.
    simpl. rewrite list_lookup_fmap, Hr. cbn. f_equal. by apply IH.
Qed.

(** X14: no two cases of the multiclass listing have the same identifier, even
    when cases of the input have; every case of the listing is a case of the
    outcome-consistent subset, up to its ['mc_conclusion']; and this subset
    is a sublist of the input. *)
Theorem multiclass_distinct (cases : list Case) (ds : Datasets) :
  run cases = Ok ds ->
  NoDup (map itemid (ds_multiclass ds))
  /\ Forall (fun c => exists c0, c0 ∈ ds_filtered ds /\ itemid c = itemid c0
                                 /\ conclusion c = conclusion c0)
            (ds_multiclass ds)
  /\ ds_filtered ds `sublist_of` cases.
Proof.
  unfold run. intros H.
  apply rbind_ok in H as (filtered & Hf & H).
  apply rbind_ok in H as ([outcomes cpa] & Ht & H).
  apply rbind_ok in H as (mc & Hmc & H).
  apply rbind_ok in H as (out & Hout & H).
  apply Ok_inj in H. subst ds. cbn [ds_multiclass ds_filtered].
  split; [|split].
  - rewrite (mapM_item_ids _ _ _ Hout). by apply multiclass_distinct_inv in Hmc as [? _].
  - apply tally_refs in Ht. cbn [snd] in Ht.
    destruct (multiclass_inv _ _ _ _ Ht Hmc) as (_ & Hstore & _).
    apply Forall_forall. intros c Hc.
    destruct (mapM_item_elem _ _ _ _ Hout Hc) as (r & _ & Hlook).
    destruct (Hstore r c Hlook) as (c0 & Hc0 & Hid & Hccl).
    exists c0. split; [by eapply list_elem_of_lookup_2|done].
  - by eapply filterM_r_sublist.
Qed.

Lemma multiclass_distinct_witness :
  let v3 := mkElement "Violation of Article 3" (Some violation) (Some "3") (Some "3")
              None None in
  exists ds, run [mkCase "001-1" [v3] None; mkCase "001-1" [v3] None] = Ok ds
             /\ length (ds_filtered ds) = 2
             /\ NoDup (map itemid (ds_multiclass ds)).
Proof.
  intros v3.
  destruct (run [mkCase "001-1" [v3] None; mkCase "001-1" [v3] None]) as [ds|e] eqn:E;
    [|by vm_compute in E].
  exists ds. split; [reflexivity|]. split.
  - vm_compute in E. by injection E as <-.
  - exact (proj1 (multiclass_distinct _ ds E)).
Defined.

Section NormaliserFields.

Variable COUNTRIES : gmap string value.
Variable ORIGINATING_BODY : gmap string (gmap string value).

Lemma format_case_inv (c c' : gmap string value) :
  format_case COUNTRIES ORIGINATING_BODY c = Ok c' ->
  normalised_parsed COUNTRIES ORIGINATING_BODY c c' /\ normalised_lists c c'
  /\ normalisable COUNTRIES ORIGINATING_BODY c.
Proof.
  intros H. unfold format_case in H.
  repeat bind_step H.
  apply Ok_inj in H.
  repeat match goal with
         | E : getitem _ _ = Ok _ |- _ => apply getitem_ok in E
         | E : as_str _ = Ok _ |- _ => apply as_str_ok in E
         end.
  repeat match goal with
         | E : _ !! _ = Some _ |- _ => progress (map_lookup_in E)
         end.
  repeat match goal with
         | E : Some _ = Some _ |- _ => apply (inj Some) in E
         end.
  subst.
  match goal with E : VStr _ = VStr _ |- _ => injection E as <- end.
  match goal with E : Py.item (Py.split ";" _) 0 = Ok _ |- _ =>
    rewrite split_char_head in E; apply Ok_inj in E; subst end.
  match goal with
  | E1 : ORIGINATING_BODY !! ?k = Some ?a, E2 : ORIGINATING_BODY !! ?k = Some ?b |- _ =>
      assert_fails (constr_eq a b); assert (b = a) as -> by congruence
  end.
  split; [|split].
  - unfold normalised_parsed.
    split; [eexists _, _; split; [eassumption|split; [eassumption|by map_lookup]]|].
    split; [eexists _, _; split; [eassumption|split; [eassumption|by map_lookup]]|].
    split; [eexists _, _; split; [eassumption|split; [eassumption|split; by map_lookup]]|].
    split; [eexists _, _; split; [eassumption|split; [eassumption|by map_lookup]]|].
    eexists _, _, _, _. split; [eassumption|]. split; [eassumption|].
    split; [eassumption|]. split; [eassumption|]. split; by map_lookup.
  - unfold normalised_lists. split.
    + repeat constructor;
        (eexists _, _; split; [eassumption|split; [eassumption|by map_lookup]]).
    + split; [eexists; split; [eassumption|by map_lookup]|].
      split; [eexists; split; [eassumption|by map_lookup]|].
      eexists; split; [eassumption|by map_lookup].
  - unfold normalisable.
    split; [eexists; split; [eassumption|]|].
    { match goal with E : format_parties _ = Ok _ |- _ => by rewrite E end. }
    split; [eexists; split; [eassumption|]|].
    { match goal with E : format_conclusion _ = Ok _ |- _ => by rewrite E end. }
    split.
    { repeat constructor; (eexists; split; [eassumption|]);
        match goal with E : explode ?v = Ok _ |- is_ok (explode ?v) = true =>
          by rewrite E end. }
    split; [repeat constructor; by eexists|].
    split; [eexists; split; [eassumption|by eexists]|].
    split; [eexists _, _; split; [eassumption|split; [eassumption|split; by eexists]]|].
    repeat constructor; by eexists.
Qed.

Lemma bind_ex {A B : Type} (m : result A) (k : A -> result B) (x : A) :
  m = Ok x -> (exists y, k x = Ok y) -> exists y, rbind m k = Ok y.
Proof. by intros ->. Qed.

Lemma getitem_lookup {V : Type} (d : gmap string V) (k : string) (v : V) :
  d !! k = Some v -> getitem d k = Ok v.
Proof. unfold getitem. by intros ->. Qed.

Lemma format_case_total (c : gmap string value) :
  normalisable COUNTRIES ORIGINATING_BODY c ->
  exists c', format_case COUNTRIES ORIGINATING_BODY c = Ok c'.
Proof.
  intros ((docname & Hdoc & Hparties) & (raw & Hraw & Hccl) & Hexp & Hstr
          & (resp & Hresp & [country Hcountry]) & (body & entry & Hbody & Hentry
          & [ty Hty] & [nm Hnm]) & Hkeys).
  destruct (format_parties docname) as [names|] eqn:En; [|done].
  destruct (format_conclusion raw) as [ccl|] eqn:Ec; [|done].
  repeat match goal with
         | H : Forall _ (_ :: _) |- _ => apply Forall_cons in H as [? H]
         | H : Forall _ [] |- _ => clear H
         end.
  repeat match goal with
         | H : exists _, _ |- _ => destruct H as [? H]
         | H : _ /\ _ |- _ => destruct H
         | H : is_Some _ |- _ => destruct H
         end.
  repeat match goal with
         | H : is_ok (explode ?v) = true |- _ =>
             let l := fresh "l" in
             let E := fresh "E" in
             destruct (explode v) as [l|] eqn:E; [clear H|discriminate H]
         end.
  unfold format_case.
  repeat (eapply bind_ex;
          [ first [ eassumption
                  | reflexivity
                  | apply split_char_head
                  | apply format_article_bases
                  | apply getitem_lookup; map_lookup; first [eassumption|reflexivity] ]
          | cbn beta zeta ]).
  by eexists.
Qed.


End NormaliserFields.

Lemma mapM_r_Forall2 {A B : Type} (f : A -> result B) (l : list A) (l' : list B) :
  mapM_r f l = Ok l' -> Forall2 (fun x y => f x = Ok y) l l'.
Proof.
  revert l'. induction l as [|x l IH]; intros l'.
  - intros H. apply Ok_inj in H as <-. constructor.
  - cbn [mapM_r]. intros (y & Hy & H)%rbind_ok.
    apply rbind_ok in H as (ys & Hys & H). apply Ok_inj in H as <-.
    constructor; [done|by apply IH].
Qed.

(** X15: on every list of cases that [format_cases] normalises, the parties, the
    conclusion, the articles and the paragraphs of a case are what
    [format_parties], [format_conclusion], [format_article] and
    [format_subarticle] return on its raw title, conclusion and article
    strings; its country is the entry of the country table for the first
    respondent; and the type and the name of its originating body are those
    of the entry of the table of bodies. *)
Theorem format_cases_parsed_fields (COUNTRIES : gmap string value)
    (ORIGINATING_BODY : gmap string (gmap string value))
    (cases cases' : list (gmap string value)) :
  format_cases COUNTRIES ORIGINATING_BODY cases = Ok cases' ->
  Forall2 (normalised_parsed COUNTRIES ORIGINATING_BODY) cases cases'.
Proof.
  intros H%mapM_r_Forall2. eapply Forall2_impl; [exact H|].
  intros c c' Hc. by apply format_case_inv in Hc as [? _].
Qed.

Lemma format_cases_parsed_fields_witness :
  exists cases', format_cases sample_countries sample_bodies [sample_case] = Ok cases'
                 /\ Forall2 (normalised_parsed sample_countries sample_bodies)
                            [sample_case] cases'.
Proof.
  assert (is_ok (format_cases sample_countries sample_bodies [sample_case]) = true)
    as Hok by (vm_compute; reflexivity).
  destruct (format_cases sample_countries sample_bodies [sample_case]) as [l|e] eqn:E;
    [|discriminate Hok].
  exists l. split; [reflexivity|].
  exact (format_cases_parsed_fields sample_countries sample_bodies [sample_case] l E).
Defined.

(** X16: on every list of cases that [format_cases] normalises, the external
    sources, the collection identifiers, the issues and the representatives
    of a case are the trimmed pieces of the raw value between [';'], and
    none when the raw value is empty; the application numbers are the
    trimmed pieces of the raw string, one empty piece when it is empty; the
    thesaurus keywords and the case-law references are the pieces as they
    are, and there is no reference when the raw string is blank. *)
Theorem format_cases_list_fields (COUNTRIES : gmap string value)
    (ORIGINATING_BODY : gmap string (gmap string value))
    (cases cases' : list (gmap string value)) :
  format_cases COUNTRIES ORIGINATING_BODY cases = Ok cases' ->
  Forall2 normalised_lists cases cases'.
Proof.
  intros H%mapM_r_Forall2. eapply Forall2_impl; [exact H|].
  intros c c' Hc. by apply format_case_inv in Hc as (_ & ? & _).
Qed.

Lemma format_cases_list_fields_witness :
  exists cases', format_cases sample_countries sample_bodies [sample_case] = Ok cases'
                 /\ Forall2 normalised_lists [sample_case] cases'.
Proof.
  assert (is_ok (format_cases sample_countries sample_bodies [sample_case]) = true)
    as Hok by (vm_compute; reflexivity).
  destruct (format_cases sample_countries sample_bodies [sample_case]) as [l|e] eqn:E;
    [|discriminate Hok].
  exists l. split; [reflexivity|].
  exact (format_cases_list_fields sample_countries sample_bodies [sample_case] l E).
Defined.

(** X17: [format_cases] returns exactly on the lists of cases each of which has
    a title that [format_parties] accepts, a conclusion that
    [format_conclusion] accepts, strings under the keys that are split, a
    first respondent in the country table, an originating body in the table
    of bodies with a type and a name, and the keys that are deleted or
    renamed. *)
Theorem format_cases_domain (COUNTRIES : gmap string value)
    (ORIGINATING_BODY : gmap string (gmap string value))
    (cases : list (gmap string value)) :
  (exists cases', format_cases COUNTRIES ORIGINATING_BODY cases = Ok cases')
  <-> Forall (normalisable COUNTRIES ORIGINATING_BODY) cases.
Proof.
  split.
  - intros [cases' H%mapM_r_Forall2]. induction H as [|c c' cases cases' Hc _ IH].
    + constructor.
    + constructor; [|done]. by apply format_case_inv in Hc as (_ & _ & ?).
  - unfold format_cases. induction 1 as [|c cases Hc _ [cases' IH]]; [by eexists|].
    destruct (format_case_total _ _ c Hc) as [c' Hc'].
    cbn [mapM_r]. rewrite Hc', IH. by eexists.
Qed.

(** ** The statistics *)

Lemma generate_count_keys (k : string) (cases : list (gmap string value))
    (s0 s : list counted) :
  foldM (fun s c =>
           v <- getitem c k ;;
           if String.eqb k "conclusion" then
             match v with
             | VConclusion l => Ok (s ++ map (fun a => CStr (element a)) l)
             | VStr EmptyString => Ok s
             | VList [] => Ok s
             | _ => Raise TypeError
             end
           else
             match v with
             | VList l => if Nat.ltb 0 (length l) then Ok (s ++ map CStr l) else Ok s
             | VConclusion l => if Nat.ltb 0 (length l) then Ok (s ++ map CDict l) else Ok s
             | VStr x => if Py.nonempty (Py.strip x) then Ok (s ++ [CStr x]) else Ok s
             | VCountry _ _ => Ok s
             end) cases s0 = Ok s ->
  Forall (fun c => is_Some (c !! k)) cases
  /\ (string_attribute k cases -> length s <= length s0 + length cases)
  /\ (country_attribute k cases -> s = s0).
Proof.
  revert s0. induction cases as [|c cases IH]; intros s0.
  - intros [= <-]. split; [constructor|]. split; [cbn; lia|done].
  - cbn [foldM]. intros (s1 & H1 & H)%rbind_ok.
    destruct (IH _ H) as (Hk & Hstr & Hcty). clear IH H.
    apply rbind_ok in H1 as (v & Hv & H1). unfold getitem in Hv.
    destruct (c !! k) as [v'|] eqn:Hc; [|done]. injection Hv as ->.
    split; [constructor; [by eexists|done]|]. split.
    + intros [(x & Hx) Hall]%Forall_cons. specialize (Hstr Hall).
      assert (v = VStr x) as -> by congruence. cbn [length].
      assert (length s1 <= S (length s0)); [|lia].
      destruct (String.eqb k "conclusion").
      * destruct x; [|done]. injection H1 as <-. lia.
      * destruct (Py.nonempty _); injection H1 as <-; rewrite ?length_app; cbn; lia.
    + intros [(a & n & Hx) Hall]%Forall_cons. rewrite (Hcty Hall).
      assert (v = VCountry a n) as -> by congruence.
      destruct (String.eqb k "conclusion"); [done|]. by injection H1.
Qed.

Lemma Counter_length (s : list counted) (ks : list string) :
  Counter s = Ok ks -> length ks <= length s.
Proof.
  unfold Counter. intros (strs & Hs & [= <-])%rbind_ok.
  assert (length strs = length s) as <-.
  { revert strs Hs. induction s as [|x s IH]; intros strs; [by intros [= <-]|].
    cbn [mapM_r]. intros (y & _ & H)%rbind_ok.
    apply rbind_ok in H as (ys & Hys & [= <-]). cbn. f_equal. by apply IH. }
  unfold list_set. apply submseteq_length, NoDup_submseteq; [apply NoDup_remove_dups|].
  intros x. by rewrite elem_of_remove_dups.
Qed.

Section StatisticsProperties.

Variable keys : gmap string value -> list string.
Hypothesis keys_spec : forall c k, k ∈ keys c <-> is_Some (c !! k).

Lemma generate_statistics_rows (cases : list (gmap string value)) (ks : list string)
    (stats : list (string * AttributeStats)) :
  mapM_r (fun k =>
            s <- generate_count k cases ;;
            s <- Counter s ;;
            Ok (k, mkStats (length s)
                           (PrimFloat.div (float_of_nat (length s))
                                          (float_of_nat (length cases))))) ks
  = Ok stats ->
  map fst stats = ks
  /\ Forall (fun k => Forall (fun c => is_Some (c !! k)) cases) ks
  /\ Forall (fun row =>
               (string_attribute row.1 cases -> cardinal row.2 <= length cases)
               /\ (country_attribute row.1 cases -> cardinal row.2 = 0)) stats.
Proof.
  revert stats. induction ks as [|k ks IH]; intros stats.
  - intros [= <-]. by repeat constructor.
  - cbn [mapM_r]. intros (row & Hrow & H)%rbind_ok.
    apply rbind_ok in H as (rows & Hrows & [= <-]).
    destruct (IH _ Hrows) as (Hfst & Hkeys & Hbound). clear IH Hrows.
    apply rbind_ok in Hrow as (s & Hs & Hrow).
    apply rbind_ok in Hrow as (cs & Hcs & [= <-]).
    apply generate_count_keys in Hs as (Hk & Hstr & Hcty).
    apply Counter_length in Hcs as Hlen.
    split; [cbn; by rewrite Hfst|]. split; [by constructor|].
    constructor; [|done]. cbn [fst snd cardinal]. split.
    + intros Hs. specialize (Hstr Hs). cbn [length] in Hstr. lia.
    + intros Hc. rewrite (Hcty Hc) in Hlen. cbn [length] in Hlen. lia.
Qed.

(** X18: [generate_statistics] raises [IndexError] on an empty list. Whenever it
    returns, there is a first case, the statistics have one entry for each
    of its keys, in order, and every case has all these keys; the cardinal
    of an attribute whose values are strings is at most the number of cases,
    and the cardinal of an attribute whose values are country records
    is 0. *)
Theorem generate_statistics_attributes :
  generate_statistics keys [] = Raise IndexError
  /\ forall cases stats,
       generate_statistics keys cases = Ok stats ->
       exists c0,
         head cases = Some c0
         /\ map fst stats = keys c0
         /\ Forall (fun c => forall k, is_Some (c0 !! k) -> is_Some (c !! k)) cases
         /\ Forall (fun row =>
                      (string_attribute row.1 cases -> cardinal row.2 <= length cases)
                      /\ (country_attribute row.1 cases -> cardinal row.2 = 0)) stats.
Proof.
  split; [done|]. intros cases stats. unfold generate_statistics.
  intros (c0 & Hc0 & H)%rbind_ok. exists c0.
  unfold Py.item in Hc0. destruct cases as [|c cases']; [done|]. injection Hc0 as ->.
  set (cases := c0 :: cases') in *. split; [done|].
  apply generate_statistics_rows in H as (Hfst & Hkeys & Hrows).
  split; [done|]. split; [|done].
  apply Forall_forall. intros c Hc k Hk%keys_spec.
  rewrite Forall_forall in Hkeys. specialize (Hkeys k Hk).
  rewrite Forall_forall in Hkeys. by apply Hkeys.
Qed.

Variable COUNTRIES : gmap string value.
Variable ORIGINATING_BODY : gmap string (gmap string value).

(** X19: when the filters leave no case, the step does not end with empty
    statistics: [generate_statistics] raises [IndexError]. Whenever the step
    gets as far as the statistics, at least one case has passed the
    filters, every filtered case has been normalised, and the statistics
    have one entry for each key of the first normalised case. *)
Theorem run_statistics_cases (cases : list (gmap string value)) :
  (filter_cases cases = Ok [] ->
   run_statistics keys COUNTRIES ORIGINATING_BODY cases = Raise IndexError)
  /\ forall cases' stats,
       run_statistics keys COUNTRIES ORIGINATING_BODY cases = Ok (cases', stats) ->
       exists out c0,
         filter_cases cases = Ok out
         /\ format_cases COUNTRIES ORIGINATING_BODY out = Ok cases'
         /\ length cases' = length out
         /\ head cases' = Some c0
         /\ map fst stats = keys c0.
Proof.
  unfold run_statistics. split; [by intros ->|].
  intros cases' stats (out & Hout & H)%rbind_ok.
  apply rbind_ok in H as (cs & Hcs & H). apply rbind_ok in H as (st & Hst & H).
  apply Ok_inj in H. injection H as -> ->.
  unfold generate_statistics in Hst. apply rbind_ok in Hst as (c0 & Hc0 & Hst).
  apply generate_statistics_rows in Hst as (Hfst & _ & _).
  exists out, c0. split; [done|]. split; [done|]. split.
  - apply mapM_r_Forall2 in Hcs. symmetry. by eapply Forall2_length.
  - unfold Py.item in Hc0. destruct cases' as [|c cs]; [done|].
    injection Hc0 as ->. done.
Qed.

End StatisticsProperties.

Lemma generate_statistics_attributes_witness :
  let keys (c : gmap string value) := elements (dom c) in
  let cases : list (gmap string value) :=
    [ {[ "country" := VCountry "fr" "France" ]};
      {[ "country" := VCountry "it" "Italy" ]} ] in
  exists stats c0,
    generate_statistics keys cases = Ok stats
    /\ head cases = Some c0 /\ map fst stats = keys c0
    /\ Forall (fun row => country_attribute row.1 cases -> cardinal row.2 = 0) stats.
Proof.
  intros keys cases.
  assert (is_ok (generate_statistics keys cases) = true) as Hok
    by (vm_compute; reflexivity).
  destruct (generate_statistics keys cases) as [stats|e] eqn:E; [|discriminate Hok].
  destruct (proj2 (generate_statistics_attributes keys
                     (fun c k => conj (fun H => proj1 (elem_of_dom c k)
                                                  (proj1 (elem_of_elements _ k) H))
                                      (fun H => proj2 (elem_of_elements _ k)
                                                  (proj2 (elem_of_dom c k) H))))
                  cases stats E) as (c0 & Hc0 & Hfst & _ & Hrows).
  exists stats, c0. split; [reflexivity|]. split; [exact Hc0|]. split; [exact Hfst|].
  eapply Forall_impl; [exact Hrows|]. intros row [_ H]. exact H.
Defined.

Lemma run_statistics_cases_witness :
  let keys (c : gmap string value) := elements (dom c) in
  let c : gmap string value := {[ "languageisocode" := VStr "FRE" ]} in
  run_statistics keys sample_countries sample_bodies [c] = Raise IndexError.
Proof.
  intros keys c.
  apply (proj1 (run_statistics_cases keys sample_countries sample_bodies [c])).
  vm_compute. reflexivity.
Defined.

(** ** The partitioner on the output of the parser *)

Lemma outcome_consistent_colon_free_witness :
  let c := mkCase "001-2"
             [ mkElement "Violation of Article 3" (Some violation) (Some "3") (Some "3")
                         None None;
               mkElement "No violation of Article 13" (Some no_violation) (Some "13")
                         (Some "13") None None ] None in
  exists b, outcome_consistent c = Ok b /\ (b = true <-> consistent_spec (conclusion c)).
Proof.
  intros c. apply (outcome_consistent_colon_free c).
  repeat constructor; try (by eexists); by intros a [= <-].
Defined.

Lemma run_total_parsed_witness :
  let c := mkCase "001-1"
             [ mkElement "Violation of Article 3" (Some violation) (Some "3") (Some "3")
                         None None ] None in
  exists ds, run [c] = Ok ds.
Proof.
  intros c. apply (run_total_parsed [c]).
  constructor; [|constructor]. exists "Violation of Article 3". vm_compute. reflexivity.
Defined.
